(** * Summary-to-passage matching of the parshat-beshalach scripts

    A shallow embedding of the matching, rendering, normalisation and OCR
    retry code of the repository, and the properties its specification
    states about them.

    Conventions of the embedding.
    - A Python [str] is a sequence of Unicode code points: [str := list N].
      [len], slicing, [in], [strip] and the regular expressions the scripts
      use are functions on such lists ([Module Py]).
    - A Python list of dicts that the code mutates in place (the passages
      with their ['used'] flag) is a store [list full_text]; a reference to
      one of its dicts is its index in the store.
    - The float scores of v8 and v10, and the float product v7 truncates
      to an int, are computed as Python computes them, in binary64 (Rocq's
      primitive floats, with the same rounding).  A score enters the
      candidate loop as the rational it denotes ([Q_of_float]): finite
      floats compare as their values do, and no infinity or NaN arises,
      every division being by a positive length.  The lemmas on candidate
      selection are stated for every scoring function.  The confidence of
      parse_summaries_to_content is a sum of products of a similarity that
      is a parameter: there a binary64 number is the rational it denotes,
      and every product and sum of the code is the exact one followed by
      the rounding to binary64 ([round64], to nearest, ties to even), which
      keeps the order, so that the range of the confidence can be
      proved.
    - A Python [set] of strings is iterated in an order that depends on the
      per-process hash seed: a set is a duplicate-free list together with
      the enumeration order, which is a parameter. *)

From Stdlib Require Import QArith Qpower Qround Lqa Lia DecimalString.
From Stdlib Require Import Permutation DecimalPos DecimalN.
From Stdlib Require Import Floats Uint63.
From stdpp Require Import base list gmap strings numbers sorting.

Set Warnings "-inexact-float".

(** ** Python strings and the regular expressions used by the scripts *)

Module Py.

Definition char := N.
Definition str := list char.

(** UTF-8 decoding of a literal of this file into code points. *)
Fixpoint utf8 (pending : nat) (acc : N) (bs : list N) : str :=
  match bs with
  | [] => []
  | b :: bs' =>
    match pending with
    | O =>
      if (b <? 128)%N then b :: utf8 0 0%N bs'
      else if (b <? 224)%N then utf8 1 (b - 192)%N bs'
      else if (b <? 240)%N then utf8 2 (b - 224)%N bs'
      else utf8 3 (b - 240)%N bs'
    | S O => (acc * 64 + (b - 128))%N :: utf8 0 0%N bs'
    | S p => utf8 p (acc * 64 + (b - 128))%N bs'
    end
  end.

(** Literals: the text of the source, with a backquote standing for the
    double quote (no template of the scripts contains a backquote). *)
Definition lit (s : string) : str :=
  map (fun c => if (c =? 96)%N then 34%N else c)
      (utf8 0 0%N (map Ascii.N_of_ascii (String.list_ascii_of_string s))).

(** [str(n)] and [f'{n}'] for a non-negative integer. *)
Definition str_of_int (n : N) : str :=
  lit (NilEmpty.string_of_uint (N.to_uint n)).

(** [Py_UNICODE_ISSPACE]: what [str.strip()] removes and what [\s] matches
    in a [str] pattern. *)
Definition isspace (c : char) : bool :=
  ((9 <=? c) && (c <=? 13) || (28 <=? c) && (c <=? 32) || (c =? 133)
   || (c =? 160) || (c =? 5760) || (8192 <=? c) && (c <=? 8202)
   || (c =? 8232) || (c =? 8233) || (c =? 8239) || (c =? 8287)
   || (c =? 12288))%N.

(** The class [[א-ת]], U+05D0 to U+05EA. *)
Definition is_hebrew (c : char) : bool := ((1488 <=? c) && (c <=? 1514))%N.

Fixpoint lstrip (s : str) : str :=
  match s with
  | c :: s' => if isspace c then lstrip s' else s
  | [] => []
  end.

Fixpoint rstrip (s : str) : str :=
  match s with
  | [] => []
  | c :: s' =>
    match rstrip s' with
    | [] => if isspace c then [] else [c]
    | r => c :: r
    end
  end.

(** [s.strip()] *)
Definition strip (s : str) : str := rstrip (lstrip s).

(** A string that does not start with whitespace. *)
Definition starts_clean (s : str) : Prop :=
  match s with
  | c :: _ => isspace c = false
  | [] => True
  end.

Fixpoint startswith (p s : str) : bool :=
  match p, s with
  | [], _ => true
  | a :: p', b :: s' => (a =? b)%N && startswith p' s'
  | _ :: _, [] => false
  end.

(** [needle in hay] *)
Fixpoint contains (needle hay : str) : bool :=
  startswith needle hay
  || match hay with
     | [] => false
     | _ :: hay' => contains needle hay'
     end.

(** [re.sub(r'a1|a2|...', '', s)] for non-empty literal alternatives: at
    each position the first alternative that matches is removed; [skip]
    counts the characters of a match still to drop. *)
Fixpoint remove_literals (alts : list str) (skip : nat) (s : str) : str :=
  match s with
  | [] => []
  | c :: s' =>
    match skip with
    | S k => remove_literals alts k s'
    | O =>
      match List.find (fun a => startswith a s) alts with
      | Some a => remove_literals alts (length a - 1) s'
      | None => c :: remove_literals alts 0 s'
      end
    end
  end.

(** [re.sub(r'[class]', '', s)] *)
Definition remove_class (cls : char -> bool) (s : str) : str :=
  List.filter (fun c => negb (cls c)) s.

(** [re.sub(r'[class]', ' ', s)] *)
Definition blank_class (cls : char -> bool) (s : str) : str :=
  map (fun c => if cls c then 32%N else c) s.

(** No two adjacent characters of [s] are whitespace. *)
Definition no_adjacent_ws (s : str) : Prop :=
  Forall (fun '(c, d) => isspace c && isspace d = false) (zip s (tail s)).

(** Every whitespace character of [s] is a space that follows no
    whitespace; [prev_ws] says that whitespace precedes [s]. *)
Fixpoint single_spaced (prev_ws : bool) (s : str) : bool :=
  match s with
  | [] => true
  | c :: s' =>
    if isspace c
    then negb prev_ws && (c =? 32)%N && single_spaced true s'
    else single_spaced false s'
  end.

(** [re.sub(r'\s+', ' ', s)]: every maximal run of whitespace becomes one
    space.  [in_run] says that the previous character was whitespace. *)
Fixpoint sub_ws_from (in_run : bool) (s : str) : str :=
  match s with
  | [] => []
  | c :: s' =>
    if isspace c
    then if in_run then sub_ws_from true s' else 32%N :: sub_ws_from true s'
    else c :: sub_ws_from false s'
  end.

Definition sub_ws (s : str) : str := sub_ws_from false s.

(** The maximal runs of characters of a class, in order; [cur] is the run
    being read, reversed. *)
Fixpoint runs_from (cls : char -> bool) (cur : str) (s : str) : list str :=
  match s with
  | [] => [rev cur]
  | c :: s' =>
    if cls c then runs_from cls (c :: cur) s'
    else rev cur :: runs_from cls [] s'
  end.

(** [re.findall(r'[class]{k,}', s)] for [k >= 1]: the greedy match takes a
    whole maximal run, and a run shorter than [k] gives no match. *)
Definition findall_runs (cls : char -> bool) (k : nat) (s : str) : list str :=
  List.filter (fun w => (k <=? length w)%nat) (runs_from cls [] s).

(** [re.sub(r'<[^>]+>', '', s)].  [pending] holds, reversed, the text read
    since a [<] that may still open a tag; [<] directly followed by [>] opens
    none, and a [<] with no later [>] is kept with the text after it. *)
Fixpoint strip_tags_from (pending : option str) (s : str) : str :=
  match s with
  | [] => match pending with Some p => rev p | None => [] end
  | c :: s' =>
    match pending with
    | None =>
      if (c =? 60)%N then
        match s' with
        | d :: _ =>
          if (d =? 62)%N then c :: strip_tags_from None s'
          else strip_tags_from (Some [c]) s'
        | [] => [c]
        end
      else c :: strip_tags_from None s'
    | Some p =>
      if (c =? 62)%N then strip_tags_from None s'
      else strip_tags_from (Some (c :: p)) s'
    end
  end.

Definition strip_tags (s : str) : str := strip_tags_from None s.

(** [re.sub(r'\n{3,}', '\n\n', s)]; [run] counts the newlines just read. *)
Fixpoint squeeze_newlines_from (run : nat) (s : str) : str :=
  match s with
  | [] => []
  | c :: s' =>
    if (c =? 10)%N then
      if (run <? 2)%nat then c :: squeeze_newlines_from (S run) s'
      else squeeze_newlines_from (S run) s'
    else c :: squeeze_newlines_from 0 s'
  end.

Definition squeeze_newlines (s : str) : str := squeeze_newlines_from 0 s.

(** [sum(1 for w in ws if w in text)] *)
Definition count_in (ws : list str) (text : str) : nat :=
  length (List.filter (fun w => contains w text) ws).

(** The float of a length or count, exact below 2^53 ([a / b] on two such
    ints is the correctly rounded quotient, that of their floats). *)
Definition float_of_nat (n : nat) : float :=
  PrimFloat.of_uint63 (Uint63.of_Z (Z.of_nat n)).

(** [int(x)] on a finite float: truncation towards zero. *)
Definition int_of_float (x : float) : Z :=
  match Prim2SF x with
  | S754_finite s m e =>
    let a := if (0 <=? e)%Z then Z.shiftl (Z.pos m) e
             else Z.shiftr (Z.pos m) (- e) in
    if s then (- a)%Z else a
  | _ => 0%Z
  end.

(** The rational a finite float denotes, in lowest terms. *)
Definition Q_of_float (x : float) : Q :=
  match Prim2SF x with
  | S754_finite s m e =>
    let v := if (0 <=? e)%Z then inject_Z (Z.shiftl (Z.pos m) e)
             else Z.pos m # Z.to_pos (Z.shiftl 1 (- e)) in
    Qred (if s then Qopp v else v)
  | _ => 0
  end.

(** [x > y] and [x >= y] on scores. *)
(** Binary64 arithmetic on the rationals that the numbers denote.  The
    exponent of a positive rational is the [k] with [2^k <= a < 2^(k+1)]. *)
Definition exponent (a : Q) : Z :=
  let k := (Z.log2 (Qnum a) - Z.log2 (Z.pos (Qden a)))%Z in
  if Qle_bool (2 ^ k) a then k else (k - 1)%Z.

(** The nearest integer, the even one of two that are equally near. *)
Definition round_half_even (x : Q) : Z :=
  let f := Qfloor x in
  match (x - inject_Z f ?= 1 # 2)%Q with
  | Lt => f
  | Gt => (f + 1)%Z
  | Eq => if Z.even f then f else (f + 1)%Z
  end.

(** The binary64 number nearest to a positive rational: 53 significant
    bits, and no exponent below that of the subnormal numbers. *)
Definition round_pos (a : Q) : Q :=
  let e := Z.max (exponent a - 52) (-1074) in
  (inject_Z (round_half_even (a / 2 ^ e)) * 2 ^ e)%Q.

(** The rounding of IEEE 754 to binary64, to nearest, ties to even, for a
    rational below the overflow threshold (the numbers of the code that
    uses it stay below 2). *)
Definition round64 (q : Q) : Q :=
  match (q ?= 0)%Q with
  | Eq => 0
  | Gt => Qred (round_pos q)
  | Lt => Qred (- round_pos (- q))
  end.

(** [x + y] and [x * y] on floats, and a float literal of the source. *)
Definition fadd (x y : Q) : Q := round64 (x + y).
Definition fmul (x y : Q) : Q := round64 (x * y).
Definition float_lit (q : Q) : Q := round64 q.

Definition Qgtb (x y : Q) : bool := negb (Qle_bool x y).
Definition Qgeb (x y : Q) : bool := Qle_bool y x.

(** The longest prefix of [s] without the character [stop]. *)
Fixpoint run_without (stop : char) (s : str) : str :=
  match s with
  | [] => []
  | c :: s' => if (c =? stop)%N then [] else c :: run_without stop s'
  end.

(** [re.sub(pattern, r'\1', s)] for the pattern of [clean_text] that is
    [<b>], a group of any number of characters other than [<], and [</b>],
    and the same for another tag: where [opening] is followed by text
    without [<] and then by [closing], the text stays and the two tags go.
    The text between the tags cannot be shortened to find [closing], which
    starts with [<].  [skip] counts the characters of a match still to
    drop. *)
Fixpoint unwrap_tag (opening closing : str) (skip : nat) (s : str) : str :=
  match s with
  | [] => []
  | c :: s' =>
    match skip with
    | S k => unwrap_tag opening closing k s'
    | O =>
      let inner := run_without 60%N (drop (length opening) s) in
      if startswith opening s
         && startswith closing (drop (length opening + length inner) s)
      then inner ++ unwrap_tag opening closing
                      (length opening + length inner + length closing - 1) s'
      else c :: unwrap_tag opening closing 0 s'
    end
  end.

(** [re.match(r'<[^>]+>', s) is not None]: a tag starts [s], that is [<],
    a character other than [>], and a [>] further on. *)
Definition opens_tag (s : str) : bool :=
  match s with
  | c :: d :: r =>
    (c =? 60)%N && negb (d =? 62)%N && existsb (fun e => (e =? 62)%N) r
  | _ => false
  end.

(** [re.search(r'<[^>]+>', s) is not None] *)
Fixpoint has_tag (s : str) : bool :=
  opens_tag s
  || match s with
     | [] => false
     | _ :: s' => has_tag s'
     end.

(** No three newlines in a row in [s], [run] newlines preceding it. *)
Fixpoint short_runs (run : nat) (s : str) : bool :=
  match s with
  | [] => true
  | c :: s' =>
    if (c =? 10)%N then (run <? 2)%nat && short_runs (S run) s'
    else short_runs 0 s'
  end.

(** The characters of [s] other than [>]. *)
Definition no_gt (s : str) : Prop := Forall (fun c => (c =? 62)%N = false) s.

(** [s.split('\n')] for [sep] the newline: the pieces between the
    separators, empty ones included; [cur] is the piece being read,
    reversed. *)
Fixpoint split_from (sep : char) (cur : str) (s : str) : list str :=
  match s with
  | [] => [rev cur]
  | c :: s' =>
    if (c =? sep)%N then rev cur :: split_from sep [] s'
    else split_from sep (c :: cur) s'
  end.

Definition split (sep : char) (s : str) : list str := split_from sep [] s.

(** [sep.join(parts)] *)
Fixpoint join (sep : str) (parts : list str) : str :=
  match parts with
  | [] => []
  | [p] => p
  | p :: rest => p ++ sep ++ join sep rest
  end.

(** The longest prefix of [s] made of characters of a class. *)
Fixpoint run_of (cls : char -> bool) (s : str) : str :=
  match s with
  | [] => []
  | c :: s' => if cls c then c :: run_of cls s' else []
  end.

(** The patterns of the extraction functions are sequences of literals
    and of greedy repetitions of a character class, some of them groups,
    in which every repetition is followed by a literal whose first
    character is outside the class.  Giving back characters of a
    repetition then never lets the literal match, so a match takes each
    repetition whole. *)
Inductive token :=
| Lit (s : str)
| Run (cls : char -> bool) (min : nat)
| Group (cls : char -> bool) (min : nat).

(** [pattern.match(s)]: the groups, and what follows the match. *)
Fixpoint match_tokens (tokens : list token) (s : str)
  : option (list str * str) :=
  match tokens with
  | [] => Some ([], s)
  | Lit l :: tokens' =>
    if startswith l s then match_tokens tokens' (drop (length l) s) else None
  | Run cls min :: tokens' =>
    let r := run_of cls s in
    if (min <=? length r)%nat then match_tokens tokens' (drop (length r) s)
    else None
  | Group cls min :: tokens' =>
    let r := run_of cls s in
    if (min <=? length r)%nat then
      match match_tokens tokens' (drop (length r) s) with
      | Some (groups, rest) => Some (r :: groups, rest)
      | None => None
      end
    else None
  end.

(** [pattern.search(s)]: the start of the leftmost match counted from
    [start], its groups, and what follows it. *)
Fixpoint search (tokens : list token) (start : nat) (s : str)
  : option (nat * list str * str) :=
  match match_tokens tokens s with
  | Some (groups, rest) => Some (start, groups, rest)
  | None =>
    match s with
    | [] => None
    | _ :: s' => search tokens (S start) s'
    end
  end.

(** [c.lower()] for an ASCII letter. *)
Definition ascii_lower (c : char) : char :=
  if ((65 <=? c) && (c <=? 90))%N then (c + 32)%N else c.

(** [needle in s.lower()] for the needle [<header>] of
    [extract_all_full_texts]: [str.lower] maps the ASCII capitals to their
    small letters, and the lower case of no other character holds a
    character of that needle. *)
Definition lower_contains (needle s : str) : bool :=
  contains needle (map ascii_lower s).

(** The first position of [needle] in [s], with what follows the
    occurrence. *)
Fixpoint find_literal (needle : str) (s : str) : option str :=
  if startswith needle s then Some (drop (length needle) s)
  else match s with
       | [] => None
       | _ :: s' => find_literal needle s'
       end.

(** The text before the first occurrence of [needle] in [s]. *)
Fixpoint before_literal (needle : str) (s : str) : option str :=
  if startswith needle s then Some []
  else match s with
       | [] => None
       | c :: s' =>
         match before_literal needle s' with
         | Some b => Some (c :: b)
         | None => None
         end
       end.

(** The classes and least lengths of the groups of a pattern. *)
Fixpoint group_specs (tokens : list token) : list ((char -> bool) * nat) :=
  match tokens with
  | [] => []
  | Group cls min :: tokens' => (cls, min) :: group_specs tokens'
  | _ :: tokens' => group_specs tokens'
  end.

Definition group_ok (spec : (char -> bool) * nat) (g : str) : Prop :=
  (spec.2 <= length g)%nat /\ Forall (fun c => spec.1 c = true) g.

(** [l] differs from [x] at a position both have. *)
Fixpoint mismatch (l x : str) : bool :=
  match l, x with
  | a :: l', b :: x' => negb (a =? b)%N || mismatch l' x'
  | _, _ => false
  end.

(** No occurrence of [l] starts inside [c], whatever follows [c]. *)
Fixpoint blocked (l c : str) : bool :=
  match c with
  | [] => true
  | _ :: c' => mismatch l c && blocked l c'
  end.

(** A repetition of the class ends before [x]. *)
Definition stops (cls : char -> bool) (x : str) : Prop :=
  match x with
  | [] => True
  | c :: _ => cls c = false
  end.

(** The code points of the digits of a decimal number. *)
Fixpoint digits (d : Decimal.uint) : str :=
  match d with
  | Decimal.Nil => []
  | Decimal.D0 d => 48%N :: digits d
  | Decimal.D1 d => 49%N :: digits d
  | Decimal.D2 d => 50%N :: digits d
  | Decimal.D3 d => 51%N :: digits d
  | Decimal.D4 d => 52%N :: digits d
  | Decimal.D5 d => 53%N :: digits d
  | Decimal.D6 d => 54%N :: digits d
  | Decimal.D7 d => 55%N :: digits d
  | Decimal.D8 d => 56%N :: digits d
  | Decimal.D9 d => 57%N :: digits d
  end.

(** An ASCII digit. *)
Definition is_digit (c : char) : Prop := (48 <= c <= 57)%N.

End Py.

(** ** The candidate loop

    [find_best_match] (v10), [match_summary_to_fulltext] (v7) and the inner
    loop of [match_summaries_to_full_texts] (v8) are the same loop:
<<
    best_match = None; best_score = 0; best_idx = -1
    for idx, ft in enumerate(full_texts):
        if <ft is used>: continue
        score = ...
        if score > best_score:
            best_score = score; best_match = ft; best_idx = idx
>>
    [skip] is the guard of the [continue] and [sc] the score of a passage.
    The state is [best_idx] ([None] for -1; [best_match] is the passage at
    that index) and [best_score]. *)

Section CandidateLoop.
Context {A : Type}.
Variable skip : nat -> A -> bool.
Variable sc : A -> Q.

Fixpoint scan (l : list A) (idx : nat) (best_idx : option nat) (best_score : Q)
  : option nat * Q :=
  match l with
  | [] => (best_idx, best_score)
  | ft :: l' =>
    if skip idx ft then scan l' (S idx) best_idx best_score
    else if Py.Qgtb (sc ft) best_score
         then scan l' (S idx) (Some idx) (sc ft)
         else scan l' (S idx) best_idx best_score
  end.

(** [if best_match and best_score >= threshold: return ...; return None] *)
Definition accept (threshold : Q) (r : option nat * Q) : option (nat * Q) :=
  match r with
  | (Some idx, best_score) =>
    if Py.Qgeb best_score threshold then Some (idx, best_score) else None
  | (None, _) => None
  end.

Definition best_above (threshold : Q) (l : list A) : option (nat * Q) :=
  accept threshold (scan l 0 None 0).

(** What the loop is meant to find.  A candidate is a passage the loop
    scores; the choice is the first candidate whose score no candidate
    exceeds. *)
Definition candidate (l : list A) (idx : nat) (ft : A) : Prop :=
  l !! idx = Some ft /\ skip idx ft = false.

Definition first_best (l : list A) (idx : nat) (v : Q) : Prop :=
  exists ft,
    candidate l idx ft /\ sc ft = v
    /\ (forall j ft', candidate l j ft' -> (sc ft' <= v)%Q)
    /\ (forall j ft', candidate l j ft' -> (j < idx)%nat -> (sc ft' < v)%Q).

(** The invariant of the loop, [pre] being the passages already read. *)
Definition scan_inv (pre : list A) (best_idx : option nat) (best_score : Q)
  : Prop :=
  match best_idx with
  | None =>
    best_score = 0%Q /\ forall j ft, candidate pre j ft -> (sc ft <= 0)%Q
  | Some idx => (0 < best_score)%Q /\ first_best pre idx best_score
  end.

End CandidateLoop.

(** ** parse_beshalach_v10.py *)

Module V10.
Import Py.

(** The dict built for a summary entry ([extract_summaries_from_v2]);
    [keywords] enumerates the set [get_hebrew_words(summary)]. *)
Record summary := Summary {
  s_id : N;
  s_sefer : str;
  s_verse : str;
  s_summary : str;
  s_page : str;
  s_keywords : list str
}.

(** The dict built for a passage ([extract_all_full_texts]). *)
Record full_text := FullText {
  ft_sefer : str;
  ft_verse : str;
  ft_text : str;
  ft_text_clean : str;
  ft_keywords : list str;
  ft_used : bool
}.

(** An element of [matched].  ['full_text'] is a reference to a dict of
    [full_texts]: the index of that dict, or [None]. *)
Record match_result := MatchResult {
  mr_summary : summary;
  mr_full_text : option nat;
  mr_score : Q
}.

(** [normalize_sefer(name)]: the honorifics and the ornament are removed,
    whitespace is collapsed. *)
Definition normalize_sefer (name : str) : str :=
  let name := strip name in
  let name :=
    remove_literals
      [ lit "הק'"; lit "הקדוש"; lit "ז`ל"; lit "זי`ע"; lit "זצ`ל"; [9884%N] ]
      0 name in
  strip (sub_ws name).

(** ['sefer'] of a summary entry: [normalize_sefer(current_sefer) if
    current_sefer else "Unknown"]. *)
Definition entry_sefer (current_sefer : option str) : str :=
  match current_sefer with
  | Some (c :: name) => normalize_sefer (c :: name)
  | _ => lit "Unknown"
  end.

Section HashOrder.
(** The order in which a set of strings built from a list is enumerated. *)
Variable order : list str -> list str.

(** [set(w for w in re.findall(r'[א-ת]{3,}', text) if len(w) >= 3)] *)
Definition get_hebrew_words (text : str) : list str :=
  order (remove_dups
           (List.filter (fun w => (3 <=? length w)%nat)
                        (findall_runs is_hebrew 3 text))).

(** The dict appended to [summaries], from [current_sefer] and the groups
    of [entry_pattern]. *)
Definition mk_summary (current_sefer : option str) (id : N)
    (verse summary_text page : str) : summary :=
  {| s_id := id; s_sefer := entry_sefer current_sefer; s_verse := verse;
     s_summary := summary_text; s_page := page;
     s_keywords := get_hebrew_words summary_text |}.

(** The dict appended to [full_texts] for the joined lines [text] of a
    passage found under the header [name]. *)
Definition mk_full_text (name verse text : str) : full_text :=
  let text_clean := strip_tags text in
  {| ft_sefer := normalize_sefer name; ft_verse := verse; ft_text := text;
     ft_text_clean := text_clean;
     ft_keywords := get_hebrew_words (take 800 text_clean);
     ft_used := false |}.

End HashOrder.

(** [re.sub(r'[\s\-]', '', verse)] *)
Definition verse_norm (verse : str) : str :=
  remove_class (fun c => isspace c || (c =? 45)%N) verse.

(** Verse matching - primary *)
Definition verse_points (s_verse ft_verse : str) : float :=
  let s_verse_norm := verse_norm s_verse in
  let ft_verse_norm := verse_norm ft_verse in
  if bool_decide (s_verse_norm = ft_verse_norm) then 100
  else if contains s_verse_norm ft_verse_norm then 80
  else if contains ft_verse_norm s_verse_norm then 70
  else if (3 <? length s_verse_norm)%nat && (3 <? length ft_verse_norm)%nat then
    if bool_decide (take 4 s_verse_norm = take 4 ft_verse_norm) then 50
    else if bool_decide (take 3 s_verse_norm = take 3 ft_verse_norm) then 30
    else 0
  else 0.

(** Content matching - check if summary words appear in full text *)
Definition add_content_points (score : float) (s_keywords : list str)
    (text_clean : str) : float :=
  match s_keywords with
  | [] => score
  | _ :: _ =>
    let ft_text_start := take 600 text_clean in
    let matches := count_in s_keywords ft_text_start in
    let content_score :=
      (float_of_nat matches / float_of_nat (length s_keywords) * 60)%float in
    (score + content_score)%float
  end.

(** Check for key phrases from summary in full text *)
Definition add_phrase_points (score : float) (s_summary text_clean : str)
  : float :=
  let key_phrases := take 10 (findall_runs is_hebrew 4 s_summary) in
  match key_phrases with
  | [] => score
  | _ :: _ =>
    let phrase_matches := count_in key_phrases (take 500 text_clean) in
    (score + float_of_nat phrase_matches / float_of_nat (length key_phrases)
             * 40)%float
  end.

(** The value of [score] at the end of the loop body, as a float. *)
Definition score_float (s : summary) (ft : full_text) : float :=
  let score := verse_points (s_verse s) (ft_verse ft) in
  let score := add_content_points score (s_keywords s) (ft_text_clean ft) in
  add_phrase_points score (s_summary s) (ft_text_clean ft).

Definition score (s : summary) (ft : full_text) : Q :=
  Q_of_float (score_float s ft).

(** [find_best_match(summary, full_texts)], for any scoring of a passage:
    [Some (idx, score)] for [(full_texts[idx], idx, score)] and [None] for
    [(None, -1, 0)]. *)
Definition find_best_match_by (sc : summary -> full_text -> Q)
    (s : summary) (full_texts : list full_text) : option (nat * Q) :=
  best_above (fun _ ft => ft_used ft) (sc s) 40 full_texts.

Definition find_best_match : summary -> list full_text -> option (nat * Q) :=
  find_best_match_by score.

(** [full_texts[idx]['used'] = True]; [idx] comes from [find_best_match]
    and is in range. *)
Definition mark_used (idx : nat) (full_texts : list full_text) : list full_text :=
  match full_texts !! idx with
  | Some ft =>
    <[idx := {| ft_sefer := ft_sefer ft; ft_verse := ft_verse ft;
                ft_text := ft_text ft; ft_text_clean := ft_text_clean ft;
                ft_keywords := ft_keywords ft; ft_used := true |}]> full_texts
  | None => full_texts
  end.

(** The body of the loop of [match_all]: the dict appended to [matched],
    and the store of passages as the iteration leaves it. *)
Definition match_one (sc : summary -> full_text -> Q) (s : summary)
    (full_texts : list full_text) : match_result * list full_text :=
  match find_best_match_by sc s full_texts with
  | Some (idx, score) =>
    ({| mr_summary := s; mr_full_text := Some idx; mr_score := score |},
     mark_used idx full_texts)
  | None =>
    ({| mr_summary := s; mr_full_text := None; mr_score := 0 |}, full_texts)
  end.

(** The loop of [match_all]; the state is the store and [matched]. *)
Fixpoint match_loop (sc : summary -> full_text -> Q) (summaries : list summary)
    (full_texts : list full_text) (matched : list match_result)
  : list match_result * list full_text :=
  match summaries with
  | [] => (matched, full_texts)
  | s :: rest =>
    let '(entry, full_texts) := match_one sc s full_texts in
    match_loop sc rest full_texts (matched ++ [entry])
  end.

(** [match_all(summaries, full_texts)]: the list it returns, and the store
    as it leaves it. *)
Definition match_all_by (sc : summary -> full_text -> Q)
    (summaries : list summary) (full_texts : list full_text)
  : list match_result * list full_text :=
  match_loop sc summaries full_texts [].

Definition match_all : list summary -> list full_text
                       -> list match_result * list full_text :=
  match_all_by score.

(** The two shapes of an element of [matched], read against the store
    [final] that [match_all] leaves: a consumed passage and a positive
    score, or no passage and score 0. *)
Definition result_shape (final : list full_text) (s : summary)
    (r : match_result) : Prop :=
  mr_summary r = s
  /\ ((exists idx ft,
         mr_full_text r = Some idx /\ final !! idx = Some ft
         /\ ft_used ft = true /\ (0 < mr_score r)%Q)
      \/ (mr_full_text r = None /\ mr_score r = 0%Q)).

Definition clean_html (text : str) : str :=
  strip (squeeze_newlines (strip_tags text)).

Definition html_head : str := lit "<!DOCTYPE html>
<html lang=`he` dir=`rtl`>
<head>
    <meta charset=`UTF-8`>
    <title>פרשת בשלח - ליקוטי ספרי חסידות</title>
    <style>
        @page { size: A4; margin: 2cm; }
        body {
            font-family: 'Frank Ruehl', 'David', 'Times New Roman', serif;
            font-size: 14pt;
            line-height: 1.8;
            direction: rtl;
            text-align: justify;
            max-width: 900px;
            margin: 0 auto;
            padding: 20px;
            background: #fff;
        }
        .summary-entry { display: flex; align-items: baseline; margin: 8px 0; gap: 10px; }
        .entry-id { font-weight: bold; min-width: 35px; }
        .entry-verse { font-weight: bold; color: #333; min-width: 80px; }
        .entry-summary { flex: 1; }
        .entry-page { font-weight: bold; min-width: 45px; text-align: left; }
        .divider { border-top: 2px solid #000; margin: 30px 0; }
        .source-header { text-align: center; font-weight: bold; font-size: 20pt; margin: 25px 0; }
        .sefer-header { text-align: center; font-weight: bold; font-size: 16pt; margin: 25px 0 15px 0; background: #f0f0f0; padding: 10px; border-radius: 4px; }
        .quote-entry { margin-bottom: 30px; padding: 20px; border: 1px solid #ccc; border-radius: 6px; background: #fafafa; }
        .quote-header { display: flex; gap: 20px; margin-bottom: 12px; font-weight: bold; font-size: 15pt; border-bottom: 2px solid #ddd; padding-bottom: 10px; }
        .quote-text { text-align: justify; line-height: 2; font-size: 14pt; }
        .no-match { color: #999; font-style: italic; }
        h1 { text-align: center; font-size: 24pt; margin-bottom: 5px; }
        h2 { text-align: center; font-size: 18pt; margin-top: 5px; color: #555; }
    </style>
</head>
<body>
    <h1>ליקוטי ספרי חסידות</h1>
    <h2>פרשת בשלח</h2>
    <div class=`divider`></div>
    <section>
        <div class=`source-header`>מפתח ענינים</div>
".

Definition sefer_header (sefer : str) : str :=
  lit "        <div class=`sefer-header`>" ++ sefer ++ lit "</div>
".

Definition summary_entry (s : summary) : str :=
  lit "        <div class=`summary-entry`>
            <span class=`entry-id`>[" ++ str_of_int (s_id s) ++ lit "]</span>
            <span class=`entry-verse`>" ++ s_verse s ++ lit "</span>
            <span class=`entry-summary`>" ++ s_summary s ++ lit "</span>
            <span class=`entry-page`>" ++ s_page s ++ lit "</span>
        </div>
".

Definition html_mid : str := lit "    </section>
    <div class=`divider`></div>
    <section>
        <div class=`source-header`>מקור השפע</div>
".

Definition no_match_text : str :=
  lit "<span class=`no-match`>[לא נמצא טקסט מתאים]</span>".

Definition html_marker : str := lit "

[...]".

(** The [text] of a quote entry (lines 298 to 303). *)
Definition quote_text (ft : option full_text) : str :=
  match ft with
  | Some ft =>
    let text := clean_html (ft_text ft) in
    if (3000 <? length text)%nat then take 3000 text ++ html_marker else text
  | None => no_match_text
  end.

Definition quote_entry (s : summary) (text : str) : str :=
  lit "        <div class=`quote-entry`>
            <div class=`quote-header`>
                <span>[" ++ str_of_int (s_id s) ++ lit "]</span>
                <span>" ++ s_verse s ++ lit "</span>
                <span>עמ' " ++ s_page s ++ lit "</span>
            </div>
            <div class=`quote-text`>" ++ text ++ lit "</div>
        </div>
".

Definition html_tail : str := lit "    </section>
</body>
</html>".

(** [if s['sefer'] != current_sefer: ...]: the header added to [html], if
    any; [current_sefer] is [s['sefer']] afterwards either way. *)
Definition sefer_change (current_sefer : option str) (s : summary) : str :=
  if bool_decide (Some (s_sefer s) = current_sefer) then []
  else sefer_header (s_sefer s).

(** The first loop of [generate_html]. *)
Fixpoint index_loop (html : str) (current_sefer : option str)
    (matched : list match_result) : str :=
  match matched with
  | [] => html
  | entry :: rest =>
    let s := mr_summary entry in
    let html := html ++ sefer_change current_sefer s in
    let html := html ++ summary_entry s in
    index_loop html (Some (s_sefer s)) rest
  end.

(** The dict a result refers to. *)
Definition deref (full_texts : list full_text) (entry : match_result)
  : option full_text :=
  match mr_full_text entry with
  | Some idx => full_texts !! idx
  | None => None
  end.

(** The second loop of [generate_html]. *)
Fixpoint quote_loop (full_texts : list full_text) (html : str)
    (current_sefer : option str) (matched : list match_result) : str :=
  match matched with
  | [] => html
  | entry :: rest =>
    let s := mr_summary entry in
    let ft := deref full_texts entry in
    let html := html ++ sefer_change current_sefer s in
    let text := quote_text ft in
    let html := html ++ quote_entry s text in
    quote_loop full_texts html (Some (s_sefer s)) rest
  end.

(** What the second loop appends for each entry: the sefer header, if the
    sefer changes, and the quote entry. *)
Fixpoint quote_blocks (full_texts : list full_text)
    (current_sefer : option str) (matched : list match_result) : list str :=
  match matched with
  | [] => []
  | entry :: rest =>
    let s := mr_summary entry in
    (sefer_change current_sefer s
     ++ quote_entry s (quote_text (deref full_texts entry)))
    :: quote_blocks full_texts (Some (s_sefer s)) rest
  end.

(** [generate_html(matched)]; [full_texts] is the store the results refer
    to. *)
Definition generate_html (full_texts : list full_text)
    (matched : list match_result) : str :=
  let html := html_head in
  let html := index_loop html None matched in
  let html := html ++ html_mid in
  let html := quote_loop full_texts html None matched in
  html ++ html_tail.

(** What [generate_word] adds to the document, formatting left out: a
    paragraph with its text, or a page break, which [add_page_break]
    appends as a paragraph of its own that holds the break. *)
Inductive docx_item :=
| Paragraph (text : str)
| PageBreak.

Definition word_marker : str := lit " [...]".

(** Lines 388 to 390. *)
Definition word_text (ft : full_text) : str :=
  let ft_text := clean_html (ft_text ft) in
  if (2500 <? length ft_text)%nat then take 2500 ft_text ++ word_marker
  else ft_text.

(** The loop of [generate_word] over [enumerate(matched)]; [n] is
    [len(matched)].  The state is the document and [count]. *)
Fixpoint word_loop (full_texts : list full_text) (n i : nat)
    (matched : list match_result) (doc : list docx_item) (count : nat)
  : list docx_item * nat :=
  match matched with
  | [] => (doc, count)
  | entry :: rest =>
    let s := mr_summary entry in
    match deref full_texts entry with
    | None => word_loop full_texts n (S i) rest doc count
    | Some ft =>
      let doc := doc ++
        [ Paragraph (lit "[" ++ str_of_int (s_id s) ++ lit "] " ++ s_verse s
                     ++ lit " (עמ' " ++ s_page s ++ lit ")");
          Paragraph (s_summary s);
          Paragraph (repeat 95%N 50);
          Paragraph (lit "מקור:");
          Paragraph (word_text ft) ] in
      let doc := if (Z.of_nat i <? Z.of_nat n - 1)%Z then doc ++ [PageBreak]
                 else doc in
      word_loop full_texts n (S i) rest doc (S count)
    end
  end.

(** [generate_word(matched, output)]: the document saved and the count
    returned. *)
Definition generate_word (full_texts : list full_text)
    (matched : list match_result) : list docx_item * nat :=
  word_loop full_texts (length matched) 0 matched
    [ Paragraph (lit "ליקוטי ספרי חסידות - פרשת בשלח"); Paragraph [] ] 0.

(** Two runs on the same input build the same dicts, except that the
    keyword sets may be enumerated in different orders. *)
Definition same_summary (s s' : summary) : Prop :=
  s_id s = s_id s' /\ s_sefer s = s_sefer s' /\ s_verse s = s_verse s'
  /\ s_summary s = s_summary s' /\ s_page s = s_page s'
  /\ s_keywords s ≡ₚ s_keywords s'.

Definition same_passage (ft ft' : full_text) : Prop :=
  ft_sefer ft = ft_sefer ft' /\ ft_verse ft = ft_verse ft'
  /\ ft_text ft = ft_text ft' /\ ft_text_clean ft = ft_text_clean ft'
  /\ ft_used ft = ft_used ft' /\ ft_keywords ft ≡ₚ ft_keywords ft'.

Definition same_result (r r' : match_result) : Prop :=
  same_summary (mr_summary r) (mr_summary r')
  /\ mr_full_text r = mr_full_text r' /\ mr_score r = mr_score r'.

(** What a result pairs: the id of the summary, the passage and the
    score. *)
Definition pairing (r : match_result) : N * option nat * Q :=
  (s_id (mr_summary r), mr_full_text r, mr_score r).

(** Extraction and matching as [main] chains them, from what the patterns
    captured: for a summary entry [current_sefer] and the groups id, verse,
    summary and page, for a passage the header name, the verse and the
    joined lines.  The result is [matched] and the store. *)
Definition extract_and_match (order : list str -> list str)
    (entries : list (option str * N * str * str * str))
    (passages : list (str * str * str))
  : list match_result * list full_text :=
  let summaries :=
    map (fun '(current_sefer, id, verse, summary_text, page) =>
           mk_summary order current_sefer id verse summary_text page)
        entries in
  let full_texts :=
    map (fun '(name, verse, text) => mk_full_text order name verse text)
        passages in
  match_all summaries full_texts.

(** [sum(1 for m in matched if m['full_text'])] of [main] *)
Definition matched_count (matched : list match_result) : nat :=
  length (List.filter (fun m => match mr_full_text m with
                                | Some _ => true
                                | None => false
                                end) matched).

(** A passage dict after [ft['used'] = True]. *)
Definition set_used (ft : full_text) : full_text :=
  {| ft_sefer := ft_sefer ft; ft_verse := ft_verse ft;
     ft_text := ft_text ft; ft_text_clean := ft_text_clean ft;
     ft_keywords := ft_keywords ft; ft_used := true |}.

(** [if not ft: continue] of [generate_word] does not skip the entry. *)
Definition has_passage (full_texts : list full_text) (entry : match_result)
  : bool :=
  match deref full_texts entry with
  | Some _ => true
  | None => false
  end.

Definition is_page_break (item : docx_item) : bool :=
  match item with
  | Paragraph _ => false
  | PageBreak => true
  end.

(** [re.search(r'<center>\s*<h1>\s*(?:<b>)?([^<]+)(?:</b>)?\s*</h1>', line)]
    is written out, since here giving back characters matters.  After the
    name, which ends before a [<], the match goes on with [</h1>], or with
    [</b>], whitespace and [</h1>]. *)
Definition h1_tail (v : str) : bool :=
  startswith (lit "</h1>") v
  || (startswith (lit "</b>") v
      && startswith (lit "</h1>") (lstrip (drop 4 v))).

(** A match that starts at the start of [s]: its group.  The whitespace
    after [<h1>] is all taken when a [<b>] or a character of the name
    follows it; the name is then the text up to the next [<].  When a [<]
    that does not open [<b>] follows, the whitespace gives back its last
    character, which is the name. *)
Definition h1_at (s : str) : option str :=
  if startswith (lit "<center>") s then
    let s1 := lstrip (drop 8 s) in
    if startswith (lit "<h1>") s1 then
      let t := drop 4 s1 in
      let u := lstrip t in
      if startswith (lit "<b>") u then
        let name := run_without 60%N (drop 3 u) in
        if (1 <=? length name)%nat && h1_tail (drop (3 + length name) u)
        then Some name else None
      else
        match run_without 60%N u with
        | c :: name =>
          if h1_tail (drop (length (c :: name)) u) then Some (c :: name)
          else None
        | [] =>
          match last (take (length t - length u) t) with
          | Some w => if h1_tail u then Some [w] else None
          | None => None
          end
        end
    else None
  else None.

(** The group of the leftmost match in [s]. *)
Fixpoint h1_search (s : str) : option str :=
  match h1_at s with
  | Some name => Some name
  | None =>
    match s with
    | [] => None
    | _ :: s' => h1_search s'
    end
  end.

(** [re.match(r'<b>([^<]+)</b>', line)]: the group. *)
Definition verse_pattern : list token :=
  [ Lit (lit "<b>"); Group (fun c => negb (c =? 60)%N) 1; Lit (lit "</b>") ].

Definition verse_match (line : str) : option str :=
  match match_tokens verse_pattern line with
  | Some (verse :: _, _) => Some verse
  | _ => None
  end.

(** [line.startswith('<b>') and '</b>' in line and '<center>' not in
    line] *)
Definition opens_passage (line : str) : bool :=
  startswith (lit "<b>") line && contains (lit "</b>") line
  && negb (contains (lit "<center>") line).

(** The inner loop of [extract_all_full_texts] on the lines from [j] on:
    [passage_lines], and the number of lines the loop passes before it
    ends. *)
Fixpoint collect (lines : list str) (passage_lines : list str)
  : list str * nat :=
  match lines with
  | [] => (passage_lines, 0%nat)
  | l :: rest =>
    let next_line := strip l in
    if contains (lit "<center><h1>") next_line then (passage_lines, 0%nat)
    else if opens_passage next_line
            && match verse_match next_line with
               | Some vm => (length vm <? 80)%nat
               | None => false
               end
    then (passage_lines, 0%nat)
    else
      let passage_lines :=
        if negb (bool_decide (next_line = []))
           && negb (contains (lit "<footer>") next_line)
           && negb (lower_contains (lit "<header>") next_line)
        then passage_lines ++ [next_line] else passage_lines in
      let '(passage_lines, n) := collect rest passage_lines in
      (passage_lines, S n)
  end.

Inductive exn := ZeroDivisionError.

Section Extraction.
(** The order in which a set of strings is enumerated, and the decimal
    digit a character stands for ([Py_UNICODE_TODECIMAL], by which [\d]
    matches and [int] reads). *)
Variable order : list str -> list str.
Variable todecimal : char -> option N.

(** [int(s)] for a string of decimal digits. *)
Definition int_of_digits (s : str) : N :=
  fold_left (fun n c => (n * 10 + default 0 (todecimal c))%N) s 0%N.

Definition sefer_pattern : list token :=
  [ Lit (lit "<div class=`sefer-header`>");
    Group (fun c => negb (c =? 60)%N) 1; Lit (lit "</div>") ].

Definition entry_pattern : list token :=
  [ Lit (lit "<div class=`summary-entry`>"); Run isspace 0;
    Lit (lit "<span class=`entry-id`>[");
    Group (fun c => bool_decide (is_Some (todecimal c))) 1;
    Lit (lit "]</span>"); Run isspace 0;
    Lit (lit "<span class=`entry-verse`>");
    Group (fun c => negb (c =? 60)%N) 1; Lit (lit "</span>"); Run isspace 0;
    Lit (lit "<span class=`entry-summary`>");
    Group (fun c => negb (c =? 60)%N) 1; Lit (lit "</span>"); Run isspace 0;
    Lit (lit "<span class=`entry-page`>");
    Group (fun c => negb (c =? 60)%N) 1; Lit (lit "</span>"); Run isspace 0;
    Lit (lit "</div>") ].

(** The loop of [extract_summaries_from_v2] over [section_html[pos:]].
    The loop moves [pos] to the end of a match: [skip] counts the
    characters still to pass to get there. *)
Fixpoint summaries_loop (section_html : str) (skip : nat)
    (current_sefer : option str) (summaries : list summary) : list summary :=
  match section_html with
  | [] => summaries
  | _ :: rest =>
    match skip with
    | S k => summaries_loop rest k current_sefer summaries
    | O =>
      let sefer_match := search sefer_pattern 0 section_html in
      let entry_match := search entry_pattern 0 section_html in
      let on_entry :=
        match entry_match with
        | Some (_, [id; verse; summary_text; page], after) =>
          summaries_loop rest (length section_html - length after - 1)
            current_sefer
            (summaries
             ++ [mk_summary order current_sefer (int_of_digits id) verse
                   summary_text page])
        | _ => summaries
        end in
      match sefer_match with
      | Some (sefer_start, name :: _, after) =>
        if match entry_match with
           | Some (entry_start, _, _) => (sefer_start <? entry_start)%nat
           | None => true
           end
        then summaries_loop rest (length section_html - length after - 1)
               (Some name) summaries
        else on_entry
      | _ => on_entry
      end
    end
  end.

(** [summary_section.group(1)]: the text between the header of the index
    and the next divider, the pattern being searched with [re.DOTALL]. *)
Definition summary_section (html : str) : option str :=
  match find_literal (lit "<div class=`source-header`>מפתח ענינים</div>") html with
  | Some after => before_literal (lit "<div class=`divider`>") after
  | None => None
  end.

(** [extract_summaries_from_v2], from the text of the file. *)
Definition extract_summaries_from_v2 (html : str) : list summary :=
  match summary_section html with
  | None => []
  | Some section_html => summaries_loop section_html 0 None []
  end.

(** The loop of [extract_all_full_texts] over [lines[i:]].  Where the
    loop sets [i = j], [skip] counts the lines still to pass. *)
Fixpoint full_texts_loop (lines : list str) (skip : nat)
    (current_sefer : option str) (full_texts : list full_text)
  : list full_text :=
  match lines with
  | [] => full_texts
  | l :: rest =>
    match skip with
    | S k => full_texts_loop rest k current_sefer full_texts
    | O =>
      let line := strip l in
      if contains (lit "<center><h1>") line then
        let current_sefer :=
          match h1_search line with
          | Some group =>
            let name := strip group in
            if negb (contains (lit "מפתח") name)
               && negb (contains (lit "ליקוטי") name)
            then Some (normalize_sefer name) else current_sefer
          | None => current_sefer
          end in
        full_texts_loop rest 0 current_sefer full_texts
      else
        match current_sefer with
        | Some (c :: sefer) =>
          if opens_passage line then
            match verse_match line with
            | Some group =>
              let verse := strip group in
              if (100 <? length verse)%nat
              then full_texts_loop rest 0 current_sefer full_texts
              else
                let '(passage_lines, n) := collect rest [line] in
                let text := join [10%N] passage_lines in
                let text_clean := strip_tags text in
                let full_texts :=
                  if (50 <? length text_clean)%nat
                  then full_texts
                       ++ [ {| ft_sefer := c :: sefer; ft_verse := verse;
                               ft_text := text; ft_text_clean := text_clean;
                               ft_keywords :=
                                 get_hebrew_words order (take 800 text_clean);
                               ft_used := false |} ]
                  else full_texts in
                full_texts_loop rest n current_sefer full_texts
            | None => full_texts_loop rest 0 current_sefer full_texts
            end
          else full_texts_loop rest 0 current_sefer full_texts
        | _ => full_texts_loop rest 0 current_sefer full_texts
        end
    end
  end.

(** [extract_all_full_texts(content)] *)
Definition extract_all_full_texts (content : str) : list full_text :=
  full_texts_loop (split 10%N content) 0 None [].

(** [main()], from the texts of the two files it reads: the page and the
    document it writes with the count it prints, or the exception it
    raises before it writes anything, when the percentage of matched
    summaries is a division by zero. *)
Definition main (html content : str)
  : exn + (str * (list docx_item * nat)) :=
  let summaries := extract_summaries_from_v2 html in
  let full_texts := extract_all_full_texts content in
  let '(matched, full_texts) := match_all summaries full_texts in
  match summaries with
  | [] => inl ZeroDivisionError
  | _ :: _ =>
    inr (generate_html full_texts matched, generate_word full_texts matched)
  end.

End Extraction.

(** What [extract_all_full_texts] builds a passage with. *)
Definition well_formed_passage (order : list str -> list str)
    (ft : full_text) : Prop :=
  ft_used ft = false
  /\ ft_sefer ft <> []
  /\ (exists name, ft_sefer ft = normalize_sefer name)
  /\ (length (ft_verse ft) <= 100)%nat
  /\ Forall (fun c => c <> 60%N) (ft_verse ft)
  /\ strip (ft_verse ft) = ft_verse ft
  /\ startswith (lit "<b>") (ft_text ft) = true
  /\ ft_text_clean ft = strip_tags (ft_text ft)
  /\ (50 < length (ft_text_clean ft))%nat
  /\ ft_keywords ft = get_hebrew_words order (take 800 (ft_text_clean ft)).

(** What [extract_summaries_from_v2] builds a summary with. *)
Definition well_formed_summary (order : list str -> list str)
    (s : summary) : Prop :=
  (s_sefer s = lit "Unknown"
   \/ exists name, name <> [] /\ Forall (fun c => c <> 60%N) name
                   /\ s_sefer s = normalize_sefer name)
  /\ s_verse s <> [] /\ Forall (fun c => c <> 60%N) (s_verse s)
  /\ s_summary s <> [] /\ Forall (fun c => c <> 60%N) (s_summary s)
  /\ s_page s <> [] /\ Forall (fun c => c <> 60%N) (s_page s)
  /\ s_keywords s = get_hebrew_words order (s_summary s).

(** A summary whose fields can be written into the index of the page and
    read back: none is empty, none holds a [<]. *)
Definition printable (s : summary) : Prop :=
  (s_sefer s <> [] /\ Forall (fun c => c <> 60%N) (s_sefer s))
  /\ (s_verse s <> [] /\ Forall (fun c => c <> 60%N) (s_verse s))
  /\ (s_summary s <> [] /\ Forall (fun c => c <> 60%N) (s_summary s))
  /\ (s_page s <> [] /\ Forall (fun c => c <> 60%N) (s_page s)).

(** What the loop of [extract_summaries_from_v2] builds from an entry of
    the index that [generate_html] wrote for the summary [s]. *)
Definition reread (order : list str -> list str) (s : summary) : summary :=
  mk_summary order (Some (s_sefer s)) (s_id s) (s_verse s) (s_summary s)
    (s_page s).

End V10.

(** ** parse_beshalach_v7.py *)

Module V7.
Import Py.

(** ['sefer'] is [current_sefer], which is [None] for an entry that
    precedes every sefer header. *)
Record summary := Summary {
  s_id : N;
  s_sefer : option str;
  s_verse : str;
  s_summary : str;
  s_page : str
}.

Record full_text := FullText {
  ft_sefer : str;
  ft_verse : str;
  ft_text : str
}.

(** The class of [normalize]: whitespace, the two ASCII quotes, the hyphen,
    maqaf, en and em dash, geresh and gershayim. *)
Definition normalize_class (c : char) : bool :=
  isspace c
  || ((c =? 34) || (c =? 39) || (c =? 45) || (c =? 1470) || (c =? 8211)
      || (c =? 8212) || (c =? 1523) || (c =? 1524))%N.

Definition normalize (text : str) : str :=
  strip (remove_class normalize_class text).

(** The number of leading characters two strings share. *)
Fixpoint common_prefix (verse ft_verse : str) : nat :=
  match verse, ft_verse with
  | c1 :: verse', c2 :: ft_verse' =>
    if (c1 =? c2)%N then S (common_prefix verse' ft_verse') else 0
  | _, _ => 0
  end.

(** Sefer matching (bonus, not required) *)
Definition sefer_points (sefer ft_sefer : str) : Z :=
  if bool_decide (sefer = ft_sefer) then 30
  else if (4 <? length sefer)%nat && (4 <? length ft_sefer)%nat then
    if contains sefer ft_sefer || contains ft_sefer sefer then 20
    else if bool_decide (take 4 sefer = take 4 ft_sefer) then 15
    else 0
  else 0.

(** Verse matching (primary) *)
Definition verse_points (verse ft_verse : str) : Z :=
  if bool_decide (verse = ft_verse) then 100
  else if (2 <? length verse)%nat && (2 <? length ft_verse)%nat then
    if contains verse ft_verse then 80
    else if contains ft_verse verse then 70
    else
      let common := common_prefix verse ft_verse in
      if (2 <=? common)%nat then 30 + Z.of_nat common * 10 else 0
  else 0.

(** Content matching.  The set [summary_words] is only counted, so it is
    the list of its distinct words.  The ratio and its product are floats,
    and [int] truncates the rounded product. *)
Definition content_points (summary_text ft_text : str) : Z :=
  let summary_words := remove_dups (findall_runs is_hebrew 1 summary_text) in
  if (3 <? length summary_words)%nat then
    let matches := count_in summary_words ft_text in
    let content_ratio :=
      (float_of_nat matches / float_of_nat (length summary_words))%float in
    if (0.3 <? content_ratio)%float
    then int_of_float (content_ratio * 50)%float
    else 0
  else 0.

(** The value of [score] at the end of the loop body, for a summary whose
    ['sefer'] is the string [sefer_name]. *)
Definition score (sefer_name : str) (s : summary) (ft : full_text) : Z :=
  let sefer := normalize sefer_name in
  let verse := normalize (s_verse s) in
  let summary_text := normalize (s_summary s) in
  let ft_sefer := normalize (ft_sefer ft) in
  let ft_verse := normalize (ft_verse ft) in
  let ft_text := normalize (take 500 (ft_text ft)) in
  (0 + sefer_points sefer ft_sefer + verse_points verse ft_verse
   + content_points summary_text ft_text)%Z.

Inductive exn := TypeError.

(** [match_summary_to_fulltext(summary, full_texts, used_indices)] for any
    scoring: it raises when ['sefer'] is [None] ([re.sub] on [None]), and
    otherwise returns the index of [best_match], or [None], with
    [used_indices] as it leaves it. *)
Definition match_summary_to_fulltext_by
    (sc : str -> summary -> full_text -> Q)
    (s : summary) (full_texts : list full_text) (used_indices : gset nat)
  : exn + (option nat * gset nat) :=
  match s_sefer s with
  | None => inl TypeError
  | Some sefer_name =>
    match best_above (fun idx _ => bool_decide (idx ∈ used_indices))
                     (sc sefer_name s) 50 full_texts with
    | Some (best_idx, _) => inr (Some best_idx, {[best_idx]} ∪ used_indices)
    | None => inr (None, used_indices)
    end
  end.

Definition match_summary_to_fulltext :=
  match_summary_to_fulltext_by (fun sefer s ft => inject_Z (score sefer s ft)).

(** [clean_text(text)] *)
Definition clean_text (text : str) : str :=
  let text := unwrap_tag (lit "<b>") (lit "</b>") 0 text in
  let text := unwrap_tag (lit "<u>") (lit "</u>") 0 text in
  let text := strip_tags text in
  let text := squeeze_newlines text in
  strip text.

Definition html_head : str := lit "<!DOCTYPE html>
<html lang=`he` dir=`rtl`>
<head>
    <meta charset=`UTF-8`>
    <title>פרשת בשלח - ליקוטי ספרי חסידות</title>
    <style>
        @page { size: A4; margin: 2cm; }
        body {
            font-family: 'Frank Ruehl', 'David', 'Times New Roman', serif;
            font-size: 14pt;
            line-height: 1.8;
            direction: rtl;
            text-align: justify;
            max-width: 900px;
            margin: 0 auto;
            padding: 20px;
            background: #fff;
        }
        .summary-entry {
            display: flex;
            align-items: baseline;
            margin: 8px 0;
            gap: 10px;
        }
        .entry-id { font-weight: bold; min-width: 35px; }
        .entry-verse { font-weight: bold; color: #333; min-width: 80px; }
        .entry-summary { flex: 1; }
        .entry-page { font-weight: bold; min-width: 45px; text-align: left; }
        .divider { border-top: 2px solid #000; margin: 30px 0; }
        .source-header {
            text-align: center;
            font-weight: bold;
            font-size: 20pt;
            margin: 25px 0;
            color: #222;
        }
        .sefer-header {
            text-align: center;
            font-weight: bold;
            font-size: 16pt;
            margin: 25px 0 15px 0;
            background: #f0f0f0;
            padding: 10px;
            border-radius: 4px;
        }
        .quote-entry {
            margin-bottom: 30px;
            padding: 20px;
            border: 1px solid #ccc;
            border-radius: 6px;
            background: #fafafa;
        }
        .quote-header {
            display: flex;
            gap: 20px;
            margin-bottom: 12px;
            font-weight: bold;
            font-size: 15pt;
            border-bottom: 2px solid #ddd;
            padding-bottom: 10px;
            color: #444;
        }
        .quote-text { 
            text-align: justify; 
            line-height: 2;
            font-size: 14pt;
        }
        .no-match {
            color: #666;
            font-style: italic;
            background: #fff8e1;
            padding: 10px;
            border-radius: 4px;
        }
        h1 { text-align: center; font-size: 24pt; margin-bottom: 5px; }
        h2 { text-align: center; font-size: 18pt; margin-top: 5px; color: #555; }
    </style>
</head>
<body>
    <h1>ליקוטי ספרי חסידות</h1>
    <h2>פרשת בשלח</h2>
    <div class=`divider`></div>
    
    <section>
        <div class=`source-header`>מפתח ענינים</div>
".

(** [f'{current_sefer}']: the text of a sefer, and [None] as Python prints
    it. *)
Definition format_sefer (current_sefer : option str) : str :=
  match current_sefer with
  | Some sefer => sefer
  | None => lit "None"
  end.

Definition sefer_header (current_sefer : option str) : str :=
  lit "        <div class=`sefer-header`>" ++ format_sefer current_sefer ++ lit "</div>
".

Definition summary_entry (s : summary) : str :=
  lit "        <div class=`summary-entry`>
            <span class=`entry-id`>[" ++ str_of_int (s_id s) ++ lit "]</span>
            <span class=`entry-verse`>" ++ s_verse s ++ lit "</span>
            <span class=`entry-summary`>" ++ s_summary s ++ lit "</span>
            <span class=`entry-page`>" ++ s_page s ++ lit "</span>
        </div>
".

Definition html_mid : str := lit "    </section>
    <div class=`divider`></div>
    
    <section>
        <div class=`source-header`>מקור השפע</div>
".

(** Fallback: use summary as placeholder *)
Definition no_match_text (s : summary) : str :=
  lit "<div class=`no-match`>" ++ s_summary s ++ lit "</div>".

Definition quote_entry (s : summary) (text : str) : str :=
  lit "        <div class=`quote-entry`>
            <div class=`quote-header`>
                <span>[" ++ str_of_int (s_id s) ++ lit "]</span>
                <span>" ++ s_verse s ++ lit "</span>
                <span>עמ' " ++ s_page s ++ lit "</span>
            </div>
            <div class=`quote-text`>" ++ text ++ lit "</div>
        </div>
".

Definition html_tail : str := lit "    </section>
</body>
</html>".

Definition html_marker : str := lit "

[...]".

(** The first loop of [generate_html]: the index. *)
Fixpoint index_loop (html : str) (current_sefer : option str)
    (summaries : list summary) : str :=
  match summaries with
  | [] => html
  | s :: rest =>
    let html :=
      if bool_decide (s_sefer s = current_sefer) then html
      else html ++ sefer_header (s_sefer s) in
    let html := html ++ summary_entry s in
    index_loop html (s_sefer s) rest
  end.

(** The [text] of a quote entry, [ft] being what
    [match_summary_to_fulltext] returned. *)
Definition quote_text (s : summary) (ft : option full_text) : str :=
  match ft with
  | Some ft =>
    let text := clean_text (ft_text ft) in
    if (3000 <? length text)%nat then take 3000 text ++ html_marker else text
  | None => no_match_text s
  end.

(** The second loop of [generate_html], for any scoring; the state is
    [html], [used] and [matched].  The exception of
    [match_summary_to_fulltext] ends it. *)
Fixpoint quote_loop (sc : str -> summary -> full_text -> Q)
    (full_texts : list full_text) (summaries : list summary) (html : str)
    (used : gset nat) (current_sefer : option str) (matched : nat)
  : exn + (str * nat) :=
  match summaries with
  | [] => inr (html, matched)
  | s :: rest =>
    let html :=
      if bool_decide (s_sefer s = current_sefer) then html
      else html ++ sefer_header (s_sefer s) in
    match match_summary_to_fulltext_by sc s full_texts used with
    | inl e => inl e
    | inr (ft, used) =>
      let matched := match ft with Some _ => S matched | None => matched end in
      let text := quote_text s (ft ≫= fun idx => full_texts !! idx) in
      let html := html ++ quote_entry s text in
      quote_loop sc full_texts rest html used (s_sefer s) matched
    end
  end.

(** [generate_html(summaries, full_texts)]: [(html, matched)], or the
    exception raised. *)
Definition generate_html_by (sc : str -> summary -> full_text -> Q)
    (summaries : list summary) (full_texts : list full_text)
  : exn + (str * nat) :=
  let html := html_head in
  let html := index_loop html None summaries in
  let html := html ++ html_mid in
  match quote_loop sc full_texts summaries html ∅ None 0 with
  | inl e => inl e
  | inr (html, matched) => inr (html ++ html_tail, matched)
  end.

Definition generate_html :=
  generate_html_by (fun sefer s ft => inject_Z (score sefer s ft)).

(** What the calls of [match_summary_to_fulltext] in the second loop
    return, in order; the calls share [used]. *)
Fixpoint match_sequence (sc : str -> summary -> full_text -> Q)
    (full_texts : list full_text) (summaries : list summary)
    (used : gset nat) : exn + list (option nat) :=
  match summaries with
  | [] => inr []
  | s :: rest =>
    match match_summary_to_fulltext_by sc s full_texts used with
    | inl e => inl e
    | inr (ft, used) =>
      match match_sequence sc full_texts rest used with
      | inl e => inl e
      | inr fts => inr (ft :: fts)
      end
    end
  end.

End V7.

(** ** parse_beshalach_v8.py *)

Module V8.
Import Py.

Record summary := Summary {
  s_id : N;
  s_sefer : option str;
  s_verse : str;
  s_summary : str;
  s_page : str;
  s_keywords : gset str
}.

Record full_text := FullText {
  ft_sefer : str;
  ft_verse : str;
  ft_text : str;
  ft_text_clean : str;
  ft_keywords : gset str
}.

(** ['full_text'] is a reference to an element of [full_texts]: its index. *)
Record match_result := MatchResult {
  mr_summary : summary;
  mr_full_text : option nat;
  mr_score : Q
}.

(** The class of [normalize]: that of v7 and [. , : ; ! ? ( ) [ ]]. *)
Definition normalize_class (c : char) : bool :=
  V7.normalize_class c
  || ((c =? 46) || (c =? 44) || (c =? 58) || (c =? 59) || (c =? 33)
      || (c =? 63) || (c =? 40) || (c =? 41) || (c =? 91) || (c =? 93))%N.

Definition normalize (text : str) : str :=
  strip (remove_class normalize_class text).

(** [set(re.findall(r'[א-ת]{2,}', text))] *)
Definition get_hebrew_words (text : str) : gset str :=
  list_to_set (findall_runs is_hebrew 2 text).

(** [max(a, b)] on two floats. *)
Definition float_max (a b : float) : float :=
  if (a <? b)%float then b else a.

Definition content_match_score (s : summary) (ft : full_text) : float :=
  let summary_keywords := s_keywords s in
  let ft_keywords := ft_keywords ft in
  if (size summary_keywords =? 0)%nat then 0%float
  else
    let matches := size (summary_keywords ∩ ft_keywords) in
    let score :=
      (float_of_nat matches / float_of_nat (size summary_keywords))%float in
    let ft_start := normalize (take 500 (ft_text_clean ft)) in
    let summary_words :=
      List.filter (fun w => (3 <=? length w)%nat)
                  (findall_runs is_hebrew 3 (s_summary s)) in
    let phrase_matches := count_in summary_words ft_start in
    match summary_words with
    | [] => score
    | _ :: _ =>
      let phrase_score :=
        (float_of_nat phrase_matches
         / float_of_nat (length summary_words))%float in
      float_max score phrase_score
    end.

(** Bonus for verse match *)
Definition verse_bonus (s : summary) (ft : full_text) : float :=
  let s_verse := normalize (s_verse s) in
  let ft_verse := normalize (ft_verse ft) in
  match s_verse, ft_verse with
  | _ :: _, _ :: _ =>
    if contains s_verse ft_verse || contains ft_verse s_verse then 0.2%float
    else if bool_decide (take 3 s_verse = take 3 ft_verse) then 0.1%float
    else 0%float
  | _, _ => 0%float
  end.

Definition total_score (s : summary) (ft : full_text) : Q :=
  Q_of_float (content_match_score s ft + verse_bonus s ft)%float.

(** The body of the loop of [match_summaries_to_full_texts] over the
    summaries: the dict appended to [matched], and [used_indices] as the
    iteration leaves it. *)
Definition match_one (sc : summary -> full_text -> Q) (s : summary)
    (full_texts : list full_text) (used_indices : gset nat)
  : match_result * gset nat :=
  match best_above (fun idx _ => bool_decide (idx ∈ used_indices))
                   (sc s) 0.25 full_texts with
  | Some (best_idx, best_score) =>
    ({| mr_summary := s; mr_full_text := Some best_idx;
        mr_score := best_score |},
     {[best_idx]} ∪ used_indices)
  | None =>
    ({| mr_summary := s; mr_full_text := None; mr_score := 0 |},
     used_indices)
  end.

(** The loop over the summaries; the state is [matched] and
    [used_indices]. *)
Fixpoint match_loop (sc : summary -> full_text -> Q) (summaries : list summary)
    (full_texts : list full_text) (matched : list match_result)
    (used_indices : gset nat) : list match_result * gset nat :=
  match summaries with
  | [] => (matched, used_indices)
  | s :: rest =>
    let '(entry, used_indices) := match_one sc s full_texts used_indices in
    match_loop sc rest full_texts (matched ++ [entry]) used_indices
  end.

Definition match_summaries_to_full_texts_by (sc : summary -> full_text -> Q)
    (summaries : list summary) (full_texts : list full_text)
  : list match_result :=
  (match_loop sc summaries full_texts [] ∅).1.

Definition match_summaries_to_full_texts :=
  match_summaries_to_full_texts_by total_score.

(** [sum(1 for m in matched if m['full_text'] is not None)] of [main] *)
Definition matched_count (matched : list match_result) : nat :=
  length (List.filter (fun m => match mr_full_text m with
                                | Some _ => true
                                | None => false
                                end) matched).

End V8.

(** ** parse_summaries_to_content.py *)

Module Mapper.
Import Py.

Record ContentSection := {
  section_author : str;
  text : str;
  page_number : str;
  start_line : Z;
  end_line : Z;
  opening_phrases : list str
}.

(** [matched_content] refers to a section, which nothing mutates: it holds
    the section. *)
Record Summary := {
  author : str;
  opening_words : str;
  summary_text : str;
  page_ref : str;
  line_number : Z;
  matched_content : option ContentSection;
  match_confidence : Q
}.

Definition hebrew_nums : gmap char Z :=
  list_to_map (M := gmap N Z)
    [ (1488%N, 1%Z); (1489%N, 2%Z); (1490%N, 3%Z); (1491%N, 4%Z); (1492%N, 5%Z); (1493%N, 6%Z);
      (1494%N, 7%Z); (1495%N, 8%Z); (1496%N, 9%Z);
      (1497%N, 10%Z); (1499%N, 20%Z); (1500%N, 30%Z); (1502%N, 40%Z); (1504%N, 50%Z); (1505%N, 60%Z);
      (1506%N, 70%Z); (1508%N, 80%Z); (1510%N, 90%Z);
      (1511%N, 100%Z); (1512%N, 200%Z); (1513%N, 300%Z); (1514%N, 400%Z) ].

Definition hebrew_page_to_int (page : str) : Z :=
  let page :=
    remove_class (fun c => (c =? 32)%N)
      (remove_class (fun c => (c =? 34)%N)
         (remove_class (fun c => (c =? 39)%N) page)) in
  fold_left (fun total c =>
               match hebrew_nums !! c with
               | Some v => (total + v)%Z
               | None => total
               end) page 0%Z.

(** Nikud and cantillation, U+0591 to U+05C7. *)
Definition is_nikud (c : char) : bool := ((1425 <=? c) && (c <=? 1479))%N.

(** The class [[.,;:!?\-–—]]. *)
Definition is_punct (c : char) : bool :=
  ((c =? 46) || (c =? 44) || (c =? 59) || (c =? 58) || (c =? 33) || (c =? 63)
   || (c =? 45) || (c =? 8211) || (c =? 8212))%N.

Definition normalize_text (text : str) : str :=
  let text := remove_class is_nikud text in
  let text := blank_class is_punct text in
  let text := sub_ws text in
  strip text.

(** [max(a, b)] *)
Definition pymax (a b : Q) : Q := if Qgtb b a then b else a.

Section Difflib.
(** [SequenceMatcher(None, a, b).ratio()] of the standard library: a
    binary64 number, as the rational it denotes. *)
Variable ratio : str -> str -> Q.

Definition similarity_score (a b : str) : Q :=
  let a_norm := normalize_text a in
  let b_norm := normalize_text b in
  ratio a_norm b_norm.

(** The loop over [section.opening_phrases]; the exact match ends it. *)
Fixpoint phrase_loop (opening_normalized : str) (phrases : list str)
    (best_phrase_score : Q) : Q :=
  match phrases with
  | [] => best_phrase_score
  | phrase :: rest =>
    let phrase_norm := normalize_text phrase in
    if bool_decide (opening_normalized = phrase_norm) then 1
    else if contains opening_normalized phrase_norm then
      phrase_loop opening_normalized rest
        (pymax best_phrase_score (float_lit 0.9))
    else if contains phrase_norm opening_normalized then
      phrase_loop opening_normalized rest
        (pymax best_phrase_score (float_lit 0.8))
    else
      let sim := similarity_score opening_normalized phrase_norm in
      if Qgtb sim (float_lit 0.7) then
        phrase_loop opening_normalized rest (pymax best_phrase_score sim)
      else phrase_loop opening_normalized rest best_phrase_score
  end.

(** Signal 2: Page number match (weight: 30%): [score] after it. *)
Definition add_page_points (score : Q) (summary : Summary)
    (section : ContentSection) : Q :=
  match page_ref summary, page_number section with
  | _ :: _, _ :: _ =>
    let summary_page := hebrew_page_to_int (page_ref summary) in
    let section_page := hebrew_page_to_int (page_number section) in
    let page_diff := Z.abs (summary_page - section_page)%Z in
    if (page_diff =? 0)%Z then fadd score (float_lit 0.3)
    else if (page_diff <=? 1)%Z then fadd score (float_lit 0.2)
    else if (page_diff <=? 3)%Z then fadd score (float_lit 0.1)
    else score
  | _, _ => score
  end.

(** The value of [score] at the end of the body of the loop over
    [author_sections]: each [+=] and each product is the float
    operation. *)
Definition section_score (summary : Summary) (section : ContentSection)
    (author_sim : Q) : Q :=
  let score := 0%Q in
  let opening_normalized := normalize_text (opening_words summary) in
  let best_phrase_score :=
    phrase_loop opening_normalized (opening_phrases section) 0 in
  let score := fadd score (fmul best_phrase_score (float_lit 0.4)) in
  let content_normalized := normalize_text (text section) in
  let score :=
    if contains opening_normalized content_normalized
    then fadd score (float_lit 0.15)
    else score in
  let score := add_page_points score summary section in
  fadd score (fmul author_sim (float_lit 0.3)).

(** The score of a section of the same author and page whose bold phrase
    is the opening of the summary: all four signals at their most. *)
Definition full_score : Q :=
  fadd (fadd (fadd (fadd 0 (fmul 1 (float_lit 0.4))) (float_lit 0.15))
             (float_lit 0.3))
       (fmul 1 (float_lit 0.3)).

(** [author_sections]: the sections of the same author, with the
    similarity. *)
Definition author_sections_of (summary : Summary)
    (content_sections : list ContentSection) : list (ContentSection * Q) :=
  omap (fun section =>
          let author_sim :=
            similarity_score (section_author section) (author summary) in
          if Qgtb author_sim (float_lit 0.7) then Some (section, author_sim)
          else None)
       content_sections.

(** The loop over [author_sections]. *)
Fixpoint best_section (summary : Summary)
    (author_sections : list (ContentSection * Q))
    (best_match : option ContentSection) (best_score : Q)
  : option ContentSection * Q :=
  match author_sections with
  | [] => (best_match, best_score)
  | (section, author_sim) :: rest =>
    let score := section_score summary section author_sim in
    if Qgtb score best_score then best_section summary rest (Some section) score
    else best_section summary rest best_match best_score
  end.

(** The body of the loop of [_map_summaries_to_content]: the summary as the
    loop leaves it.  The threshold 0.25 is a binary64 number. *)
Definition map_summary (content_sections : list ContentSection)
    (summary : Summary) : Summary :=
  match author_sections_of summary content_sections with
  | [] => summary
  | author_sections =>
    match best_section summary author_sections None 0 with
    | (Some best_match, best_score) =>
      if Qgtb best_score 0.25 then
        {| author := author summary; opening_words := opening_words summary;
           summary_text := summary_text summary; page_ref := page_ref summary;
           line_number := line_number summary;
           matched_content := Some best_match;
           match_confidence := best_score |}
      else summary
    | (None, _) => summary
    end
  end.

(** [self.summaries] after [_map_summaries_to_content]. *)
Definition map_summaries_to_content (summaries : list Summary)
    (content_sections : list ContentSection) : list Summary :=
  map (map_summary content_sections) summaries.

End Difflib.
(** The value of a character in [hebrew_page_to_int]: that of a numeral
    letter, and 0 for any other character. *)
Definition letter_value (c : char) : Z := default 0%Z (hebrew_nums !! c).

Inductive exn := ZeroDivisionError.

Section Report.
Variable ratio : str -> str -> Q.

(** The score of an element of [author_sections]. *)
Definition pair_score (summary : Summary) (p : ContentSection * Q) : Q :=
  section_score ratio summary p.1 p.2.

(** The loop of [_map_summaries_to_content] with its counter [mapped]:
    the summaries as the loop leaves them, and [mapped], which is
    incremented where [matched_content] is assigned. *)
Fixpoint map_loop (content_sections : list ContentSection)
    (summaries : list Summary) (mapped : nat) : list Summary * nat :=
  match summaries with
  | [] => ([], mapped)
  | summary :: rest =>
    let assigned :=
      match author_sections_of ratio summary content_sections with
      | [] => false
      | author_sections =>
        match best_section ratio summary author_sections None 0 with
        | (Some _, best_score) => Qgtb best_score 0.25
        | (None, _) => false
        end
      end in
    let '(rest', mapped') :=
      map_loop content_sections rest (if assigned then S mapped else mapped) in
    (map_summary ratio content_sections summary :: rest', mapped')
  end.

(** [_map_summaries_to_content()]: the loop, and the [print] after it,
    which divides by [len(self.summaries)]. *)
Definition map_summaries_and_report (summaries : list Summary)
    (content_sections : list ContentSection) : exn + list Summary :=
  let '(summaries', mapped) := map_loop content_sections summaries 0 in
  match summaries with
  | [] => inl ZeroDivisionError
  | _ :: _ => inr summaries'
  end.

End Report.

(** [if s.matched_content] *)
Definition is_matched (s : Summary) : bool :=
  match matched_content s with
  | Some _ => true
  | None => false
  end.

(** ['statistics'] of [export_json]: [total_summaries], [matched] and
    [high_confidence]. *)
Definition statistics (summaries : list Summary) : nat * nat * nat :=
  (length summaries,
   length (List.filter (fun s => match matched_content s with
                                 | Some _ => true
                                 | None => false
                                 end) summaries),
   length (List.filter (fun s => Qgtb (match_confidence s) (float_lit 0.7))
                       summaries)).

(** A summary as [_extract_summaries] builds it: the two last fields have
    their defaults. *)
Definition fresh (s : Summary) : Prop :=
  matched_content s = None /\ match_confidence s = 0%Q.

End Mapper.

(** ** ocr_summaries_index.py and ocr_retry_failed.py *)

Module Ocr.
Import Py.

(** What one pass through the [try] block meets: [requests.post] raises, or
    it returns a response with its [status_code] and [text], whose
    [response.json()['choices'][0]['message']['content']] is a string or
    raises. *)
Inductive attempt_outcome :=
| PostRaises (e : str)
| Response (status_code : Z) (text : str) (content : str + str).

(** The calls the function makes that reach outside. *)
Inductive event :=
| Post (page_num : Z) (attempt : nat)
| Sleep (seconds : Z).

Inductive value :=
| VInt (n : Z)
| VStr (s : str).

(** The dicts the functions return. *)
Definition error_record (e : str) (page_num : Z) : gmap string value :=
  {[ "error" := VStr e; "page" := VInt page_num ]}.

Definition text_record (page_num : Z) (content : str) : gmap string value :=
  {[ "page" := VInt page_num; "text" := VStr content ]}.

(** [if attempt < max_retries - 1] *)
Definition not_last (attempt max_retries : nat) : bool :=
  (Z.of_nat attempt <? Z.of_nat max_retries - 1)%Z.

(** The loop [for attempt in range(max_retries)] of [ocr_with_gemini], from
    iteration [attempt] on, [remaining] iterations being left; [http] is
    what the attempts meet and [log] the calls made so far. *)
Fixpoint gemini_loop (http : nat -> attempt_outcome) (page_num : Z)
    (max_retries attempt remaining : nat) (log : list event)
  : gmap string value * list event :=
  match remaining with
  | O => (error_record (lit "Max retries exceeded") page_num, log)
  | S remaining' =>
    let log := log ++ [Post page_num attempt] in
    match http attempt with
    | Response status_code text content =>
      if negb (status_code =? 200)%Z then
        if not_last attempt max_retries
        then gemini_loop http page_num max_retries (S attempt) remaining'
                         (log ++ [Sleep 5])
        else (error_record text page_num, log)
      else
        match content with
        | inl content => (text_record page_num content, log)
        | inr e =>
          if not_last attempt max_retries
          then gemini_loop http page_num max_retries (S attempt) remaining'
                           (log ++ [Sleep 5])
          else (error_record e page_num, log)
        end
    | PostRaises e =>
      if not_last attempt max_retries
      then gemini_loop http page_num max_retries (S attempt) remaining'
                       (log ++ [Sleep 5])
      else (error_record e page_num, log)
    end
  end.

Definition ocr_with_gemini_retries (http : nat -> attempt_outcome)
    (page_num : Z) (max_retries : nat) : gmap string value * list event :=
  gemini_loop http page_num max_retries 0 max_retries [].

(** [ocr_with_gemini(image_base64, page_num)], [max_retries=3]. *)
Definition ocr_with_gemini (http : nat -> attempt_outcome) (page_num : Z)
  : gmap string value * list event :=
  ocr_with_gemini_retries http page_num 3.

(** The loop of [ocr_with_gemini_flash]: as above, and a response shorter
    than 100 characters is retried unless the attempt is the last. *)
Fixpoint flash_loop (http : nat -> attempt_outcome) (page_num : Z)
    (max_retries attempt remaining : nat) (log : list event)
  : gmap string value * list event :=
  match remaining with
  | O => (error_record (lit "Max retries exceeded") page_num, log)
  | S remaining' =>
    let log := log ++ [Post page_num attempt] in
    match http attempt with
    | Response status_code text content =>
      if negb (status_code =? 200)%Z then
        if not_last attempt max_retries
        then flash_loop http page_num max_retries (S attempt) remaining'
                        (log ++ [Sleep 5])
        else (error_record text page_num, log)
      else
        match content with
        | inl content =>
          if (length (strip content) <? 100)%nat
             && not_last attempt max_retries
          then flash_loop http page_num max_retries (S attempt) remaining'
                          (log ++ [Sleep 5])
          else (text_record page_num content, log)
        | inr e =>
          if not_last attempt max_retries
          then flash_loop http page_num max_retries (S attempt) remaining'
                          (log ++ [Sleep 5])
          else (error_record e page_num, log)
        end
    | PostRaises e =>
      if not_last attempt max_retries
      then flash_loop http page_num max_retries (S attempt) remaining'
                      (log ++ [Sleep 5])
      else (error_record e page_num, log)
    end
  end.

(** [ocr_with_gemini_flash(image_base64, page_num)], [max_retries=3]. *)
Definition ocr_with_gemini_flash (http : nat -> attempt_outcome)
    (page_num : Z) : gmap string value * list event :=
  flash_loop http page_num 3 0 3 [].

(** The loop of [main] in ocr_summaries_index.py over the pages: [results]
    and the calls made; [http page_num] is what the attempts for that page
    meet. *)
Fixpoint ocr_pages (http : Z -> nat -> attempt_outcome) (pages : list Z)
    (results : list (gmap string value)) (log : list event)
  : list (gmap string value) * list event :=
  match pages with
  | [] => (results, log)
  | page_num :: rest =>
    let '(result, calls) := ocr_with_gemini (http page_num) page_num in
    ocr_pages http rest (results ++ [result]) (log ++ calls)
  end.

(** The calls of [n] attempts in a row, the first numbered [first]: a
    request each, and a sleep of 5 seconds between two of them. *)
Fixpoint attempts_log (page_num : Z) (first n : nat) : list event :=
  match n with
  | O => []
  | S n' =>
    Post page_num first
    :: match n' with
       | O => []
       | S _ => Sleep 5 :: attempts_log page_num (S first) n'
       end
  end.

Definition is_post (ev : event) : bool :=
  match ev with
  | Post _ _ => true
  | Sleep _ => false
  end.

(** An attempt fails: a status other than 200 or a raised exception. *)
Definition failed (o : attempt_outcome) : bool :=
  match o with
  | PostRaises _ => true
  | Response status_code _ content =>
    negb (status_code =? 200)%Z
    || match content with inr _ => true | inl _ => false end
  end.

(** What a run of the loop that starts at iteration [attempt] with the
    calls [log] made, [remaining] iterations being left, has done when it
    returns [out]: a record for the page, with an error or a text, after
    at most [remaining] attempts. *)
Definition loop_post (page_num : Z) (attempt remaining : nat)
    (log : list event) (out : gmap string value * list event) : Prop :=
  out.1 !! "page" = Some (VInt page_num)
  /\ (is_Some (out.1 !! "error") \/ is_Some (out.1 !! "text"))
  /\ exists n, (n <= remaining)%nat /\ (0 < remaining -> 0 < n)%nat
               /\ out.2 = log ++ attempts_log page_num attempt n.

(** The same when every attempt fails: all the iterations are used, and
    the record is an error record. *)
Definition loop_failed (page_num : Z) (attempt remaining : nat)
    (log : list event) (out : gmap string value * list event) : Prop :=
  is_Some (out.1 !! "error") /\ out.1 !! "text" = None
  /\ out.2 = log ++ attempts_log page_num attempt remaining.

(** A response that [ocr_with_gemini_flash] keeps only on the last
    attempt: a failure, or a text of fewer than 100 characters once
    stripped. *)
Definition unsatisfactory (o : attempt_outcome) : bool :=
  match o with
  | Response status_code _ (inl content) =>
    negb (status_code =? 200)%Z || (length (strip content) <? 100)%nat
  | _ => true
  end.

(** [partial_output] and [output] of the two [main]s; ["source_pdf"], a
    constant, is left out. *)
Record partial_output := PartialOutput {
  po_total_pages : nat;
  po_completed_pages : nat;
  po_pages : list (gmap string value)
}.

Record output := Output {
  total_pages : nat;
  pages : list (gmap string value)
}.

Inductive exn := KeyError | TypeError | PageNotInDocument.

(** [str(n)] and [f'{n}'] for an integer. *)
Definition str_of_Z (n : Z) : str :=
  if (n <? 0)%Z then 45%N :: str_of_int (Z.to_N (- n))
  else str_of_int (Z.to_N n).

(** [f'{v}'] *)
Definition format_value (v : value) : str :=
  match v with
  | VInt n => str_of_Z n
  | VStr s => s
  end.

(** The writes of one iteration of the loop that saves the text version;
    [text] is the file so far.  [f.write] raises on a ['text'] that is not
    a string. *)
Definition write_result (text : str) (result : gmap string value)
  : str * option exn :=
  let text := text ++ [10%N] ++ repeat 61%N 60 ++ [10%N] in
  let text :=
    text ++ lit "PAGE "
         ++ match result !! "page" with
            | Some v => format_value v
            | None => lit "?"
            end ++ [10%N] in
  let text := text ++ repeat 61%N 60 ++ [10%N; 10%N] in
  match result !! "text" with
  | Some (VStr content) => (text ++ content ++ [10%N], None)
  | Some (VInt _) => (text, Some TypeError)
  | None =>
    match result !! "error" with
    | Some e => (text ++ lit "ERROR: " ++ format_value e ++ [10%N], None)
    | None => (text ++ [10%N], None)
    end
  end.

(** The loop that saves the text version: the file, and the exception
    that ends the loop, if any. *)
Fixpoint write_results (text : str) (results : list (gmap string value))
  : str * option exn :=
  match results with
  | [] => (text, None)
  | result :: rest =>
    match write_result text result with
    | (text, None) => write_results text rest
    | (text, Some e) => (text, Some e)
    end
  end.

(** ['page'] of the images [pdf_to_images] returns for a PDF of [n] pages:
    1 to [n]. *)
Definition image_pages (n : nat) : list Z :=
  map (fun page_num => (Z.of_nat page_num + 1)%Z) (seq 0 n).

(** The loop of [main] in ocr_summaries_index.py with the partial results
    it saves after each page: [results], and the contents written to the
    partial file, in order. *)
Fixpoint main_loop (http : Z -> nat -> attempt_outcome) (total : nat)
    (images : list Z) (results : list (gmap string value))
    (saved : list partial_output)
  : list (gmap string value) * list partial_output :=
  match images with
  | [] => (results, saved)
  | page_num :: rest =>
    let result := (ocr_with_gemini (http page_num) page_num).1 in
    let results := results ++ [result] in
    let partial_output :=
      {| po_total_pages := total; po_completed_pages := length results;
         po_pages := results |} in
    main_loop http total rest results (saved ++ [partial_output])
  end.

(** [main()] of ocr_summaries_index.py for a PDF of [n] pages: [results],
    the contents written to the partial file, the final output, and the
    text version with the exception that ends its loop, if any. *)
Definition main (http : Z -> nat -> attempt_outcome) (n : nat)
  : list (gmap string value) * list partial_output * output
    * (str * option exn) :=
  let images := image_pages n in
  let '(results, saved) := main_loop http (length images) images [] [] in
  (results, saved, {| total_pages := length images; pages := results |},
   write_results [] results).

(** [FAILED_PAGES] of ocr_retry_failed.py *)
Definition FAILED_PAGES : list Z := [1; 2; 3; 5; 7; 9; 11]%Z.

(** [results_dict = {p['page']: p for p in data['pages']}]: a page without
    ['page'] raises [KeyError], and of two pages with the same number the
    later stays.  The dict of the model holds the int keys; a str key is
    only recorded by the flag: it makes the first [sorted] below raise
    before the dict is read. *)
Fixpoint load_results (data_pages : list (gmap string value))
    (results_dict : gmap Z (gmap string value)) (str_key : bool)
  : exn + (gmap Z (gmap string value) * bool) :=
  match data_pages with
  | [] => inr (results_dict, str_key)
  | p :: rest =>
    match p !! "page" with
    | None => inl KeyError
    | Some (VInt n) => load_results rest (<[n := p]> results_dict) str_key
    | Some (VStr _) => load_results rest results_dict true
    end
  end.

(** [[results_dict[i] for i in sorted(results_dict.keys())]] *)
Definition sorted_pages (results_dict : gmap Z (gmap string value))
  : list (gmap string value) :=
  omap (fun i => results_dict !! i)
       (merge_sort Z.le (map fst (map_to_list results_dict))).

(** The loop of [main] in ocr_retry_failed.py over the failed pages: the
    dict, the contents written to the output file, in order, and the
    exception that ends the loop, if any.  [has_page] says which pages the
    PDF has: [pdf_page_to_image] raises on another. *)
Fixpoint retry_loop (has_page : Z -> bool) (http : Z -> nat -> attempt_outcome)
    (failed_pages : list Z) (results_dict : gmap Z (gmap string value))
    (str_key : bool) (saved : list output)
  : gmap Z (gmap string value) * list output * option exn :=
  match failed_pages with
  | [] => (results_dict, saved, None)
  | page_num :: rest =>
    if has_page page_num then
      let result := (ocr_with_gemini_flash (http page_num) page_num).1 in
      let results_dict := <[page_num := result]> results_dict in
      if str_key then (results_dict, saved, Some TypeError)
      else
        let updated_pages := sorted_pages results_dict in
        let output := {| total_pages := length updated_pages;
                         pages := updated_pages |} in
        retry_loop has_page http rest results_dict str_key (saved ++ [output])
    else (results_dict, saved, Some PageNotInDocument)
  end.

(** [main()] of ocr_retry_failed.py on the pages of the existing results:
    the contents written to the output file, the text version, if the run
    gets there, and the exception that ends the run, if any. *)
Definition retry_main (has_page : Z -> bool)
    (http : Z -> nat -> attempt_outcome)
    (data_pages : list (gmap string value))
  : list output * option str * option exn :=
  match load_results data_pages ∅ false with
  | inl e => ([], None, Some e)
  | inr (results_dict, str_key) =>
    match retry_loop has_page http FAILED_PAGES results_dict str_key [] with
    | (_, saved, Some e) => (saved, None, Some e)
    | (results_dict, saved, None) =>
      let '(text, e) := write_results [] (sorted_pages results_dict) in
      (saved, Some text, e)
    end
  end.

(** [p['page'] == n] *)
Definition page_is (n : Z) (p : gmap string value) : bool :=
  match p !! "page" with
  | Some (VInt m) => (m =? n)%Z
  | _ => false
  end.

(** The dict after the retries of the pages [failed_pages]. *)
Definition retried (http : Z -> nat -> attempt_outcome)
    (failed_pages : list Z) (results_dict : gmap Z (gmap string value))
  : gmap Z (gmap string value) :=
  foldl (fun d page_num =>
           <[page_num := (ocr_with_gemini_flash (http page_num) page_num).1]> d)
        results_dict failed_pages.

(** What the two request functions return: one of the two dicts. *)
Definition request_record (page_num : Z) (r : gmap string value) : Prop :=
  (exists e, r = error_record e page_num)
  \/ (exists content, r = text_record page_num content).

End Ocr.

(** ** Sample inputs *)

Module Sample.
Import Py.

(** Two orders in which a set may be enumerated. *)
Definition as_built (l : list str) : list str := l.
Definition reversed (l : list str) : list str := rev l.

(** Two entries of the index, both under the header of one sefer, and two
    passages under the header of another. *)
Definition entries : list (option str * N * str * str * str) :=
  [ (Some (lit "ספר א הק'"), 1%N, lit "ויהי בשלח",
     lit "ענין קריעת ים סוף ומעלת האמונה", lit "י");
    (Some (lit "ספר א הק'"), 2%N, lit "אז ישיר", lit "שירת הים", lit "כ") ].

Definition passages : list (str * str * str) :=
  [ (lit "ספר ב", lit "ויהי בשלח פרעה",
     lit "<b>ויהי בשלח פרעה</b> הנה ענין קריעת ים סוף הוא מעלה גדולה");
    (lit "ספר ב", lit "מן",
     lit "<b>מן</b> לחם מן השמים ניתן לישראל במדבר ארבעים שנה עד בואם אל ארץ נושבת") ].

Definition summaries : list V10.summary :=
  map (fun '(current_sefer, id, verse, summary_text, page) =>
         V10.mk_summary as_built current_sefer id verse summary_text page)
      entries.

Definition full_texts : list V10.full_text :=
  map (fun '(name, verse, text) => V10.mk_full_text as_built name verse text)
      passages.

(** A passage of 3001 letters, and one of 2501. *)
Definition long_passage : V10.full_text :=
  V10.mk_full_text as_built (lit "ספר ב") (lit "מן") (repeat 1488%N 3001).

Definition medium_passage : V10.full_text :=
  V10.mk_full_text as_built (lit "ספר ב") (lit "מן") (repeat 1488%N 2501).

(** The first entry and the first passage as v7 holds them. *)
Definition v7_summary : V7.summary :=
  {| V7.s_id := 1; V7.s_sefer := Some (lit "ספר א");
     V7.s_verse := lit "ויהי בשלח"; V7.s_summary := lit "קריעת ים סוף";
     V7.s_page := lit "י" |}.

Definition v7_full_text : V7.full_text :=
  {| V7.ft_sefer := lit "ספר ב"; V7.ft_verse := lit "ויהי בשלח";
     V7.ft_text := lit "<b>ויהי בשלח</b> הנה ענין קריעת ים סוף הוא מעלה גדולה מאד לישראל" |}.

(** A summary of the index and the content section it belongs to: same
    author, same page, and the opening words are a bold phrase of the
    section. *)
Definition section : Mapper.ContentSection :=
  {| Mapper.section_author := lit "רבינו בחיי";
     Mapper.text := lit "<b>ויהי בשלח</b> הנה ענין קריעת ים סוף הוא מעלה גדולה מאד לישראל";
     Mapper.page_number := lit "י`ז";
     Mapper.start_line := 500; Mapper.end_line := 540;
     Mapper.opening_phrases := [lit "ויהי בשלח"] |}.

Definition index_summary : Mapper.Summary :=
  {| Mapper.author := lit "רבינו בחיי";
     Mapper.opening_words := lit "ויהי בשלח";
     Mapper.summary_text := lit "ענין קריעת ים סוף ומעלת האמונה";
     Mapper.page_ref := lit "י`ז";
     Mapper.line_number := 80;
     Mapper.matched_content := None;
     Mapper.match_confidence := 0 |}.

(** A similarity that is 1 on equal strings and 0 on others; on equal
    strings it is the ratio of difflib. *)
Definition equal_ratio (a b : str) : Q :=
  if bool_decide (a = b) then 1 else 0.

(** A similarity that is 1 on equal strings and the float 0.8 on others,
    and two sections for [index_summary] whose signals add up to 17/20
    both: the first has a longer bold phrase, a page two pages off and
    an author that is only similar; the second has the phrase and the
    author of the summary and no page. *)
Definition near_ratio (a b : str) : Q :=
  if bool_decide (a = b) then 1 else float_lit 0.8.

Definition similar_section : Mapper.ContentSection :=
  {| Mapper.section_author := lit "רבינו בחיי ז`ל";
     Mapper.text := lit "<b>ויהי בשלח פרעה</b> הנה ענין קריעת ים סוף";
     Mapper.page_number := lit "י`ט";
     Mapper.start_line := 100; Mapper.end_line := 140;
     Mapper.opening_phrases := [lit "ויהי בשלח פרעה"] |}.

Definition unpaged_section : Mapper.ContentSection :=
  {| Mapper.section_author := lit "רבינו בחיי";
     Mapper.text := lit "<b>ויהי בשלח</b> הנה ענין קריעת ים סוף הוא מעלה גדולה מאד לישראל";
     Mapper.page_number := [];
     Mapper.start_line := 500; Mapper.end_line := 540;
     Mapper.opening_phrases := [lit "ויהי בשלח"] |}.

(** A server that is down: every request raises. *)
Definition server_down (attempt : nat) : Ocr.attempt_outcome :=
  Ocr.PostRaises (lit "Connection refused").

(** A server that fails the first request and answers the second with a
    text of 120 letters. *)
Definition flaky_server (attempt : nat) : Ocr.attempt_outcome :=
  match attempt with
  | O => Ocr.PostRaises (lit "Connection reset")
  | S _ => Ocr.Response 200 (lit "{...}") (inl (repeat 1488%N 120))
  end.

(** The pages of an earlier run: page 1 failed, page 4 has its text. *)
Definition earlier_pages : list (gmap string Ocr.value) :=
  [ Ocr.error_record (lit "Max retries exceeded") 1;
    Ocr.text_record 4 (repeat 1488%N 120) ].

(** The decimal digits of ASCII. *)
Definition ascii_decimal (c : char) : option N :=
  if ((48 <=? c) && (c <=? 57))%N then Some (c - 48)%N else None.

(** A text as [extract_all_full_texts] reads it: a passage before any
    header, a header, a passage of two lines with a running header and an
    empty line after it, a passage that is too short, and a last
    passage. *)
Definition content : str := lit "פתיחה
<b>לפני הכותרת</b> שורה שאינה תחת ספר ולכן אינה נאספת כלל אף שהיא ארוכה דיה
<center><h1><b>נועם אלימלך הק'</b></h1></center>
<b>ויהי בשלח</b> הנה ענין קריעת ים סוף הוא מעלה גדולה מאד לישראל
  המשך הפסקה
<HEADER>כותרת עמוד</HEADER>

<b>אז ישיר</b> קצר
<b>מן</b> לחם מן השמים ניתן לישראל במדבר ארבעים שנה עד בואם אל ארץ נושבת".

End Sample.

(** * Proofs

    ** The candidate loop *)

Lemma Qgtb_true (x y : Q) : Py.Qgtb x y = true <-> (y < x)%Q.
Proof.
  unfold Py.Qgtb. rewrite negb_true_iff. split.
  - intros H. apply Qnot_le_lt. intros Hle. apply Qle_bool_iff in Hle. congruence.
  - intros H. destruct (Qle_bool x y) eqn:E; [|done].
    apply Qle_bool_iff in E. lra.
Qed.

Lemma Qgtb_false (x y : Q) : Py.Qgtb x y = false <-> (x <= y)%Q.
Proof.
  unfold Py.Qgtb. rewrite negb_false_iff. apply Qle_bool_iff.
Qed.

Lemma Qgeb_true (x y : Q) : Py.Qgeb x y = true <-> (y <= x)%Q.
Proof. unfold Py.Qgeb. apply Qle_bool_iff. Qed.

Lemma Qgeb_false (x y : Q) : Py.Qgeb x y = false <-> (x < y)%Q.
Proof.
  unfold Py.Qgeb. split.
  - intros H. apply Qnot_le_lt. intros Hle. apply Qle_bool_iff in Hle. congruence.
  - intros H. destruct (Qle_bool y x) eqn:E; [|done].
    apply Qle_bool_iff in E. lra.
Qed.

Section CandidateLoopFacts.
Context {A : Type}.
Variable skip : nat -> A -> bool.
Variable sc : A -> Q.

Lemma candidate_snoc (pre : list A) (ft : A) (j : nat) (ft' : A) :
  candidate skip (pre ++ [ft]) j ft'
  <-> candidate skip pre j ft'
      \/ (j = length pre /\ ft' = ft /\ skip (length pre) ft = false).
Proof.
  unfold candidate. split.
  - intros [Hl Hs]. destruct (decide (j < length pre)%nat) as [Hlt|Hge].
    + rewrite lookup_app_l in Hl by done. by left.
    + rewrite lookup_app_r in Hl by lia.
      destruct (j - length pre)%nat as [|k] eqn:E; simpl in Hl; [|done].
      assert (j = length pre) as -> by lia.
      right. by simplify_eq.
  - intros [[Hl Hs]|(-> & -> & Hs)].
    + split; [|done]. apply lookup_app_l_Some. done.
    + split; [|done]. rewrite lookup_app_r by lia.
      by rewrite Nat.sub_diag.
Qed.

Lemma candidate_lt (l : list A) (j : nat) (ft : A) :
  candidate skip l j ft -> (j < length l)%nat.
Proof. intros [Hl _]. by eapply lookup_lt_Some. Qed.

Lemma scan_keeps_inv (l pre : list A) (best_idx : option nat) (best_score : Q) :
  scan_inv skip sc pre best_idx best_score ->
  scan_inv skip sc (pre ++ l)
    (scan skip sc l (length pre) best_idx best_score).1
    (scan skip sc l (length pre) best_idx best_score).2.
Proof.
  revert pre best_idx best_score.
  induction l as [|ft l IH]; intros pre best bs Hinv; simpl.
  - by rewrite app_nil_r.
  - replace (pre ++ ft :: l) with ((pre ++ [ft]) ++ l)
      by (by rewrite <- app_assoc).
    assert (S (length pre) = length (pre ++ [ft])) as ->
      by (rewrite length_app; simpl; lia).
    destruct (skip (length pre) ft) eqn:Hskip; [|destruct (Py.Qgtb (sc ft) bs) eqn:Hgt].
    + apply IH. destruct best as [i|]; simpl in *.
      * destruct Hinv as [Hpos (ft0 & Hc & Hv & Hmax & Hfirst)].
        split; [done|]. exists ft0. refine (conj _ (conj _ (conj _ _))).
        -- apply candidate_snoc. by left.
        -- done.
        -- intros j ft' Hj. apply candidate_snoc in Hj as [Hj|(_ & _ & Hj)];
             [eauto | congruence].
        -- intros j ft' Hj. apply candidate_snoc in Hj as [Hj|(_ & _ & Hj)];
             [eauto | congruence].
      * destruct Hinv as [-> Hall]. split; [done|].
        intros j ft' Hj. apply candidate_snoc in Hj as [Hj|(_ & _ & Hj)];
          [eauto | congruence].
    + apply IH. apply Qgtb_true in Hgt. simpl.
      assert (Hnew : candidate skip (pre ++ [ft]) (length pre) ft)
        by (apply candidate_snoc; by right).
      destruct best as [i|]; simpl in Hinv.
      * destruct Hinv as [Hpos (ft0 & Hc & Hv & Hmax & Hfirst)].
        split; [lra|]. exists ft. refine (conj Hnew (conj eq_refl (conj _ _))).
        -- intros j ft' Hj. apply candidate_snoc in Hj as [Hj|(_ & -> & _)].
           ++ specialize (Hmax _ _ Hj). lra.
           ++ lra.
        -- intros j ft' Hj Hlt. apply candidate_snoc in Hj as [Hj|(-> & _ & _)].
           ++ specialize (Hmax _ _ Hj). lra.
           ++ lia.
      * destruct Hinv as [-> Hall].
        split; [lra|]. exists ft. refine (conj Hnew (conj eq_refl (conj _ _))).
        -- intros j ft' Hj. apply candidate_snoc in Hj as [Hj|(_ & -> & _)].
           ++ specialize (Hall _ _ Hj). lra.
           ++ lra.
        -- intros j ft' Hj Hlt. apply candidate_snoc in Hj as [Hj|(-> & _ & _)].
           ++ specialize (Hall _ _ Hj). lra.
           ++ lia.
    + apply IH. apply Qgtb_false in Hgt.
      destruct best as [i|]; simpl in *.
      * destruct Hinv as [Hpos (ft0 & Hc & Hv & Hmax & Hfirst)].
        split; [done|]. exists ft0. refine (conj _ (conj _ (conj _ _))).
        -- apply candidate_snoc. by left.
        -- done.
        -- intros j ft' Hj. apply candidate_snoc in Hj as [Hj|(_ & -> & _)];
             [eauto | done].
        -- intros j ft' Hj Hlt. apply candidate_snoc in Hj as [Hj|(-> & _ & _)];
             [eauto |].
           apply candidate_lt in Hc. lia.
      * destruct Hinv as [-> Hall]. split; [done|].
        intros j ft' Hj. apply candidate_snoc in Hj as [Hj|(_ & -> & _)];
          [eauto | done].
Qed.

Lemma scan_from_start (l : list A) :
  scan_inv skip sc l (scan skip sc l 0 None 0).1 (scan skip sc l 0 None 0).2.
Proof.
  apply (scan_keeps_inv l [] None 0). split; [done|].
  intros j ft [Hl _]. done.
Qed.

Lemma first_best_unique (l : list A) (i i' : nat) (v v' : Q) :
  first_best skip sc l i v -> first_best skip sc l i' v' -> i = i' /\ v = v'.
Proof.
  intros (ft & Hc & Hv & Hmax & Hfirst) (ft' & Hc' & Hv' & Hmax' & Hfirst').
  assert (i = i') as <-.
  { destruct (Nat.lt_trichotomy i i') as [Hlt|[Heq|Hgt]]; [|done|].
    - specialize (Hfirst' _ _ Hc Hlt). specialize (Hmax _ _ Hc'). subst. lra.
    - specialize (Hfirst _ _ Hc' Hgt). specialize (Hmax' _ _ Hc). subst. lra. }
  split; [done|]. destruct Hc as [Hl _], Hc' as [Hl' _]. congruence.
Qed.

Lemma best_above_Some (threshold : Q) (l : list A) (idx : nat) (v : Q) :
  (0 < threshold)%Q ->
  best_above skip sc threshold l = Some (idx, v)
  <-> first_best skip sc l idx v /\ (threshold <= v)%Q.
Proof.
  intros Hthr. unfold best_above, accept.
  pose proof (scan_from_start l) as Hinv.
  destruct (scan skip sc l 0 None 0) as [[i|] bs]; simpl in Hinv.
  - destruct Hinv as [Hpos Hbest]. split.
    + destruct (Py.Qgeb bs threshold) eqn:Hge; [|done].
      intros [= <- <-]. by apply Qgeb_true in Hge.
    + intros [Hfb Hle].
      destruct (first_best_unique _ _ _ _ _ Hbest Hfb) as [-> ->].
      apply Qgeb_true in Hle. by rewrite Hle.
  - destruct Hinv as [-> Hall]. split; [done|].
    intros [(ft & Hc & Hv & _) Hle]. specialize (Hall _ _ Hc). subst. lra.
Qed.

Lemma best_above_None (threshold : Q) (l : list A) :
  (0 < threshold)%Q ->
  best_above skip sc threshold l = None
  <-> forall j ft, candidate skip l j ft -> (sc ft < threshold)%Q.
Proof.
  intros Hthr. unfold best_above, accept.
  pose proof (scan_from_start l) as Hinv.
  destruct (scan skip sc l 0 None 0) as [[i|] bs]; simpl in Hinv.
  - destruct Hinv as [Hpos (ft & Hc & Hv & Hmax & _)].
    destruct (Py.Qgeb bs threshold) eqn:Hge.
    + split; [done|]. intros Hall. specialize (Hall _ _ Hc).
      apply Qgeb_true in Hge. subst. lra.
    + split; [|done]. intros _ j ft' Hj. specialize (Hmax _ _ Hj).
      apply Qgeb_false in Hge. lra.
  - destruct Hinv as [-> Hall]. split; [|done].
    intros _ j ft Hj. specialize (Hall _ _ Hj). lra.
Qed.

End CandidateLoopFacts.

(** ** v10: one iteration of [match_all] *)

Section V10Matching.
Import V10.
Variable sc : summary -> full_text -> Q.

Lemma find_best_match_Some (s : summary) (fts : list full_text) (idx : nat) (v : Q) :
  find_best_match_by sc s fts = Some (idx, v)
  <-> first_best (fun _ ft => ft_used ft) (sc s) fts idx v /\ (40 <= v)%Q.
Proof. apply best_above_Some. reflexivity. Qed.

Lemma find_best_match_None (s : summary) (fts : list full_text) :
  find_best_match_by sc s fts = None
  <-> forall j ft, fts !! j = Some ft -> ft_used ft = false -> (sc s ft < 40)%Q.
Proof.
  unfold find_best_match_by. rewrite best_above_None by reflexivity.
  unfold candidate. split.
  - intros H j ft Hl Hu. by apply (H j).
  - intros H j ft [Hl Hu]. by apply (H j).
Qed.

Lemma mark_used_length (idx : nat) (fts : list full_text) :
  length (mark_used idx fts) = length fts.
Proof.
  unfold mark_used. destruct (fts !! idx); [apply length_insert|done].
Qed.

Lemma mark_used_lookup_ne (idx j : nat) (fts : list full_text) :
  j <> idx -> mark_used idx fts !! j = fts !! j.
Proof.
  intros Hne. unfold mark_used. destruct (fts !! idx); [|done].
  by apply list_lookup_insert_ne.
Qed.

Lemma mark_used_lookup_eq (idx : nat) (fts : list full_text) (ft : full_text) :
  fts !! idx = Some ft ->
  exists ft', mark_used idx fts !! idx = Some ft'
              /\ ft_used ft' = true /\ ft_text ft' = ft_text ft.
Proof.
  intros Hl. unfold mark_used. rewrite Hl.
  eexists. split.
  - apply list_lookup_insert_eq. by eapply lookup_lt_Some.
  - done.
Qed.

(** The accumulator of the loop only grows. *)
Lemma match_loop_app (ss : list summary) (fts : list full_text)
    (matched : list match_result) :
  match_loop sc ss fts matched
  = (matched ++ (match_loop sc ss fts []).1, (match_loop sc ss fts []).2).
Proof.
  revert fts matched. induction ss as [|s ss IH]; intros fts matched; simpl.
  - by rewrite app_nil_r.
  - destruct (match_one sc s fts) as [entry fts'].
    rewrite (IH fts' (matched ++ [entry])), (IH fts' [entry]).
    simpl. by rewrite <- app_assoc.
Qed.

Lemma match_all_cons (s : summary) (ss : list summary) (fts : list full_text) :
  match_all_by sc (s :: ss) fts
  = ((match_one sc s fts).1 :: (match_all_by sc ss (match_one sc s fts).2).1,
     (match_all_by sc ss (match_one sc s fts).2).2).
Proof.
  unfold match_all_by. simpl. destruct (match_one sc s fts) as [entry fts'].
  by rewrite match_loop_app.
Qed.

Lemma match_all_snoc (ss : list summary) (s : summary) (fts : list full_text) :
  match_all_by sc (ss ++ [s]) fts
  = ((match_all_by sc ss fts).1
       ++ [(match_one sc s (match_all_by sc ss fts).2).1],
     (match_one sc s (match_all_by sc ss fts).2).2).
Proof.
  revert fts. induction ss as [|s' ss IH]; intros fts.
  - simpl. unfold match_all_by. simpl. by destruct (match_one sc s fts).
  - simpl. rewrite !match_all_cons. simpl. by rewrite IH.
Qed.

(** What one iteration does to the store. *)
Lemma match_one_store (s : summary) (fts : list full_text) :
  let r := (match_one sc s fts).1 in
  let fts' := (match_one sc s fts).2 in
  mr_summary r = s
  /\ length fts' = length fts
  /\ match mr_full_text r with
     | Some idx =>
       (40 <= mr_score r)%Q
       /\ first_best (fun _ ft => ft_used ft) (sc s) fts idx (mr_score r)
       /\ fts' = mark_used idx fts
     | None => mr_score r = 0%Q /\ fts' = fts
     end.
Proof.
  unfold match_one.
  destruct (find_best_match_by sc s fts) as [[idx v]|] eqn:E; simpl.
  - apply find_best_match_Some in E as [Hfb Hle].
    split; [done|]. split; [apply mark_used_length|]. done.
  - done.
Qed.

End V10Matching.

(** ** v10: the invariant of [match_all] *)

Section V10Invariant.
Import V10.
Variable sc : summary -> full_text -> Q.

Lemma match_all_inv (ss : list summary) (fts : list full_text) :
  let rs := (match_all_by sc ss fts).1 in
  let fin := (match_all_by sc ss fts).2 in
  length fin = length fts
  /\ (forall j ft, fts !! j = Some ft ->
        exists ft', fin !! j = Some ft' /\ ft_text ft' = ft_text ft
                    /\ (ft_used ft' = true
                        <-> ft_used ft = true \/ j ∈ omap mr_full_text rs))
  /\ NoDup (omap mr_full_text rs)
  /\ (forall idx, idx ∈ omap mr_full_text rs ->
        exists ft, fts !! idx = Some ft /\ ft_used ft = false)
  /\ Forall2 (result_shape fin) ss rs.
Proof.
  revert fts. induction ss as [|s ss IH]; intros fts.
  - simpl. split; [done|]. split.
    { intros j ft Hl. exists ft. split; [done|]. split; [done|].
      split; [by left|]. intros [H|H]; [done|]. by apply elem_of_nil in H. }
    split; [constructor|]. split; [|constructor].
    intros idx H. by apply elem_of_nil in H.
  - rewrite match_all_cons. simpl.
    pose proof (match_one_store sc s fts) as Hone. simpl in Hone.
    destruct (match_one sc s fts) as [r fts']. simpl in *.
    destruct Hone as (Hsum & Hlen & Hres).
    specialize (IH fts'). simpl in IH.
    destruct (match_all_by sc ss fts') as [rs fin]. simpl in *.
    destruct IH as (IHlen & IHstore & IHnd & IHunused & IHall).
    destruct (mr_full_text r) as [idx|] eqn:Hidx.
    + destruct Hres as (Hscore & (ft0 & [Hl0 Hu0] & _) & ->).
      destruct (mark_used_lookup_eq idx fts ft0 Hl0) as (ft1 & Hl1 & Hu1 & Ht1).
      assert (Hfresh : idx ∉ omap mr_full_text rs).
      { intros Hin. destruct (IHunused _ Hin) as (ft & Hl & Hu). congruence. }
      split; [by rewrite IHlen, mark_used_length|]. split.
      { intros j ft Hl. destruct (decide (j = idx)) as [->|Hne].
        - assert (ft = ft0) as -> by congruence.
          destruct (IHstore _ _ Hl1) as (ft' & Hl' & Ht' & Hu').
          exists ft'. split; [done|]. split; [congruence|]. split.
          + intros _. right. by left.
          + intros _. apply Hu'. by left.
        - rewrite <- (mark_used_lookup_ne idx j fts Hne) in Hl.
          destruct (IHstore _ _ Hl) as (ft' & Hl' & Ht' & Hu').
          exists ft'. split; [done|]. split; [done|].
          rewrite Hu', elem_of_cons. split.
          + intros [?|?]; [by left|right; by right].
          + intros [?|[?|?]]; [by left|done|by right]. }
      split; [by constructor|]. split.
      { intros j Hin. apply elem_of_cons in Hin as [->|Hin]; [by exists ft0|].
        destruct (IHunused _ Hin) as (ft & Hl & Hu).
        assert (j <> idx) by congruence.
        rewrite mark_used_lookup_ne in Hl by done. by exists ft. }
      constructor; [|done]. split; [done|]. left.
      destruct (IHstore _ _ Hl1) as (ft' & Hl' & _ & Hu').
      exists idx, ft'. split; [done|]. split; [done|].
      split; [apply Hu'; by left|lra].
    + destruct Hres as [Hscore ->].
      split; [done|]. split; [done|]. split; [done|]. split; [done|].
      constructor; [|done]. split; [done|]. by right.
Qed.

End V10Invariant.

(** ** v8 and v7 *)

Section V8Matching.
Import V8.
Variable sc : summary -> full_text -> Q.

Lemma v8_match_one_Some (s : summary) (fts : list full_text)
    (used : gset nat) (idx : nat) (v : Q) :
  mr_full_text (match_one sc s fts used).1 = Some idx
  /\ mr_score (match_one sc s fts used).1 = v
  <-> first_best (fun i _ => bool_decide (i ∈ used)) (sc s) fts idx v
      /\ (0.25 <= v)%Q.
Proof.
  rewrite <- (best_above_Some _ _ 0.25) by reflexivity. unfold match_one.
  destruct (best_above _ (sc s) 0.25 fts) as [[i w]|]; simpl.
  - split; [intros [[= ->] ->]; done|intros [= -> ->]; done].
  - split; [intros [[=] _]|intros [=]].
Qed.


Lemma v8_match_one_used (s : summary) (fts : list full_text) (used : gset nat) :
  mr_summary (match_one sc s fts used).1 = s
  /\ match mr_full_text (match_one sc s fts used).1 with
     | Some idx => (idx ∉ used) /\ (match_one sc s fts used).2 = {[idx]} ∪ used
     | None => (match_one sc s fts used).2 = used
     end.
Proof.
  unfold match_one.
  destruct (best_above _ (sc s) 0.25 fts) as [[i w]|] eqn:E; simpl; [|done].
  split; [done|]. split; [|done].
  apply best_above_Some in E as [(ft & [_ Hskip] & _) _]; [|reflexivity].
  by apply bool_decide_eq_false in Hskip.
Qed.

Lemma v8_match_loop_exclusive (ss : list summary) (fts : list full_text)
    (matched : list match_result) (used : gset nat) :
  NoDup (omap mr_full_text matched) ->
  (forall idx, idx ∈ omap mr_full_text matched -> idx ∈ used) ->
  NoDup (omap mr_full_text (match_loop sc ss fts matched used).1).
Proof.
  revert matched used. induction ss as [|s ss IH]; intros matched used Hnd Hsub.
  - done.
  - simpl. pose proof (v8_match_one_used s fts used) as [_ Hone].
    destruct (match_one sc s fts used) as [entry used']. simpl in Hone.
    apply IH.
    + rewrite omap_app. simpl.
      destruct (mr_full_text entry) as [idx|]; simpl.
      * destruct Hone as [Hfresh _]. apply list.NoDup_app. split; [done|].
        split; [|apply NoDup_singleton].
        intros j Hj Hj'. apply list_elem_of_singleton in Hj' as ->. auto.
      * by rewrite app_nil_r.
    + intros idx. rewrite omap_app, elem_of_app. simpl.
      destruct (mr_full_text entry) as [i|]; simpl.
      * destruct Hone as [_ ->]. rewrite list_elem_of_singleton.
        intros [H| ->]; [apply elem_of_union_r; auto|].
        apply elem_of_union_l. by apply elem_of_singleton.
      * subst used'. intros [H|H]; [auto|]. by apply elem_of_nil in H.
Qed.

End V8Matching.

Section V7Matching.
Import V7.
Variable sc : Py.str -> summary -> full_text -> Q.



End V7Matching.

(** ** v10: rendering *)

Section V10Rendering.
Import Py V10.

Lemma index_loop_app (html : str) (cur : option str) (matched : list match_result) :
  index_loop html cur matched = html ++ index_loop [] cur matched.
Proof.
  revert html cur. induction matched as [|e rest IH]; intros html cur; simpl.
  - by rewrite app_nil_r.
  - rewrite IH. rewrite (IH (_ ++ _)). by rewrite !app_assoc.
Qed.

Lemma quote_loop_blocks (store : list full_text) (html : str)
    (cur : option str) (matched : list match_result) :
  quote_loop store html cur matched
  = html ++ concat (quote_blocks store cur matched).
Proof.
  revert html cur. induction matched as [|e rest IH]; intros html cur; simpl.
  - by rewrite app_nil_r.
  - rewrite IH. by rewrite !app_assoc.
Qed.

Lemma generate_html_blocks (store : list full_text) (matched : list match_result) :
  generate_html store matched
  = html_head ++ index_loop [] None matched ++ html_mid
    ++ concat (quote_blocks store None matched) ++ html_tail.
Proof.
  unfold generate_html. rewrite quote_loop_blocks, index_loop_app.
  by rewrite <- !app_assoc.
Qed.

Lemma quote_blocks_length (store : list full_text) (cur : option str)
    (matched : list match_result) :
  length (quote_blocks store cur matched) = length matched.
Proof.
  revert cur. induction matched as [|e rest IH]; intros cur; simpl; [done|].
  by rewrite IH.
Qed.

Lemma quote_blocks_lookup (store : list full_text) (cur : option str)
    (matched : list match_result) (i : nat) (r : match_result) :
  matched !! i = Some r ->
  exists hdr,
    quote_blocks store cur matched !! i
    = Some (hdr ++ quote_entry (mr_summary r) (quote_text (deref store r))).
Proof.
  revert cur i. induction matched as [|e rest IH]; intros cur i Hl; [done|].
  destruct i as [|i]; simpl in *.
  - injection Hl as ->. by eexists.
  - by apply IH.
Qed.

Lemma quote_blocks_entry (store : list full_text) (cur : option str)
    (matched : list match_result) (i : nat) (r : match_result) :
  matched !! i = Some r ->
  exists header,
    (header = [] \/ header = sefer_header (s_sefer (mr_summary r)))
    /\ quote_blocks store cur matched !! i
       = Some (header
               ++ quote_entry (mr_summary r) (quote_text (deref store r))).
Proof.
  revert cur i. induction matched as [|e rest IH]; intros cur i Hl; [done|].
  destruct i as [|i]; simpl in *.
  - injection Hl as ->. eexists. split; [|done].
    unfold sefer_change. destruct (bool_decide _); auto.
  - by apply IH.
Qed.

Lemma word_loop_app (store : list full_text) (n i : nat)
    (matched : list match_result) (doc : list docx_item) (count : nat) :
  (word_loop store n i matched doc count).1
  = doc ++ (word_loop store n i matched [] 0).1.
Proof.
  revert i doc count. induction matched as [|e rest IH]; intros i doc count; simpl.
  - by rewrite app_nil_r.
  - destruct (deref store e) as [ft|]; [|apply IH].
    rewrite IH. rewrite (IH _ (_ : list docx_item) 1%nat).
    destruct (Z.of_nat i <? Z.of_nat n - 1)%Z; by rewrite <- !app_assoc.
Qed.

Lemma word_loop_text (store : list full_text) (n i : nat)
    (matched : list match_result) (doc : list docx_item) (count : nat)
    (k : nat) (r : match_result) (ft : full_text) :
  matched !! k = Some r -> deref store r = Some ft ->
  Paragraph (word_text ft) ∈ (word_loop store n i matched doc count).1.
Proof.
  revert i doc count k. induction matched as [|e rest IH];
    intros i doc count k Hl Hd; [done|].
  destruct k as [|k]; simpl in *.
  - injection Hl as ->. rewrite Hd. rewrite word_loop_app.
    apply elem_of_app. left.
    destruct (Z.of_nat i <? Z.of_nat n - 1)%Z; rewrite !elem_of_app;
      [left; right|right]; do 4 right; by left.
  - destruct (deref store e); by eapply IH.
Qed.

Lemma match_all_app (sc : summary -> full_text -> Q) (ss1 ss2 : list summary)
    (fts : list full_text) :
  match_all_by sc (ss1 ++ ss2) fts
  = ((match_all_by sc ss1 fts).1
       ++ (match_all_by sc ss2 (match_all_by sc ss1 fts).2).1,
     (match_all_by sc ss2 (match_all_by sc ss1 fts).2).2).
Proof.
  revert fts. induction ss1 as [|s ss1 IH]; intros fts.
  - change (match_all_by sc [] fts) with (@nil match_result, fts). simpl.
    by destruct (match_all_by sc ss2 fts).
  - simpl. rewrite !match_all_cons. simpl. by rewrite IH.
Qed.

Lemma match_all_length (sc : summary -> full_text -> Q) (ss : list summary)
    (fts : list full_text) :
  length (match_all_by sc ss fts).1 = length ss.
Proof.
  revert fts. induction ss as [|s ss IH]; intros fts; [done|].
  rewrite match_all_cons. simpl. by rewrite IH.
Qed.

Lemma match_all_lookup (sc : summary -> full_text -> Q) (ss : list summary)
    (fts : list full_text) (i : nat) (s : summary) :
  ss !! i = Some s ->
  (match_all_by sc ss fts).1 !! i
  = Some (match_one sc s (match_all_by sc (take i ss) fts).2).1.
Proof.
  intros Hl.
  rewrite <- (take_drop_middle ss i s Hl) at 1.
  rewrite match_all_app. simpl. rewrite match_all_cons. simpl.
  rewrite lookup_app_r; rewrite match_all_length, length_take_le;
    try (apply lookup_lt_Some in Hl; lia).
  by rewrite Nat.sub_diag.
Qed.

End V10Rendering.

(** ** v10: the enumeration order of the keyword sets *)

Lemma scan_ext {A B : Type} (skip : nat -> A -> bool) (skip' : nat -> B -> bool)
    (sc : A -> Q) (sc' : B -> Q) (l : list A) (l' : list B)
    (idx : nat) (best_idx : option nat) (best_score : Q) :
  Forall2 (fun a b => (forall i, skip i a = skip' i b) /\ sc a = sc' b) l l' ->
  scan skip sc l idx best_idx best_score
  = scan skip' sc' l' idx best_idx best_score.
Proof.
  intros H. revert idx best_idx best_score.
  induction H as [|a b l l' [Hskip Hsc] _ IH]; intros idx best bs; simpl; [done|].
  rewrite Hskip, Hsc. by rewrite !IH.
Qed.

Section SetOrder.
Import Py V10.

Lemma count_in_perm (ws ws' : list str) (text : str) :
  ws ≡ₚ ws' -> count_in ws text = count_in ws' text.
Proof.
  intros H. unfold count_in. apply Permutation_length.
  induction H; simpl.
  - done.
  - destruct (contains x text); [by constructor|done].
  - destruct (contains x text), (contains y text); try done; by constructor.
  - by etrans.
Qed.

Lemma add_content_points_perm (x : float) (ws ws' : list str) (text : str) :
  ws ≡ₚ ws' -> add_content_points x ws text = add_content_points x ws' text.
Proof.
  intros H. unfold add_content_points.
  rewrite (count_in_perm _ _ _ H), (Permutation_length H).
  destruct ws as [|w ws], ws' as [|w' ws']; try done.
  - by apply Permutation_nil_cons in H.
  - symmetry in H. by apply Permutation_nil_cons in H.
Qed.

Lemma score_same (s s' : summary) (ft ft' : full_text) :
  same_summary s s' -> same_passage ft ft' -> score s ft = score s' ft'.
Proof.
  intros (_ & _ & Hv & Hs & _ & Hk) (_ & Hfv & _ & Hc & _ & _).
  unfold score, score_float. rewrite Hv, Hs, Hfv, Hc.
  by rewrite (add_content_points_perm _ _ _ _ Hk).
Qed.

Lemma find_best_match_same (s s' : summary) (fts fts' : list full_text) :
  same_summary s s' -> Forall2 same_passage fts fts' ->
  find_best_match s fts = find_best_match s' fts'.
Proof.
  intros Hs Hf. unfold find_best_match, find_best_match_by, best_above.
  f_equal. apply scan_ext.
  eapply list.Forall2_impl; [exact Hf|]. intros ft ft' Hft. split.
  - intros _. apply Hft.
  - by apply score_same.
Qed.

Lemma mark_used_same (idx : nat) (fts fts' : list full_text) :
  Forall2 same_passage fts fts' ->
  Forall2 same_passage (mark_used idx fts) (mark_used idx fts').
Proof.
  intros Hf. unfold mark_used.
  destruct (fts !! idx) as [ft|] eqn:E.
  - destruct (Forall2_lookup_l _ _ _ _ _ Hf E) as (ft' & E' & Hft).
    rewrite E'. apply Forall2_insert; [done|].
    destruct Hft as (? & ? & ? & ? & ? & ?). by repeat split.
  - assert (fts' !! idx = None) as ->; [|done].
    apply lookup_ge_None. apply lookup_ge_None in E.
    by rewrite <- (list.Forall2_length _ _ _ Hf).
Qed.

Lemma match_one_same (s s' : summary) (fts fts' : list full_text) :
  same_summary s s' -> Forall2 same_passage fts fts' ->
  same_result (match_one score s fts).1 (match_one score s' fts').1
  /\ Forall2 same_passage (match_one score s fts).2 (match_one score s' fts').2.
Proof.
  intros Hs Hf. unfold match_one.
  change (find_best_match_by score) with find_best_match.
  rewrite (find_best_match_same _ _ _ _ Hs Hf).
  destruct (find_best_match s' fts') as [[idx v]|]; simpl.
  - split; [exact (conj Hs (conj eq_refl eq_refl))|by apply mark_used_same].
  - split; [exact (conj Hs (conj eq_refl eq_refl))|done].
Qed.

Lemma match_all_same (ss ss' : list summary) (fts fts' : list full_text) :
  Forall2 same_summary ss ss' -> Forall2 same_passage fts fts' ->
  Forall2 same_result (match_all ss fts).1 (match_all ss' fts').1
  /\ Forall2 same_passage (match_all ss fts).2 (match_all ss' fts').2.
Proof.
  intros Hss. revert fts fts'.
  induction Hss as [|s s' ss ss' Hs _ IH]; intros fts fts' Hf.
  - by split; [constructor|].
  - unfold match_all. rewrite !match_all_cons. simpl.
    destruct (match_one_same _ _ _ _ Hs Hf) as [Hr Hf'].
    destruct (IH _ _ Hf') as [Hrs Hfin]. split; [by constructor|done].
Qed.

Lemma same_result_pairing (rs rs' : list match_result) :
  Forall2 same_result rs rs' -> map pairing rs = map pairing rs'.
Proof.
  induction 1 as [|r r' rs rs' (Hs & Hi & Hv) _ IH]; simpl; [done|].
  rewrite IH. unfold pairing. destruct Hs as (-> & _). by rewrite Hi, Hv.
Qed.

Lemma deref_same (store store' : list full_text) (r r' : match_result) :
  Forall2 same_passage store store' -> same_result r r' ->
  quote_text (deref store r) = quote_text (deref store' r').
Proof.
  intros Hf (_ & Hi & _). unfold deref. rewrite <- Hi.
  destruct (mr_full_text r) as [idx|]; [|done].
  destruct (store !! idx) as [ft|] eqn:E.
  - destruct (Forall2_lookup_l _ _ _ _ _ Hf E) as (ft' & -> & Hft).
    simpl. destruct Hft as (_ & _ & -> & _). done.
  - assert (store' !! idx = None) as ->; [|done].
    apply lookup_ge_None. apply lookup_ge_None in E.
    by rewrite <- (list.Forall2_length _ _ _ Hf).
Qed.

Lemma summary_entry_same (s s' : summary) :
  same_summary s s' ->
  summary_entry s = summary_entry s'
  /\ (forall cur, sefer_change cur s = sefer_change cur s')
  /\ (forall text, quote_entry s text = quote_entry s' text)
  /\ s_sefer s = s_sefer s'.
Proof.
  intros (Hid & Hse & Hv & Hs & Hp & _).
  unfold summary_entry, sefer_change, quote_entry.
  by rewrite Hid, Hse, Hv, Hs, Hp.
Qed.

Lemma generate_html_same (store store' : list full_text)
    (rs rs' : list match_result) :
  Forall2 same_passage store store' -> Forall2 same_result rs rs' ->
  generate_html store rs = generate_html store' rs'.
Proof.
  intros Hf Hrs. rewrite !generate_html_blocks.
  assert (forall cur, index_loop [] cur rs = index_loop [] cur rs') as ->.
  { induction Hrs as [|r r' rs rs' Hr _ IH]; intros cur; simpl; [done|].
    destruct (summary_entry_same _ _ (proj1 Hr)) as (-> & -> & _ & ->).
    rewrite index_loop_app, (index_loop_app (_ ++ _)). by rewrite IH. }
  assert (forall cur, quote_blocks store cur rs = quote_blocks store' cur rs') as ->;
    [|done].
  induction Hrs as [|r r' rs rs' Hr _ IH]; intros cur; simpl; [done|].
  destruct (summary_entry_same _ _ (proj1 Hr)) as (_ & -> & -> & ->).
  by rewrite IH, (deref_same _ _ _ _ Hf Hr).
Qed.

Lemma get_hebrew_words_order (order1 order2 : list str -> list str) (text : str) :
  (forall l, order1 l ≡ₚ l) -> (forall l, order2 l ≡ₚ l) ->
  get_hebrew_words order1 text ≡ₚ get_hebrew_words order2 text.
Proof.
  intros H1 H2. unfold get_hebrew_words. by rewrite H1, H2.
Qed.

End SetOrder.

(** ** Stripping and [normalize_text] *)

Section Strip.
Import Py.

Lemma lstrip_Forall (P : char -> Prop) (s : str) :
  Forall P s -> Forall P (lstrip s).
Proof.
  induction 1 as [|c s Hc Hs IH]; simpl; [done|].
  destruct (isspace c); [done|by constructor].
Qed.

Lemma rstrip_Forall (P : char -> Prop) (s : str) :
  Forall P s -> Forall P (rstrip s).
Proof.
  induction 1 as [|c s Hc Hs IH]; simpl; [done|].
  destruct (rstrip s) as [|d r].
  - destruct (isspace c); [done|by constructor].
  - by constructor.
Qed.

Lemma lstrip_idemp (s : str) : lstrip (lstrip s) = lstrip s.
Proof.
  induction s as [|c s IH]; simpl; [done|].
  destruct (isspace c) eqn:E; [done|]. simpl. by rewrite E.
Qed.

Lemma lstrip_starts_clean (s : str) : starts_clean (lstrip s).
Proof.
  induction s as [|c s IH]; simpl; [done|].
  destruct (isspace c) eqn:E; [done|]. done.
Qed.

Lemma lstrip_clean (s : str) : starts_clean s -> lstrip s = s.
Proof. destruct s as [|c s]; simpl; [done|]. by intros ->. Qed.

Lemma rstrip_starts_clean (s : str) : starts_clean s -> starts_clean (rstrip s).
Proof.
  destruct s as [|c s]; simpl; [done|]. intros Hc.
  destruct (rstrip s); [by rewrite Hc|done].
Qed.

Lemma rstrip_idemp (s : str) : rstrip (rstrip s) = rstrip s.
Proof.
  induction s as [|c s IH]; simpl; [done|].
  destruct (rstrip s) as [|d r] eqn:E.
  - destruct (isspace c) eqn:Ec; simpl; [done|]. by rewrite Ec.
  - change (rstrip (c :: d :: r)) with
      (match rstrip (d :: r) with
       | [] => if isspace c then [] else [c]
       | r' => c :: r'
       end).
    by rewrite IH.
Qed.

Lemma strip_fixed (s : str) :
  lstrip (strip s) = strip s /\ rstrip (strip s) = strip s.
Proof.
  unfold strip. split; [|apply rstrip_idemp].
  apply lstrip_clean, rstrip_starts_clean, lstrip_starts_clean.
Qed.

Lemma strip_idemp (s : str) : strip (strip s) = strip s.
Proof.
  destruct (strip_fixed s) as [Hl Hr]. unfold strip at 1. by rewrite Hl, Hr.
Qed.

Lemma single_spaced_weaken (s : str) :
  single_spaced true s = true -> single_spaced false s = true.
Proof.
  destruct s as [|c s]; simpl; [done|]. by destruct (isspace c).
Qed.

Lemma lstrip_single_spaced (b : bool) (s : str) :
  single_spaced b s = true -> single_spaced false (lstrip s) = true.
Proof.
  revert b. induction s as [|c s IH]; intros b; simpl; [done|].
  destruct (isspace c) eqn:E.
  - intros H. apply andb_true_iff in H as [_ H]. by eapply IH.
  - intros H. simpl. by rewrite E.
Qed.

Lemma rstrip_single_spaced (b : bool) (s : str) :
  single_spaced b s = true -> single_spaced b (rstrip s) = true.
Proof.
  revert b. induction s as [|c s IH]; intros b; simpl; [done|].
  intros H. destruct (rstrip s) as [|d r] eqn:Er.
  - destruct (isspace c) eqn:E; [done|]. simpl. by rewrite E.
  - change (single_spaced b (c :: d :: r)) with
      (if isspace c
       then negb b && (c =? 32)%N && single_spaced true (d :: r)
       else single_spaced false (d :: r)).
    destruct (isspace c).
    + apply andb_true_iff in H as [H1 H2]. rewrite H1, andb_true_l. by apply IH.
    + by apply IH.
Qed.

Lemma sub_ws_single_spaced (b : bool) (s : str) :
  single_spaced b (sub_ws_from b s) = true.
Proof.
  revert b. induction s as [|c s IH]; intros b; simpl; [done|].
  destruct (isspace c) eqn:E.
  - destruct b; [apply IH|]. simpl. apply IH.
  - simpl. rewrite E. apply IH.
Qed.

Lemma sub_ws_fixed (b : bool) (s : str) :
  single_spaced b s = true -> sub_ws_from b s = s.
Proof.
  revert b. induction s as [|c s IH]; intros b; simpl; [done|].
  destruct (isspace c) eqn:E.
  - intros H. apply andb_true_iff in H as [H Hs].
    apply andb_true_iff in H as [Hb Hc]. destruct b; [done|].
    apply N.eqb_eq in Hc as ->. by rewrite IH.
  - intros H. by rewrite IH.
Qed.

Lemma single_spaced_no_adjacent (b : bool) (s : str) :
  single_spaced b s = true -> no_adjacent_ws s.
Proof.
  unfold no_adjacent_ws. revert b.
  induction s as [|c s IH]; intros b; simpl; [constructor|].
  intros H. destruct s as [|d s]; [constructor|]. simpl.
  constructor.
  - simpl in H. destruct (isspace c); [|done].
    apply andb_true_iff in H as [_ H]. by destruct (isspace d).
  - destruct (isspace c).
    + apply andb_true_iff in H as [_ H]. by eapply (IH true).
    + by eapply (IH false).
Qed.

Lemma sub_ws_Forall (P : char -> Prop) (b : bool) (s : str) :
  P 32%N -> Forall P s -> Forall P (sub_ws_from b s).
Proof.
  intros H32 Hs. revert b.
  induction Hs as [|c s Hc Hs IH]; intros b; simpl; [done|].
  destruct (isspace c); [destruct b|]; try constructor; auto.
Qed.

Lemma remove_class_fixed (cls : char -> bool) (s : str) :
  Forall (fun c => cls c = false) s -> remove_class cls s = s.
Proof.
  unfold remove_class. induction 1 as [|c s Hc Hs IH]; simpl; [done|].
  by rewrite Hc, IH.
Qed.

Lemma blank_class_fixed (cls : char -> bool) (s : str) :
  Forall (fun c => cls c = false) s -> blank_class cls s = s.
Proof.
  unfold blank_class. induction 1 as [|c s Hc Hs IH]; simpl; [done|].
  by rewrite Hc, IH.
Qed.

Lemma remove_class_Forall (cls : char -> bool) (s : str) :
  Forall (fun c => cls c = false) (remove_class cls s).
Proof.
  unfold remove_class. induction s as [|c s IH]; simpl; [done|].
  destruct (cls c) eqn:E; simpl; [done|by constructor].
Qed.

End Strip.

Section NormalizeText.
Import Py Mapper.

Lemma blank_punct_Forall (s : str) :
  Forall (fun c => is_nikud c = false) s ->
  Forall (fun c => is_nikud c = false) (blank_class is_punct s)
  /\ Forall (fun c => is_punct c = false) (blank_class is_punct s).
Proof.
  unfold blank_class. induction 1 as [|c s Hc Hs [IH1 IH2]]; simpl; [done|].
  destruct (is_punct c) eqn:E; split; by constructor.
Qed.

Lemma normalize_text_tidy (s : str) :
  Forall (fun c => is_nikud c = false) (normalize_text s)
  /\ Forall (fun c => is_punct c = false) (normalize_text s)
  /\ single_spaced false (normalize_text s) = true.
Proof.
  unfold normalize_text, strip, sub_ws.
  destruct (blank_punct_Forall _ (remove_class_Forall is_nikud s)) as [H1 H2].
  split; [|split].
  - by apply rstrip_Forall, lstrip_Forall, sub_ws_Forall.
  - by apply rstrip_Forall, lstrip_Forall, sub_ws_Forall.
  - apply rstrip_single_spaced, (lstrip_single_spaced false), sub_ws_single_spaced.
Qed.

Lemma normalize_text_idemp (s : str) :
  normalize_text (normalize_text s) = normalize_text s.
Proof.
  destruct (normalize_text_tidy s) as (H1 & H2 & H3).
  unfold normalize_text at 1.
  rewrite (remove_class_fixed _ _ H1), (blank_class_fixed _ _ H2).
  unfold sub_ws. rewrite (sub_ws_fixed _ _ H3).
  unfold normalize_text. apply strip_idemp.
Qed.

End NormalizeText.

(** ** parse_summaries_to_content *)

Section Binary64.
Import Py.

Lemma two_power_pos (e : Z) : (0 < 2 ^ e)%Q.
Proof. by apply Qpower_0_lt. Qed.

Lemma two_power_le (e1 e2 : Z) : (e1 <= e2)%Z -> (2 ^ e1 <= 2 ^ e2)%Q.
Proof. intros H. by apply Qpower_le_compat_l. Qed.

Lemma two_power_sub (x y : Z) :
  (0 <= x)%Z -> (0 <= y)%Z ->
  (2 ^ (x - y) == inject_Z (2 ^ x) / inject_Z (2 ^ y))%Q.
Proof.
  intros Hx Hy. rewrite Qpower_minus by done.
  by rewrite !Zpower_Qpower.
Qed.

Lemma frac_le (a b c d : Z) :
  (0 < b)%Z -> (0 < d)%Z -> (a * d <= c * b)%Z ->
  (inject_Z a / inject_Z b <= inject_Z c / inject_Z d)%Q.
Proof.
  intros Hb Hd H. destruct b as [|b|b]; try lia. destruct d as [|d|d]; try lia.
  unfold Qle, Qdiv, Qmult, Qinv, inject_Z. simpl. lia.
Qed.

Lemma frac_lt (a b c d : Z) :
  (0 < b)%Z -> (0 < d)%Z -> (a * d < c * b)%Z ->
  (inject_Z a / inject_Z b < inject_Z c / inject_Z d)%Q.
Proof.
  intros Hb Hd H. destruct b as [|b|b]; try lia. destruct d as [|d|d]; try lia.
  unfold Qlt, Qdiv, Qmult, Qinv, inject_Z. simpl. lia.
Qed.

Lemma exponent_spec (a : Q) :
  (0 < a)%Q -> (2 ^ exponent a <= a)%Q /\ (a < 2 ^ (exponent a + 1))%Q.
Proof.
  intros Ha. destruct a as [n d]. unfold exponent. cbn [Qnum Qden].
  assert (Hn : (0 < n)%Z) by (unfold Qlt in Ha; simpl in Ha; lia).
  set (ln := Z.log2 n). set (ld := Z.log2 (Z.pos d)). set (k := (ln - ld)%Z).
  destruct (Z.log2_spec n Hn) as [Hn1 Hn2].
  destruct (Z.log2_spec (Z.pos d) ltac:(lia)) as [Hd1 Hd2].
  fold ln in Hn1, Hn2. fold ld in Hd1, Hd2.
  assert (Hln : (0 <= ln)%Z) by apply Z.log2_nonneg.
  assert (Hld : (0 <= ld)%Z) by apply Z.log2_nonneg.
  assert (H2n : (0 < 2 ^ ln)%Z) by (apply Z.pow_pos_nonneg; lia).
  assert (H2d : (0 < 2 ^ ld)%Z) by (apply Z.pow_pos_nonneg; lia).
  assert (Hdiv : (n # d == inject_Z n / inject_Z (Z.pos d))%Q)
    by apply Qmake_Qdiv.
  assert (Hup : (n # d < 2 ^ (k + 1))%Q).
  { replace (k + 1)%Z with (Z.succ ln - ld)%Z by lia.
    rewrite two_power_sub, Hdiv by lia. apply frac_lt; [lia|lia|]. nia. }
  assert (Hlow : (2 ^ (k - 1) <= n # d)%Q).
  { replace (k - 1)%Z with (ln - Z.succ ld)%Z by lia.
    rewrite two_power_sub, Hdiv by lia. apply frac_le; [lia|lia|]. nia. }
  destruct (Qle_bool (2 ^ k) (n # d)) eqn:E.
  - apply Qle_bool_iff in E. done.
  - split; [done|]. replace (k - 1 + 1)%Z with k by lia.
    apply Qnot_le_lt. intros H. apply Qle_bool_iff in H. congruence.
Qed.

Lemma exponent_mono (a b : Q) :
  (0 < a)%Q -> (a <= b)%Q -> (exponent a <= exponent b)%Z.
Proof.
  intros Ha Hab.
  destruct (exponent_spec a Ha) as [Ha1 _].
  destruct (exponent_spec b) as [_ Hb2]; [lra|].
  assert (H : (2 ^ exponent a < 2 ^ (exponent b + 1))%Q) by lra.
  apply Qpower_lt_compat_l_inv in H; [lia|lra].
Qed.

Lemma round_half_even_bounds (x : Q) :
  (Qfloor x <= round_half_even x <= Qfloor x + 1)%Z.
Proof.
  unfold round_half_even.
  destruct (x - inject_Z (Qfloor x) ?= 1 # 2)%Q; [destruct (Z.even _)|..]; lia.
Qed.

Lemma round_half_even_mono (x y : Q) :
  (x <= y)%Q -> (round_half_even x <= round_half_even y)%Z.
Proof.
  intros Hxy. pose proof (Qfloor_resp_le _ _ Hxy) as Hf.
  pose proof (round_half_even_bounds x). pose proof (round_half_even_bounds y).
  destruct (Z.eq_dec (Qfloor x) (Qfloor y)) as [E|E]; [|lia].
  unfold round_half_even. rewrite <- E.
  destruct (Qcompare_spec (x - inject_Z (Qfloor x)) (1 # 2)) as [H1|H1|H1];
    destruct (Qcompare_spec (y - inject_Z (Qfloor x)) (1 # 2)) as [H2|H2|H2];
    try destruct (Z.even (Qfloor x)); try lia; try lra.
Qed.

Lemma round_half_even_ge (n : Z) (x : Q) :
  (inject_Z n <= x)%Q -> (n <= round_half_even x)%Z.
Proof.
  intros H. pose proof (round_half_even_bounds x).
  apply Qfloor_resp_le in H. rewrite Qfloor_Z in H. lia.
Qed.

Lemma round_half_even_le (n : Z) (x : Q) :
  (x <= inject_Z n)%Q -> (round_half_even x <= n)%Z.
Proof.
  intros H. pose proof (round_half_even_bounds x) as Hb.
  pose proof (Qfloor_resp_le _ _ H) as Hf. rewrite Qfloor_Z in Hf.
  destruct (Z.eq_dec (Qfloor x) n) as [E|E]; [|lia].
  unfold round_half_even. rewrite E.
  pose proof (Qfloor_le x) as Hx. rewrite E in Hx.
  destruct (Qcompare_spec (x - inject_Z n) (1 # 2)) as [H1|H1|H1];
    [lra|lia|lra].
Qed.

Lemma round_pos_mono (a b : Q) :
  (0 < a)%Q -> (a <= b)%Q -> (round_pos a <= round_pos b)%Q.
Proof.
  intros Ha Hab. assert (Hb : (0 < b)%Q) by lra.
  pose proof (exponent_mono a b Ha Hab) as Hk.
  destruct (exponent_spec a Ha) as [Ha1 Ha2].
  destruct (exponent_spec b Hb) as [Hb1 Hb2].
  unfold round_pos.
  set (e1 := Z.max (exponent a - 52) (-1074)).
  set (e2 := Z.max (exponent b - 52) (-1074)).
  pose proof (two_power_pos e1) as He1. pose proof (two_power_pos e2) as He2.
  destruct (Z.eq_dec e1 e2) as [E|E].
  - rewrite <- E. apply Qmult_le_compat_r; [|lra].
    rewrite <- Zle_Qle. apply round_half_even_mono.
    apply Qmult_le_compat_r; [done|]. apply Qlt_le_weak, Qinv_lt_0_compat, He1.
  - assert (He : (e1 + 1 <= e2)%Z) by lia.
    assert (He2' : e2 = (exponent b - 52)%Z) by lia.
    apply Qle_trans with (2 ^ (e1 + 53))%Q; [|apply Qle_trans with (2 ^ (e2 + 52))%Q].
    + rewrite Qpower_plus by done. rewrite (Qmult_comm (2 ^ e1)).
      apply Qmult_le_compat_r; [|lra].
      change (2 ^ 53)%Q with (inject_Z (2 ^ 53)). rewrite <- Zle_Qle.
      apply round_half_even_le. apply Qle_shift_div_r; [done|].
      change (inject_Z (2 ^ 53)) with (2 ^ 53)%Q.
      rewrite <- Qpower_plus by done.
      apply Qle_trans with (2 ^ (exponent a + 1))%Q; [lra|].
      apply two_power_le. lia.
    + apply two_power_le. lia.
    + rewrite Qpower_plus by done. rewrite (Qmult_comm (2 ^ e2)).
      apply Qmult_le_compat_r; [|lra].
      change (2 ^ 52)%Q with (inject_Z (2 ^ 52)). rewrite <- Zle_Qle.
      apply round_half_even_ge. apply Qle_shift_div_l; [done|].
      change (inject_Z (2 ^ 52)) with (2 ^ 52)%Q.
      rewrite <- Qpower_plus by done.
      replace (52 + e2)%Z with (exponent b) by lia. done.
Qed.

Lemma round_pos_nonneg (a : Q) : (0 < a)%Q -> (0 <= round_pos a)%Q.
Proof.
  intros Ha. unfold round_pos.
  apply Qmult_le_0_compat; [|apply Qlt_le_weak, two_power_pos].
  change 0%Q with (inject_Z 0). rewrite <- Zle_Qle.
  apply round_half_even_ge.
  apply Qle_shift_div_l; [apply two_power_pos|].
  change (inject_Z 0) with 0%Q. rewrite Qmult_0_l. lra.
Qed.

(** Rounding keeps the order of the numbers that are not negative. *)
Lemma round64_mono (x y : Q) :
  (0 <= x)%Q -> (x <= y)%Q -> (0 <= round64 x <= round64 y)%Q.
Proof.
  intros Hx Hxy. unfold round64.
  destruct (Qcompare_spec x 0) as [H1|H1|H1];
    destruct (Qcompare_spec y 0) as [H2|H2|H2]; try lra;
    rewrite ?Qred_correct.
  - split; [lra|]. by apply round_pos_nonneg.
  - split; [by apply round_pos_nonneg|]. by apply round_pos_mono.
Qed.

Lemma fadd_mono (x y x' y' : Q) :
  (0 <= x <= x')%Q -> (0 <= y <= y')%Q -> (0 <= fadd x y <= fadd x' y')%Q.
Proof. intros Hx Hy. apply round64_mono; lra. Qed.

Lemma fmul_mono (x y x' y' : Q) :
  (0 <= x <= x')%Q -> (0 <= y <= y')%Q -> (0 <= fmul x y <= fmul x' y')%Q.
Proof.
  intros Hx Hy. apply round64_mono; [apply Qmult_le_0_compat; lra|].
  apply Qle_trans with (x' * y)%Q.
  - apply Qmult_le_compat_r; lra.
  - rewrite !(Qmult_comm x'). apply Qmult_le_compat_r; lra.
Qed.

(** A float that is above the float of a literal is above the number the
    literal writes: no float lies between the two. *)
Lemma above_float_lit (q x : Q) :
  (round64 x == x)%Q -> (float_lit q < x)%Q -> (0 <= x)%Q -> (q < x)%Q.
Proof.
  intros Hx Hlt H0. destruct (Qlt_le_dec q x) as [H|H]; [done|].
  destruct (round64_mono x q H0 H) as [_ Hle].
  unfold float_lit in Hlt. rewrite Hx in Hle. lra.
Qed.

Lemma float_lit_between (lo q hi : Q) :
  Qle_bool lo (float_lit q) && Qle_bool (float_lit q) hi = true ->
  (lo <= float_lit q <= hi)%Q.
Proof.
  intros H. apply andb_true_iff in H as [H1 H2].
  by apply Qle_bool_iff in H1, H2.
Qed.

End Binary64.

Section MapperFacts.
Import Py Mapper.
Variable ratio : str -> str -> Q.

Lemma pymax_cases (a b : Q) : pymax a b = a \/ pymax a b = b.
Proof. unfold pymax. destruct (Qgtb b a); auto. Qed.

Lemma pymax_range (a b lo hi : Q) :
  (lo <= a <= hi)%Q -> (lo <= b <= hi)%Q -> (lo <= pymax a b <= hi)%Q.
Proof. intros Ha Hb. by destruct (pymax_cases a b) as [-> | ->]. Qed.

Lemma Qle_by_computation (x y : Q) : Qle_bool x y = true -> (x <= y)%Q.
Proof. apply Qle_bool_iff. Qed.

(** The page signal adds at most 0.3: from a score that is at most [hi],
    it leads to one that is at most [hi + 0.3], both sums being rounded. *)
Lemma add_page_points_range (score hi : Q) (summary : Summary)
    (section : ContentSection) :
  (0 <= score <= hi)%Q -> (hi <= fadd hi (float_lit 0.3))%Q ->
  (0 <= add_page_points score summary section <= fadd hi (float_lit 0.3))%Q.
Proof.
  intros Hs Hhi. unfold add_page_points.
  assert (H3 : (0 <= float_lit 0.3 <= float_lit 0.3)%Q)
    by (apply float_lit_between; vm_compute; reflexivity).
  assert (H2 : (0 <= float_lit 0.2 <= float_lit 0.3)%Q)
    by (apply float_lit_between; vm_compute; reflexivity).
  assert (H1 : (0 <= float_lit 0.1 <= float_lit 0.3)%Q)
    by (apply float_lit_between; vm_compute; reflexivity).
  destruct (page_ref summary), (page_number section); try lra.
  repeat match goal with |- context [if ?b then _ else _] => destruct b end;
    try lra; by apply fadd_mono.
Qed.

Lemma best_section_from (summary : Summary)
    (author_sections : list (ContentSection * Q))
    (best_match : option ContentSection) (best_score : Q)
    (c : ContentSection) (v : Q) :
  best_section ratio summary author_sections best_match best_score
  = (Some c, v) ->
  (best_match = Some c /\ best_score = v)
  \/ exists author_sim,
       (c, author_sim) ∈ author_sections
       /\ v = section_score ratio summary c author_sim
       /\ (best_score < v)%Q.
Proof.
  revert best_match best_score.
  induction author_sections as [|[section sim] rest IH];
    intros best bs; simpl.
  - intros [= -> ->]. by left.
  - destruct (Qgtb _ bs) eqn:E; intros H; apply IH in H.
    + apply Qgtb_true in E. right.
      destruct H as [[[= ->] <-]|(a & Hin & -> & Hlt)].
      * exists sim. split; [by left|]. done.
      * exists a. split; [by right|]. split; [done|lra].
    + destruct H as [H|(a & Hin & -> & Hlt)]; [by left|].
      right. exists a. split; [by right|]. done.
Qed.

Lemma author_sections_spec (summary : Summary)
    (content_sections : list ContentSection) (c : ContentSection) (sim : Q) :
  (c, sim) ∈ author_sections_of ratio summary content_sections
  <-> c ∈ content_sections
      /\ sim = similarity_score ratio (section_author c) (author summary)
      /\ (float_lit 0.7 < sim)%Q.
Proof.
  unfold author_sections_of. rewrite list_elem_of_omap. split.
  - intros (x & Hin & H). destruct (Qgtb _ (float_lit 0.7)) eqn:E; [|done].
    injection H as -> <-. by apply Qgtb_true in E.
  - intros (Hin & -> & Hlt). exists c. split; [done|].
    apply Qgtb_true in Hlt. by rewrite Hlt.
Qed.

Lemma map_summary_matched (content_sections : list ContentSection)
    (summary : Summary) (c : ContentSection) :
  matched_content (map_summary ratio content_sections summary) = Some c ->
  matched_content summary = Some c
  \/ (c ∈ content_sections
      /\ (float_lit 0.7
          < similarity_score ratio (section_author c) (author summary))%Q
      /\ match_confidence (map_summary ratio content_sections summary)
         = section_score ratio summary c
             (similarity_score ratio (section_author c) (author summary))
      /\ (0.25 < match_confidence
                   (map_summary ratio content_sections summary))%Q).
Proof.
  unfold map_summary.
  destruct (author_sections_of ratio summary content_sections)
    as [|p rest] eqn:E; [by left|].
  rewrite <- E.
  destruct (best_section ratio summary _ None 0) as [[b|] v] eqn:Eb;
    [|by left].
  destruct (Qgtb v 0.25) eqn:Ev; [|by left]. simpl. intros [= ->].
  apply best_section_from in Eb as [[[=] _]|(sim & Hin & -> & _)].
  apply author_sections_spec in Hin as (Hin & -> & Hsim).
  right. apply Qgtb_true in Ev. done.
Qed.

Hypothesis ratio_range : forall a b, (0 <= ratio a b <= 1)%Q.

Lemma phrase_loop_range (opening : str) (phrases : list str) (best : Q) :
  (0 <= best <= 1)%Q ->
  (0 <= phrase_loop ratio opening phrases best <= 1)%Q.
Proof.
  revert best. induction phrases as [|phrase rest IH]; intros best Hb; simpl.
  - done.
  - destruct (bool_decide _); [lra|].
    destruct (contains opening _).
    { apply IH, pymax_range; [done|].
      apply float_lit_between. vm_compute. reflexivity. }
    destruct (contains _ opening).
    { apply IH, pymax_range; [done|].
      apply float_lit_between. vm_compute. reflexivity. }
    destruct (Qgtb _ (float_lit 0.7)); [|by apply IH].
    apply IH, pymax_range; [done|]. apply ratio_range.
Qed.

Lemma section_score_range (summary : Summary) (section : ContentSection)
    (author_sim : Q) :
  (0 <= author_sim <= 1)%Q ->
  (0 <= section_score ratio summary section author_sim <= full_score)%Q.
Proof.
  intros Ha. unfold section_score, full_score.
  pose proof (phrase_loop_range (normalize_text (opening_words summary))
                (opening_phrases section) 0 ltac:(lra)) as Hp.
  set (best := phrase_loop _ _ _ _) in *.
  assert (H4 : (0 <= float_lit 0.4 <= float_lit 0.4)%Q)
    by (apply float_lit_between; vm_compute; reflexivity).
  assert (H15 : (0 <= float_lit 0.15 <= float_lit 0.15)%Q)
    by (apply float_lit_between; vm_compute; reflexivity).
  assert (H3 : (0 <= float_lit 0.3 <= float_lit 0.3)%Q)
    by (apply float_lit_between; vm_compute; reflexivity).
  set (hi1 := fadd 0 (fmul 1 (float_lit 0.4))).
  set (hi2 := fadd hi1 (float_lit 0.15)).
  assert (H1 : (0 <= fadd 0 (fmul best (float_lit 0.4)) <= hi1)%Q).
  { apply fadd_mono; [lra|]. apply fmul_mono; lra. }
  set (score1 := fadd 0 (fmul best (float_lit 0.4))) in *.
  assert (H2 : (0 <= (if contains (normalize_text (opening_words summary))
                           (normalize_text (text section))
                      then fadd score1 (float_lit 0.15) else score1)
                <= hi2)%Q).
  { destruct (contains _ _); [by apply fadd_mono|].
    assert (hi1 <= hi2)%Q
      by (apply Qle_by_computation; vm_compute; reflexivity).
    lra. }
  set (score2 := if contains _ _ then _ else _) in *.
  assert (H3' : (0 <= add_page_points score2 summary section
                 <= fadd hi2 (float_lit 0.3))%Q).
  { apply add_page_points_range; [done|].
    apply Qle_by_computation. vm_compute. reflexivity. }
  apply fadd_mono; [done|]. apply fmul_mono; lra.
Qed.

End MapperFacts.

(** ** The OCR retry loops *)

Section OcrFacts.
Import Py Ocr.

Lemma not_last_true (attempt max_retries : nat) :
  not_last attempt max_retries = true <-> (S attempt < max_retries)%nat.
Proof. unfold not_last. rewrite Z.ltb_lt. lia. Qed.

Lemma not_last_false (attempt max_retries : nat) :
  not_last attempt max_retries = false <-> (max_retries <= S attempt)%nat.
Proof. unfold not_last. rewrite Z.ltb_ge. lia. Qed.

Lemma error_record_keys (e : str) (page_num : Z) :
  error_record e page_num !! "error" = Some (VStr e)
  /\ error_record e page_num !! "page" = Some (VInt page_num).
Proof. unfold error_record. split; by simplify_map_eq. Qed.

Lemma text_record_keys (page_num : Z) (content : str) :
  text_record page_num content !! "text" = Some (VStr content)
  /\ text_record page_num content !! "page" = Some (VInt page_num)
  /\ text_record page_num content !! "error" = None.
Proof. unfold text_record. repeat split; by simplify_map_eq. Qed.

Lemma attempts_log_S (page_num : Z) (first n : nat) :
  (0 < n)%nat ->
  attempts_log page_num first (S n)
  = Post page_num first :: Sleep 5 :: attempts_log page_num (S first) n.
Proof. destruct n; [lia|done]. Qed.

Lemma loop_post_return (page_num : Z) (attempt remaining : nat)
    (log : list event) (r : gmap string value) :
  r !! "page" = Some (VInt page_num) ->
  is_Some (r !! "error") \/ is_Some (r !! "text") ->
  loop_post page_num attempt (S remaining) log
            (r, log ++ [Post page_num attempt]).
Proof.
  intros Hp He. split; [done|]. split; [done|].
  exists 1%nat. split; [lia|]. split; [lia|]. done.
Qed.

Lemma loop_post_retry (page_num : Z) (attempt remaining : nat)
    (log : list event) (out : gmap string value * list event) :
  (0 < remaining)%nat ->
  loop_post page_num (S attempt) remaining
            ((log ++ [Post page_num attempt]) ++ [Sleep 5]) out ->
  loop_post page_num attempt (S remaining) log out.
Proof.
  intros Hr (Hp & He & n & Hn & Hpos & Hlog).
  split; [done|]. split; [done|]. exists (S n).
  split; [lia|]. split; [lia|].
  rewrite Hlog, attempts_log_S by lia. by rewrite <- !app_assoc.
Qed.

Lemma gemini_loop_post (http : nat -> attempt_outcome) (page_num : Z)
    (max_retries attempt remaining : nat) (log : list event) :
  (attempt + remaining = max_retries)%nat ->
  loop_post page_num attempt remaining log
    (gemini_loop http page_num max_retries attempt remaining log).
Proof.
  revert attempt log. induction remaining as [|remaining IH];
    intros attempt log Hsum; simpl.
  - split; [apply error_record_keys|]. split.
    + left. eexists. apply error_record_keys.
    + exists 0%nat. split; [lia|]. split; [lia|]. by rewrite app_nil_r.
  - assert (Hretry : forall b, b = not_last attempt max_retries -> b = true ->
              (0 < remaining)%nat).
    { intros b -> H. apply not_last_true in H. lia. }
    destruct (http attempt) as [e|code text [content|e]];
      repeat match goal with
      | |- context [negb ?b] => destruct b; simpl
      | |- context [if not_last ?a ?m then _ else _] =>
        destruct (not_last a m) eqn:?
      end;
      try (apply loop_post_retry; [eauto|apply IH; lia]);
      apply loop_post_return;
      try apply error_record_keys; try apply text_record_keys;
      try (left; eexists; apply error_record_keys);
      try (right; eexists; apply text_record_keys).
Qed.

Lemma flash_loop_post (http : nat -> attempt_outcome) (page_num : Z)
    (max_retries attempt remaining : nat) (log : list event) :
  (attempt + remaining = max_retries)%nat ->
  loop_post page_num attempt remaining log
    (flash_loop http page_num max_retries attempt remaining log).
Proof.
  revert attempt log. induction remaining as [|remaining IH];
    intros attempt log Hsum; simpl.
  - split; [apply error_record_keys|]. split.
    + left. eexists. apply error_record_keys.
    + exists 0%nat. split; [lia|]. split; [lia|]. by rewrite app_nil_r.
  - assert (Hretry : forall b, b = not_last attempt max_retries -> b = true ->
              (0 < remaining)%nat).
    { intros b -> H. apply not_last_true in H. lia. }
    destruct (http attempt) as [e|code text [content|e]];
      repeat match goal with
      | |- context [negb ?b] => destruct b; simpl
      | |- context [(length ?s <? 100)%nat] =>
        destruct (length s <? 100)%nat; simpl
      | |- context [if not_last ?a ?m then _ else _] =>
        destruct (not_last a m) eqn:?
      end;
      try (apply loop_post_retry; [eauto|apply IH; lia]);
      apply loop_post_return;
      try apply error_record_keys; try apply text_record_keys;
      try (left; eexists; apply error_record_keys);
      try (right; eexists; apply text_record_keys).
Qed.

Lemma error_record_failed (page_num : Z) (attempt : nat) (log : list event)
    (e : str) :
  loop_failed page_num attempt 1 log
    (error_record e page_num, log ++ [Post page_num attempt]).
Proof.
  split; [eexists; apply error_record_keys|]. split; [|done].
  unfold error_record. simpl. by simplify_map_eq.
Qed.

Lemma loop_failed_retry (page_num : Z) (attempt remaining : nat)
    (log : list event) (out : gmap string value * list event) :
  (0 < remaining)%nat ->
  loop_failed page_num (S attempt) remaining
              ((log ++ [Post page_num attempt]) ++ [Sleep 5]) out ->
  loop_failed page_num attempt (S remaining) log out.
Proof.
  intros Hr (He & Ht & Hlog). split; [done|]. split; [done|].
  rewrite Hlog, attempts_log_S by lia. by rewrite <- !app_assoc.
Qed.

Lemma gemini_loop_failed (http : nat -> attempt_outcome) (page_num : Z)
    (max_retries attempt remaining : nat) (log : list event) :
  (attempt + remaining = max_retries)%nat -> (0 < remaining)%nat ->
  (forall k, (attempt <= k < max_retries)%nat -> failed (http k) = true) ->
  loop_failed page_num attempt remaining log
    (gemini_loop http page_num max_retries attempt remaining log).
Proof.
  revert attempt log. induction remaining as [|remaining IH];
    intros attempt log Hsum Hpos Hall; [lia|]. simpl.
  pose proof (Hall attempt ltac:(lia)) as Hf.
  destruct (not_last attempt max_retries) eqn:Hl.
  - apply not_last_true in Hl.
    assert (loop_failed page_num attempt (S remaining) log
              (gemini_loop http page_num max_retries (S attempt) remaining
                 ((log ++ [Post page_num attempt]) ++ [Sleep 5]))) as Hrec.
    { apply loop_failed_retry; [lia|]. apply IH; [lia|lia|].
      intros k Hk. apply Hall. lia. }
    destruct (http attempt) as [e|code text [content|e]]; simpl in Hf.
    + exact Hrec.
    + rewrite orb_false_r in Hf. by rewrite Hf.
    + by destruct (negb _).
  - apply not_last_false in Hl. assert (remaining = 0)%nat as -> by lia.
    destruct (http attempt) as [e|code text [content|e]]; simpl in Hf.
    + apply error_record_failed.
    + rewrite orb_false_r in Hf. rewrite Hf. apply error_record_failed.
    + destruct (negb _); apply error_record_failed.
Qed.

Lemma flash_loop_failed (http : nat -> attempt_outcome) (page_num : Z)
    (max_retries attempt remaining : nat) (log : list event) :
  (attempt + remaining = max_retries)%nat -> (0 < remaining)%nat ->
  (forall k, (attempt <= k < max_retries)%nat -> failed (http k) = true) ->
  loop_failed page_num attempt remaining log
    (flash_loop http page_num max_retries attempt remaining log).
Proof.
  revert attempt log. induction remaining as [|remaining IH];
    intros attempt log Hsum Hpos Hall; [lia|]. simpl.
  pose proof (Hall attempt ltac:(lia)) as Hf.
  destruct (not_last attempt max_retries) eqn:Hl.
  - apply not_last_true in Hl.
    assert (loop_failed page_num attempt (S remaining) log
              (flash_loop http page_num max_retries (S attempt) remaining
                 ((log ++ [Post page_num attempt]) ++ [Sleep 5]))) as Hrec.
    { apply loop_failed_retry; [lia|]. apply IH; [lia|lia|].
      intros k Hk. apply Hall. lia. }
    destruct (http attempt) as [e|code text [content|e]]; simpl in Hf.
    + exact Hrec.
    + rewrite orb_false_r in Hf. by rewrite Hf.
    + by destruct (negb _).
  - apply not_last_false in Hl. assert (remaining = 0)%nat as -> by lia.
    destruct (http attempt) as [e|code text [content|e]]; simpl in Hf.
    + apply error_record_failed.
    + rewrite orb_false_r in Hf. rewrite Hf. apply error_record_failed.
    + destruct (negb _); apply error_record_failed.
Qed.

Lemma ocr_pages_results (http : Z -> nat -> attempt_outcome) (pages : list Z)
    (results : list (gmap string value)) (log : list event) :
  (ocr_pages http pages results log).1
  = results ++ map (fun p => (ocr_with_gemini (http p) p).1) pages.
Proof.
  revert results log. induction pages as [|p pages IH]; intros results log; simpl.
  - by rewrite app_nil_r.
  - destruct (ocr_with_gemini (http p) p) as [r calls] eqn:E.
    rewrite IH. simpl. by rewrite <- app_assoc.
Qed.

End OcrFacts.


(** ** Counting matches *)

Lemma filter_ne_length (n : nat) (idxs : list nat) :
  NoDup idxs ->
  (length idxs <= S (length (filter (fun i => i <> n) idxs)))%nat
  /\ (n ∉ idxs -> filter (fun i => i <> n) idxs = idxs).
Proof.
  induction 1 as [|i idxs Hni Hnd [IH1 IH2]]; [split; [simpl; lia|done]|].
  rewrite filter_cons. destruct (decide (i <> n)) as [Hne|Heq].
  - simpl. split; [lia|]. intros Hn. f_equal. apply IH2.
    intros ?. apply Hn. by right.
  - assert (i = n) as -> by (destruct (decide (i = n)); [done|contradiction]).
    rewrite (IH2 Hni). split; [simpl; lia|]. intros Hn. exfalso. apply Hn. by left.
Qed.

(** Distinct positions of a list, each holding an element that satisfies
    [P], are no more than the elements that satisfy [P]. *)
Lemma distinct_positions_bound {A : Type} (P : A -> bool) (l : list A)
    (idxs : list nat) :
  NoDup idxs ->
  (forall i, i ∈ idxs -> exists x, l !! i = Some x /\ P x = true) ->
  (length idxs <= length (List.filter P l))%nat.
Proof.
  revert idxs. induction l as [|x l IH] using rev_ind; intros idxs Hnd Hin.
  - destruct idxs as [|i idxs]; [done|].
    destruct (Hin i) as (x & Hx & _); [by left|done].
  - destruct (filter_ne_length (length l) idxs Hnd) as [Hlen Hsame].
    assert (Hrec : (length (filter (fun i => i <> length l) idxs)
                    <= length (List.filter P l))%nat).
    { apply IH; [by apply list.NoDup_filter|].
      intros i Hi. apply list_elem_of_filter in Hi as [Hne Hi].
      destruct (Hin i Hi) as (y & Hy & HP). exists y. split; [|done].
      apply lookup_app_Some in Hy as [Hy|[Hge Hy]]; [done|].
      apply list_lookup_singleton_Some in Hy as [Hy _]. lia. }
    rewrite List.filter_app, length_app. simpl.
    destruct (decide (length l ∈ idxs)) as [Hl|Hl].
    + destruct (Hin _ Hl) as (y & Hy & HP).
      rewrite lookup_app_r in Hy by lia. rewrite Nat.sub_diag in Hy.
      injection Hy as ->. rewrite HP. simpl. lia.
    + rewrite (Hsame Hl) in Hrec. lia.
Qed.

Lemma v10_matched_count_omap (rs : list V10.match_result) :
  V10.matched_count rs = length (omap V10.mr_full_text rs).
Proof.
  unfold V10.matched_count. induction rs as [|r rs IH]; [done|].
  simpl. destruct (V10.mr_full_text r); simpl; by rewrite IH.
Qed.

Lemma v8_matched_count_omap (rs : list V8.match_result) :
  V8.matched_count rs = length (omap V8.mr_full_text rs).
Proof.
  unfold V8.matched_count. induction rs as [|r rs IH]; [done|].
  simpl. destruct (V8.mr_full_text r); simpl; by rewrite IH.
Qed.

Lemma omap_length_le {A B : Type} (f : A -> option B) (l : list A) :
  (length (omap f l) <= length l)%nat.
Proof.
  induction l as [|x l IH]; [done|]. unfold omap in *. simpl.
  destruct (f x); simpl; lia.
Qed.

Lemma filter_true_length {A : Type} (l : list A) :
  length (List.filter (fun _ => true) l) = length l.
Proof. induction l as [|x l IH]; [done|]. simpl. by rewrite IH. Qed.

Section V8Count.
Import V8.
Variable sc : summary -> full_text -> Q.

Lemma v8_match_one_in_range (s : summary) (fts : list full_text)
    (used : gset nat) (idx : nat) :
  mr_full_text (match_one sc s fts used).1 = Some idx -> is_Some (fts !! idx).
Proof.
  intros H.
  destruct (proj1 (v8_match_one_Some sc s fts used idx _) (conj H eq_refl))
    as [(ft & [Hl _] & _) _].
  by exists ft.
Qed.

Lemma v8_match_loop_in_range (ss : list summary) (fts : list full_text)
    (matched : list match_result) (used : gset nat) :
  (forall idx, idx ∈ omap mr_full_text matched -> is_Some (fts !! idx)) ->
  forall idx, idx ∈ omap mr_full_text (match_loop sc ss fts matched used).1 ->
              is_Some (fts !! idx).
Proof.
  revert matched used. induction ss as [|s ss IH]; intros matched used Hin; [done|].
  simpl. pose proof (v8_match_one_in_range s fts used) as Hone.
  destruct (match_one sc s fts used) as [entry used']. simpl in Hone.
  apply IH. intros idx. rewrite omap_app, elem_of_app. simpl.
  intros [H|H]; [by apply Hin|].
  destruct (mr_full_text entry) as [i|]; simpl in H.
  - apply list_elem_of_singleton in H as ->. by apply Hone.
  - by apply elem_of_nil in H.
Qed.

Lemma v8_match_loop_length (ss : list summary) (fts : list full_text)
    (matched : list match_result) (used : gset nat) :
  length (match_loop sc ss fts matched used).1
  = (length matched + length ss)%nat.
Proof.
  revert matched used. induction ss as [|s ss IH]; intros matched used; simpl.
  - lia.
  - destruct (match_one sc s fts used) as [entry used'].
    rewrite IH, length_app. simpl. lia.
Qed.

End V8Count.

(** ** v10: the store and the Word document *)

Section V10Store.
Import V10.
Variable sc : summary -> full_text -> Q.

Lemma mark_used_lookup (idx j : nat) (fts : list full_text) :
  is_Some (fts !! idx) ->
  mark_used idx fts !! j
  = (fun ft => if bool_decide (j = idx) then set_used ft else ft) <$> fts !! j.
Proof.
  intros [ft0 H0]. unfold mark_used. rewrite H0.
  destruct (decide (j = idx)) as [->|Hne].
  - rewrite list_lookup_insert_eq by by eapply lookup_lt_Some.
    rewrite H0. simpl. by rewrite bool_decide_eq_true_2.
  - rewrite list_lookup_insert_ne by done.
    destruct (fts !! j); simpl; [|done]. by rewrite bool_decide_eq_false_2.
Qed.

Lemma match_all_store (ss : list summary) (fts : list full_text) (j : nat) :
  (match_all_by sc ss fts).2 !! j
  = (fun ft => if bool_decide (j ∈ omap mr_full_text (match_all_by sc ss fts).1)
               then set_used ft else ft) <$> fts !! j.
Proof.
  revert fts. induction ss as [|s ss IH]; intros fts.
  - simpl. by destruct (fts !! j).
  - rewrite match_all_cons. simpl.
    pose proof (match_one_store sc s fts) as Hone. simpl in Hone.
    destruct (match_one sc s fts) as [r fts']. simpl in *.
    destruct Hone as (_ & _ & Hres). rewrite IH.
    destruct (mr_full_text r) as [idx|].
    + destruct Hres as (_ & (ft0 & [Hl0 _] & _) & ->).
      rewrite mark_used_lookup by by exists ft0.
      destruct (fts !! j) as [ft|]; simpl; [|done]. f_equal.
      destruct (decide (j = idx)) as [->|Hne].
      * rewrite (bool_decide_eq_true_2 (idx = idx)) by done.
        rewrite (bool_decide_eq_true_2 (idx ∈ idx :: _)) by by left.
        by destruct (bool_decide _).
      * rewrite (bool_decide_eq_false_2 (j = idx)) by done.
        set (rest := omap mr_full_text (match_all_by sc ss (mark_used idx fts)).1).
        rewrite (bool_decide_ext (j ∈ idx :: rest) (j ∈ rest)); [done|].
        rewrite elem_of_cons. split; [intros [?|?]; done|by right].
    + destruct Hres as [_ ->]. done.
Qed.

End V10Store.

Section V10Word.
Import Py V10.
Variable store : list full_text.

Lemma word_loop_count (n i : nat) (matched : list match_result)
    (doc : list docx_item) (count : nat) :
  (word_loop store n i matched doc count).2
  = (count + length (List.filter (has_passage store) matched))%nat.
Proof.
  revert i doc count. induction matched as [|e rest IH]; intros i doc count.
  - simpl. lia.
  - cbn [word_loop List.filter]. unfold has_passage at 1.
    destruct (deref store e) as [ft|]; rewrite IH; simpl; lia.
Qed.

Lemma word_loop_paragraphs (n i : nat) (matched : list match_result) :
  length (List.filter (fun item => negb (is_page_break item))
                      (word_loop store n i matched [] 0).1)
  = (5 * length (List.filter (has_passage store) matched))%nat.
Proof.
  revert i. induction matched as [|e rest IH]; intros i; [done|].
  cbn [word_loop List.filter]. unfold has_passage at 1.
  destruct (deref store e) as [ft|]; [|apply IH].
  rewrite word_loop_app, List.filter_app, length_app, IH.
  destruct (Z.of_nat i <? Z.of_nat n - 1)%Z; simpl; lia.
Qed.

Lemma word_loop_breaks (n i : nat) (matched : list match_result) :
  (i + length matched = n)%nat ->
  length (List.filter is_page_break (word_loop store n i matched [] 0).1)
  = length (List.filter (has_passage store) (removelast matched)).
Proof.
  revert i. induction matched as [|e rest IH]; intros i Hn; [done|].
  cbn [word_loop]. simpl in Hn.
  destruct rest as [|e' rest'].
  - simpl. destruct (deref store e) as [ft|]; [|done].
    destruct (Z.ltb_spec (Z.of_nat i) (Z.of_nat n - 1)); [simpl in *; lia|]. done.
  - change (removelast (e :: e' :: rest')) with (e :: removelast (e' :: rest')).
    cbn [List.filter]. unfold has_passage at 1.
    destruct (deref store e) as [ft|].
    + rewrite word_loop_app, List.filter_app, length_app.
      rewrite (IH (S i)) by (simpl in *; lia).
      destruct (Z.ltb_spec (Z.of_nat i) (Z.of_nat n - 1)); [|simpl in *; lia].
      simpl. lia.
    + apply IH. simpl in *. lia.
Qed.

End V10Word.

Lemma has_passage_matched (sc : V10.summary -> V10.full_text -> Q)
    (ss : list V10.summary) (fts : list V10.full_text) :
  let rs := (V10.match_all_by sc ss fts).1 in
  let fin := (V10.match_all_by sc ss fts).2 in
  forall l, l `sublist_of` rs ->
    length (List.filter (V10.has_passage fin) l) = V10.matched_count l.
Proof.
  simpl. intros l Hsub.
  destruct (match_all_inv sc ss fts) as (_ & _ & _ & _ & Hshape).
  assert (Hall : Forall (fun r => V10.has_passage (V10.match_all_by sc ss fts).2 r
                                  = match V10.mr_full_text r with
                                    | Some _ => true | None => false end) l).
  { apply list.Forall_forall. intros r Hr.
    assert (Hr' : r ∈ (V10.match_all_by sc ss fts).1)
      by (eapply sublist_submseteq, elem_of_submseteq in Hsub; eauto).
    apply list_elem_of_lookup_1 in Hr' as [k Hk].
    destruct (Forall2_lookup_r _ _ _ _ _ Hshape Hk) as (s & _ & _ & Hcase).
    unfold V10.has_passage, V10.deref.
    destruct Hcase as [(idx & ft & -> & -> & _)|[-> _]]; done. }
  unfold V10.matched_count. clear Hsub.
  induction Hall as [|r l Hr Hall IH]; [done|].
  simpl. rewrite Hr. destruct (V10.mr_full_text r); simpl; by rewrite IH.
Qed.

(** ** parse_summaries_to_content: pages, selection and statistics *)

Section PageNumbers.
Import Py Mapper.

Lemma page_fold_sum (page : str) (total : Z) :
  fold_left (fun total c =>
               match hebrew_nums !! c with
               | Some v => (total + v)%Z
               | None => total
               end) page total
  = (total + foldr (fun c acc => (letter_value c + acc)%Z) 0%Z page)%Z.
Proof.
  revert total. induction page as [|c page IH]; intros total;
    cbn [fold_left foldr]; [lia|].
  rewrite IH. unfold letter_value.
  destruct (hebrew_nums !! c); cbn [default from_option]; unfold id; lia.
Qed.

Lemma remove_class_sum (cls : char -> bool) (page : str) :
  (forall c, cls c = true -> letter_value c = 0%Z) ->
  foldr (fun c acc => (letter_value c + acc)%Z) 0%Z (remove_class cls page)
  = foldr (fun c acc => (letter_value c + acc)%Z) 0%Z page.
Proof.
  intros Hcls. unfold remove_class.
  induction page as [|c page IH]; [done|].
  cbn [List.filter foldr]. destruct (cls c) eqn:E; cbn [negb foldr]; rewrite IH; [|done].
  rewrite (Hcls c E). lia.
Qed.

Lemma hebrew_page_to_int_sum (page : str) :
  hebrew_page_to_int page
  = foldr (fun c acc => (letter_value c + acc)%Z) 0%Z page.
Proof.
  unfold hebrew_page_to_int. rewrite page_fold_sum.
  rewrite !remove_class_sum; [lia| | |];
    intros c Hc; apply N.eqb_eq in Hc; subst c; reflexivity.
Qed.

Lemma letter_value_nonneg (c : char) : (0 <= letter_value c)%Z.
Proof.
  unfold letter_value. destruct (hebrew_nums !! c) as [v|] eqn:E; cbn [default from_option]; unfold id; [|lia].
  assert (H : map_Forall (fun _ v => (0 <= v)%Z) hebrew_nums).
  { apply map_Forall_to_list. vm_compute. repeat constructor; discriminate. }
  by apply (H c v).
Qed.

End PageNumbers.

Section MapperMore.
Import Py Mapper.
Variable ratio : str -> str -> Q.

Lemma best_section_scan (summary : Summary)
    (l pre : list (ContentSection * Q)) (bi : option nat) (bs : Q) :
  (forall i, bi = Some i -> (i < length pre)%nat) ->
  best_section ratio summary l (fst <$> (bi ≫= fun i => pre !! i)) bs
  = (fst <$> ((scan (fun _ _ => false) (pair_score ratio summary) l (length pre) bi bs).1
              ≫= fun i => (pre ++ l) !! i),
     (scan (fun _ _ => false) (pair_score ratio summary) l (length pre) bi bs).2).
Proof.
  revert pre bi bs. induction l as [|[section sim] l IH]; intros pre bi bs Hbi.
  - simpl. by rewrite app_nil_r.
  - cbn [best_section scan].
    change (section_score ratio summary section sim)
      with (pair_score ratio summary (section, sim)).
    replace (pre ++ (section, sim) :: l) with ((pre ++ [(section, sim)]) ++ l)
      by (by rewrite <- app_assoc).
    assert (Hlen : S (length pre) = length (pre ++ [(section, sim)]))
      by (rewrite length_app; simpl; lia).
    rewrite Hlen.
    destruct (Qgtb (pair_score ratio summary (section, sim)) bs).
    + replace (Some section)
        with (fst <$> (Some (length pre)
                       ≫= fun i => (pre ++ [(section, sim)]) !! i)).
      * apply IH. intros i [= <-]. rewrite <- Hlen. lia.
      * simpl. rewrite lookup_app_r by lia. by rewrite Nat.sub_diag.
    + replace (fst <$> (bi ≫= fun i => pre !! i))
        with (fst <$> (bi ≫= fun i => (pre ++ [(section, sim)]) !! i)).
      * apply IH. intros i Hi. rewrite <- Hlen. specialize (Hbi i Hi). lia.
      * destruct bi as [i|]; [|done]. simpl.
        rewrite lookup_app_l; [done|]. by apply Hbi.
Qed.

Lemma map_summary_cases (content_sections : list ContentSection)
    (summary : Summary) :
  let l := author_sections_of ratio summary content_sections in
  (exists idx c sim v,
     l !! idx = Some (c, sim)
     /\ first_best (fun _ _ => false) (pair_score ratio summary) l idx v
     /\ (0.25 < v)%Q
     /\ map_summary ratio content_sections summary
        = {| author := author summary; opening_words := opening_words summary;
             summary_text := summary_text summary; page_ref := page_ref summary;
             line_number := line_number summary;
             matched_content := Some c; match_confidence := v |})
  \/ ((forall c sim, (c, sim) ∈ l ->
         (section_score ratio summary c sim <= 0.25)%Q)
      /\ map_summary ratio content_sections summary = summary).
Proof.
  intros l. unfold map_summary. fold l.
  destruct l as [|p l'] eqn:El.
  { right. split; [|done]. intros c sim Hin. by apply elem_of_nil in Hin. }
  rewrite <- El.
  pose proof (best_section_scan summary l [] None 0) as Hscan.
  simpl in Hscan. rewrite Hscan by done. clear Hscan.
  pose proof (scan_from_start (fun _ _ => false) (pair_score ratio summary) l) as Hinv.
  destruct (scan _ _ l 0 None 0) as [[i|] bs]; simpl in Hinv |- *.
  - destruct Hinv as [Hpos (ft & [Hl Hsk] & Hv & Hmax & Hfirst)].
    rewrite Hl. simpl. destruct ft as [c sim].
    destruct (Qgtb bs 0.25) eqn:Hgt.
    + left. exists i, c, sim, bs. apply Qgtb_true in Hgt.
      split; [done|]. split; [|done]. by exists (c, sim).
    + right. split; [|done]. apply Qgtb_false in Hgt.
      intros c' sim' Hin. apply list_elem_of_lookup_1 in Hin as [j Hj].
      specialize (Hmax j (c', sim') (conj Hj eq_refl)).
      unfold pair_score in Hmax at 1. simpl in Hmax. lra.
  - destruct Hinv as [-> Hall]. right. split; [|done].
    intros c sim Hin. apply list_elem_of_lookup_1 in Hin as [j Hj].
    specialize (Hall j (c, sim) (conj Hj eq_refl)).
    unfold pair_score in Hall. simpl in Hall. lra.
Qed.

End MapperMore.

Section MapperStats.
Import Py Mapper.
Variable ratio : str -> str -> Q.

Lemma map_loop_spec (content_sections : list ContentSection)
    (summaries : list Summary) (mapped : nat) :
  (map_loop ratio content_sections summaries mapped).1
  = map_summaries_to_content ratio summaries content_sections
  /\ (mapped <= (map_loop ratio content_sections summaries mapped).2
      <= mapped + length summaries)%nat
  /\ (Forall fresh summaries ->
      (map_loop ratio content_sections summaries mapped).2
      = (mapped + length (List.filter is_matched
                            (map_summaries_to_content ratio summaries
                               content_sections)))%nat).
Proof.
  revert mapped. induction summaries as [|s ss IH]; intros mapped.
  - simpl. split; [done|]. split; [lia|]. intros _. lia.
  - cbn [map_loop].
    set (assigned := match author_sections_of ratio s content_sections with
                     | [] => false
                     | _ :: _ => _
                     end).
    specialize (IH (if assigned then S mapped else mapped)).
    destruct (map_loop ratio content_sections ss _) as [rest' mapped'].
    simpl in IH. destruct IH as (IH1 & IH2 & IH3).
    cbn [fst snd]. split; [|split].
    + unfold map_summaries_to_content in *. simpl. by rewrite IH1.
    + simpl. destruct assigned; lia.
    + intros Hfresh. inversion Hfresh as [|? ? [Hnone Hzero] Hrest]; subst.
      rewrite (IH3 Hrest). unfold map_summaries_to_content.
      cbn [map List.filter].
      assert (is_matched (map_summary ratio content_sections s) = assigned) as ->.
      { unfold is_matched, assigned, map_summary.
        destruct (author_sections_of ratio s content_sections) as [|p l];
          [by rewrite Hnone|].
        destruct (best_section ratio s (p :: l) None 0) as [[c|] v];
          [|by rewrite Hnone].
        destruct (Qgtb v 0.25); [done|by rewrite Hnone]. }
      destruct assigned; simpl; lia.
Qed.

Lemma map_summary_fresh (content_sections : list ContentSection)
    (s : Summary) :
  fresh s ->
  Qgtb (match_confidence (map_summary ratio content_sections s))
       (float_lit 0.7) = true ->
  is_matched (map_summary ratio content_sections s) = true.
Proof.
  intros [Hnone Hzero].
  destruct (map_summary_cases ratio content_sections s)
    as [(i & c & sim & v & _ & _ & _ & ->)|[_ ->]]; [done|].
  rewrite Hzero. done.
Qed.

End MapperStats.

(** ** The OCR scripts: the first good answer, the saved files *)

Section OcrFirst.
Import Py Ocr.

Lemma attempts_log_one (page_num : Z) (first : nat) :
  attempts_log page_num first 1 = [Post page_num first].
Proof. done. Qed.

Lemma gemini_loop_first_success (http : nat -> attempt_outcome) (page_num : Z)
    (max_retries attempt remaining k : nat) (log : list event)
    (text content : str) :
  (attempt + remaining = max_retries)%nat -> (k < remaining)%nat ->
  (forall j, (attempt <= j < attempt + k)%nat -> failed (http j) = true) ->
  http (attempt + k)%nat = Response 200 text (inl content) ->
  gemini_loop http page_num max_retries attempt remaining log
  = (text_record page_num content,
     log ++ attempts_log page_num attempt (S k)).
Proof.
  revert attempt remaining log.
  induction k as [|k IH]; intros attempt remaining log Hsum Hk Hfail Hok;
    (destruct remaining as [|remaining]; [lia|]); cbn [gemini_loop].
  - rewrite Nat.add_0_r in Hok. rewrite Hok. done.
  - assert (Hnl : not_last attempt max_retries = true)
      by (apply not_last_true; lia).
    assert (Hrec : gemini_loop http page_num max_retries (S attempt) remaining
                     ((log ++ [Post page_num attempt]) ++ [Sleep 5])
                   = (text_record page_num content,
                      log ++ attempts_log page_num attempt (S (S k)))).
    { rewrite (IH (S attempt) remaining); [|lia|lia| |].
      - rewrite (attempts_log_S page_num attempt (S k)) by lia.
        by rewrite <- !app_assoc.
      - intros j Hj. apply Hfail. lia.
      - rewrite <- Hok. f_equal. lia. }
    pose proof (Hfail attempt ltac:(lia)) as Hf. rewrite Hnl.
    destruct (http attempt) as [e|code t [c|e]]; simpl in Hf.
    + exact Hrec.
    + rewrite orb_false_r in Hf. by rewrite Hf.
    + by destruct (negb _).
Qed.

Lemma flash_loop_first_good (http : nat -> attempt_outcome) (page_num : Z)
    (max_retries attempt remaining k : nat) (log : list event)
    (text content : str) :
  (attempt + remaining = max_retries)%nat -> (k < remaining)%nat ->
  (forall j, (attempt <= j < attempt + k)%nat -> unsatisfactory (http j) = true) ->
  http (attempt + k)%nat = Response 200 text (inl content) ->
  (S k = remaining \/ 100 <= length (strip content))%nat ->
  flash_loop http page_num max_retries attempt remaining log
  = (text_record page_num content,
     log ++ attempts_log page_num attempt (S k)).
Proof.
  revert attempt remaining log.
  induction k as [|k IH]; intros attempt remaining log Hsum Hk Hfail Hok Hgood;
    (destruct remaining as [|remaining]; [lia|]); cbn [flash_loop].
  - rewrite Nat.add_0_r in Hok. rewrite Hok. simpl.
    destruct Hgood as [Hlast|Hlong].
    + assert (not_last attempt max_retries = false) as ->
        by (apply not_last_false; lia).
      by rewrite andb_false_r.
    + assert ((length (strip content) <? 100)%nat = false) as ->
        by (apply Nat.ltb_ge; lia).
      done.
  - assert (Hnl : not_last attempt max_retries = true)
      by (apply not_last_true; lia).
    assert (Hrec : flash_loop http page_num max_retries (S attempt) remaining
                     ((log ++ [Post page_num attempt]) ++ [Sleep 5])
                   = (text_record page_num content,
                      log ++ attempts_log page_num attempt (S (S k)))).
    { rewrite (IH (S attempt) remaining); [|lia|lia| | |].
      - rewrite (attempts_log_S page_num attempt (S k)) by lia.
        by rewrite <- !app_assoc.
      - intros j Hj. apply Hfail. lia.
      - rewrite <- Hok. f_equal. lia.
      - destruct Hgood as [Hlast|Hlong]; [left; lia|by right]. }
    pose proof (Hfail attempt ltac:(lia)) as Hf. rewrite Hnl.
    destruct (http attempt) as [e|code t [c|e]]; simpl in Hf.
    + exact Hrec.
    + destruct (negb (code =? 200)%Z); [done|]. simpl in Hf.
      rewrite Hf. done.
    + by destruct (negb _).
Qed.

Lemma flash_loop_short (http : nat -> attempt_outcome) (page_num : Z)
    (max_retries attempt remaining : nat) (log : list event) (content : str) :
  (attempt + remaining = max_retries)%nat ->
  (flash_loop http page_num max_retries attempt remaining log).1 !! "text"
  = Some (VStr content) ->
  (length (strip content) < 100)%nat ->
  (flash_loop http page_num max_retries attempt remaining log).2
  = log ++ attempts_log page_num attempt remaining.
Proof.
  revert attempt log. induction remaining as [|remaining IH];
    intros attempt log Hsum Htext Hshort.
  - simpl in Htext. by destruct (error_record_failed page_num 0 [] (lit "Max retries exceeded")) as (_ & H & _);
      unfold error_record in *; simplify_map_eq.
  - cbn [flash_loop] in *.
    assert (Hretry : not_last attempt max_retries = true ->
              (flash_loop http page_num max_retries (S attempt) remaining
                 ((log ++ [Post page_num attempt]) ++ [Sleep 5])).1 !! "text"
              = Some (VStr content) ->
              (flash_loop http page_num max_retries (S attempt) remaining
                 ((log ++ [Post page_num attempt]) ++ [Sleep 5])).2
              = log ++ attempts_log page_num attempt (S remaining)).
    { intros Hnl Ht. apply not_last_true in Hnl.
      rewrite IH; [|lia|done|done].
      rewrite (attempts_log_S page_num attempt remaining) by lia.
      by rewrite <- !app_assoc. }
    assert (Herr : forall e, error_record e page_num !! "text"
                             = Some (VStr content) -> False).
    { intros e H. unfold error_record in H. by simplify_map_eq. }
    destruct (http attempt) as [e|code t [c|e]].
    + destruct (not_last attempt max_retries) eqn:Hnl; [by apply Hretry|].
      simpl in Htext. by apply Herr in Htext.
    + destruct (negb (code =? 200)%Z).
      * destruct (not_last attempt max_retries) eqn:Hnl; [by apply Hretry|].
        simpl in Htext. by apply Herr in Htext.
      * destruct ((length (strip c) <? 100)%nat) eqn:Hc; simpl in *.
        -- destruct (not_last attempt max_retries) eqn:Hnl; [by apply Hretry|].
           apply not_last_false in Hnl.
           assert (remaining = 0)%nat as -> by lia. done.
        -- destruct (text_record_keys page_num c) as (Hk & _).
           rewrite Hk in Htext. injection Htext as ->.
           apply Nat.ltb_ge in Hc. lia.
    + destruct (negb (code =? 200)%Z);
        (destruct (not_last attempt max_retries) eqn:Hnl; [by apply Hretry|]);
        simpl in Htext; by apply Herr in Htext.
Qed.

End OcrFirst.

Section OcrMain.
Import Py Ocr.

Lemma main_loop_spec (http : Z -> nat -> attempt_outcome) (total : nat)
    (images : list Z) (results : list (gmap string value))
    (saved : list partial_output) :
  let new := map (fun p => (ocr_with_gemini (http p) p).1) images in
  main_loop http total images results saved
  = (results ++ new,
     saved ++ map (fun k => {| po_total_pages := total;
                               po_completed_pages := length results + S k;
                               po_pages := results ++ take (S k) new |})
                  (seq 0 (length images))).
Proof.
  revert results saved. induction images as [|p images IH]; intros results saved.
  - simpl. by rewrite !app_nil_r.
  - cbn [main_loop]. rewrite IH. cbn [map length seq]. f_equal.
    + by rewrite <- app_assoc.
    + rewrite <- app_assoc. f_equal. cbn [app]. f_equal.
      * rewrite length_app. done.
      * rewrite <- seq_shift, map_map. apply map_ext. intros k.
        rewrite length_app. cbn [length take]. rewrite <- app_assoc.
        f_equal. lia.
Qed.

Lemma gemini_loop_record (http : nat -> attempt_outcome) (page_num : Z)
    (max_retries attempt remaining : nat) (log : list event) :
  request_record page_num
    (gemini_loop http page_num max_retries attempt remaining log).1.
Proof.
  revert attempt log. induction remaining as [|remaining IH];
    intros attempt log; cbn [gemini_loop].
  - left. by eexists.
  - destruct (http attempt) as [e|code text [content|e]];
      repeat match goal with
      | |- context [if ?b then _ else _] => destruct b
      end;
      try apply IH; try (left; by eexists); right; by eexists.
Qed.

Lemma write_result_record (text : str) (page_num : Z) (r : gmap string value) :
  request_record page_num r -> (write_result text r).2 = None.
Proof.
  intros [[e ->]|[content ->]]; unfold write_result.
  - assert (error_record e page_num !! "text" = None) as ->
      by (unfold error_record; by simplify_map_eq).
    destruct (error_record_keys e page_num) as [-> _]. done.
  - destruct (text_record_keys page_num content) as (-> & _). done.
Qed.

Lemma write_results_records (text : str) (results : list (gmap string value)) :
  Forall (fun r => exists page_num, request_record page_num r) results ->
  (write_results text results).2 = None.
Proof.
  intros H. revert text. induction H as [|r rs [p Hr] Hrs IH]; intros text; [done|].
  cbn [write_results]. pose proof (write_result_record text p r Hr) as Hw.
  destruct (write_result text r) as [text' [e|]]; [done|]. apply IH.
Qed.

End OcrMain.

Section OcrRetry.
Import Py Ocr.

Lemma load_results_ints (data_pages : list (gmap string value))
    (d : gmap Z (gmap string value)) (b : bool) :
  Forall (fun p => exists n, p !! "page" = Some (VInt n)) data_pages ->
  exists d', load_results data_pages d b = inr (d', b)
             /\ forall n,
                  d' !! n
                  = match last (List.filter (page_is n) data_pages) with
                    | Some p => Some p
                    | None => d !! n
                    end.
Proof.
  intros H. revert d. induction H as [|p ps [n Hp] Hps IH]; intros d.
  - exists d. done.
  - cbn [load_results]. rewrite Hp.
    destruct (IH (<[n := p]> d)) as (d' & Hd' & Hl). exists d'. split; [done|].
    intros m. rewrite Hl. cbn [List.filter]. unfold page_is at 2. rewrite Hp.
    destruct (Z.eqb_spec n m) as [->|Hne].
    + rewrite last_cons. destruct (last (List.filter _ ps)); [done|].
      by rewrite lookup_insert_eq.
    + by rewrite lookup_insert_ne.
Qed.

Lemma retried_lookup (http : Z -> nat -> attempt_outcome) (l : list Z)
    (d : gmap Z (gmap string value)) (n : Z) :
  retried http l d !! n
  = if bool_decide (n ∈ l)
    then Some (ocr_with_gemini_flash (http n) n).1
    else d !! n.
Proof.
  unfold retried. revert d. induction l as [|m l IH]; intros d; simpl.
  - done.
  - rewrite IH. destruct (decide (n ∈ l)) as [Hin|Hnin].
    + rewrite !bool_decide_eq_true_2; [done|by right|done].
    + rewrite (bool_decide_eq_false_2 (n ∈ l)) by done.
      destruct (decide (n = m)) as [->|Hne].
      * rewrite bool_decide_eq_true_2 by by left. by rewrite lookup_insert_eq.
      * rewrite bool_decide_eq_false_2.
        -- by rewrite lookup_insert_ne.
        -- intros Hin. apply elem_of_cons in Hin as [?|?]; done.
Qed.

Lemma retried_snoc (http : Z -> nat -> attempt_outcome) (l : list Z) (m : Z)
    (d : gmap Z (gmap string value)) :
  retried http (l ++ [m]) d
  = <[m := (ocr_with_gemini_flash (http m) m).1]> (retried http l d).
Proof. unfold retried. by rewrite foldl_app. Qed.

Lemma retry_loop_spec (has_page : Z -> bool) (http : Z -> nat -> attempt_outcome)
    (done_pages failed_pages : list Z) (d0 : gmap Z (gmap string value))
    (saved : list output) :
  Forall (fun n => has_page n = true) failed_pages ->
  retry_loop has_page http failed_pages (retried http done_pages d0) false saved
  = (retried http (done_pages ++ failed_pages) d0,
     saved ++ map (fun k =>
                     let d := retried http (done_pages ++ take (S k) failed_pages) d0 in
                     {| total_pages := length (sorted_pages d);
                        pages := sorted_pages d |})
                  (seq 0 (length failed_pages)),
     None).
Proof.
  intros H. revert done_pages saved.
  induction H as [|m l Hm Hl IH]; intros done_pages saved.
  - simpl. by rewrite !app_nil_r.
  - cbn [retry_loop]. rewrite Hm. rewrite <- retried_snoc.
    rewrite IH. rewrite <- !app_assoc. cbn [app length seq map].
    do 3 f_equal. f_equal.
    rewrite <- seq_shift, map_map. apply map_ext. intros k.
    cbn [take]. by rewrite <- app_assoc.
Qed.

Lemma sorted_keys_spec (d : gmap Z (gmap string value)) :
  let ks := merge_sort Z.le (map fst (map_to_list d)) in
  StronglySorted Z.lt ks /\ forall n, n ∈ ks <-> is_Some (d !! n).
Proof.
  intros ks.
  assert (Hperm : ks ≡ₚ map fst (map_to_list d)) by apply merge_sort_Permutation.
  assert (Hnd : NoDup ks).
  { rewrite Hperm. apply NoDup_fst_map_to_list. }
  assert (Hs : StronglySorted Z.le ks).
  { apply StronglySorted_merge_sort; apply _. }
  split.
  - clear Hperm. induction Hs as [|k ks Hs IH Hall]; [constructor|].
    apply NoDup_cons in Hnd as [Hk Hnd]. constructor; [by apply IH|].
    rewrite list.Forall_forall in Hall |- *. intros x Hx.
    specialize (Hall x Hx). assert (x <> k) by (intros ->; done). lia.
  - intros n. rewrite Hperm. rewrite list_elem_of_fmap. split.
    + intros ([k v] & -> & Hin). apply elem_of_map_to_list in Hin. by exists v.
    + intros [v Hv]. exists (n, v). split; [done|]. by apply elem_of_map_to_list.
Qed.

Lemma sorted_pages_spec (d : gmap Z (gmap string value)) :
  exists ks, StronglySorted Z.lt ks
             /\ (forall n, n ∈ ks <-> is_Some (d !! n))
             /\ Forall2 (fun n p => d !! n = Some p) ks (sorted_pages d).
Proof.
  destruct (sorted_keys_spec d) as [Hs Hin]. simpl in *.
  exists (merge_sort Z.le (map fst (map_to_list d))).
  split; [done|]. split; [done|]. unfold sorted_pages.
  set (ks := merge_sort Z.le (map fst (map_to_list d))) in *.
  assert (Hall : Forall (fun n => is_Some (d !! n)) ks)
    by (apply list.Forall_forall; intros n; apply Hin).
  clearbody ks. clear Hs Hin.
  induction Hall as [|k ks [p Hp] Hall IH]; simpl; [constructor|].
  rewrite Hp. simpl. by constructor.
Qed.

End OcrRetry.

(** ** v7: the loop of [generate_html] *)

Section V7Html.
Import Py V7.
Variable sc : str -> summary -> full_text -> Q.

Lemma v7_match_cases (s : summary) (fts : list full_text) (used : gset nat) :
  match match_summary_to_fulltext_by sc s fts used with
  | inl _ => s_sefer s = None
  | inr (Some idx, used') =>
    s_sefer s <> None /\ (idx ∉ used) /\ is_Some (fts !! idx)
    /\ used' = {[idx]} ∪ used
  | inr (None, used') => s_sefer s <> None /\ used' = used
  end.
Proof.
  unfold match_summary_to_fulltext_by.
  destruct (s_sefer s) as [sefer|]; [|done].
  destruct (best_above _ (sc sefer s) 50 fts) as [[idx v]|] eqn:E; [|done].
  apply best_above_Some in E as [(ft & [Hl Hskip] & _) _]; [|reflexivity].
  split; [done|]. split; [by apply bool_decide_eq_false in Hskip|].
  split; [by exists ft|done].
Qed.

(** The second loop and the sequence of its matches. *)
Lemma quote_loop_sequence (fts : list full_text) (summaries : list summary)
    (html : str) (used : gset nat) (cur : option str) (matched : nat) :
  match quote_loop sc fts summaries html used cur matched with
  | inl _ => match_sequence sc fts summaries used = inl TypeError
  | inr (_, matched') =>
    exists idxs, match_sequence sc fts summaries used = inr idxs
                 /\ matched' = (matched + length (omap id idxs))%nat
  end.
Proof.
  revert html used cur matched.
  induction summaries as [|s rest IH]; intros html used cur matched.
  - simpl. exists []. split; [done|]. unfold omap. simpl. lia.
  - cbn [quote_loop match_sequence].
    destruct (match_summary_to_fulltext_by sc s fts used) as [[]|[ft used']];
      [done|].
    match goal with
    | |- context [quote_loop sc fts rest ?h used' ?c ?m] =>
      specialize (IH h used' c m);
      destruct (quote_loop sc fts rest h used' c m) as [[]|[html' matched']]
    end.
    + by rewrite IH.
    + destruct IH as (idxs & -> & ->). exists (ft :: idxs). split; [done|].
      unfold omap. destruct ft; simpl; lia.
Qed.

Lemma match_sequence_spec (fts : list full_text) (summaries : list summary)
    (used : gset nat) :
  match match_sequence sc fts summaries used with
  | inl _ => exists s, s ∈ summaries /\ s_sefer s = None
  | inr idxs =>
    Forall (fun s => s_sefer s <> None) summaries
    /\ length idxs = length summaries
    /\ NoDup (omap id idxs)
    /\ forall idx, idx ∈ omap id idxs -> (idx ∉ used) /\ is_Some (fts !! idx)
  end.
Proof.
  revert used. induction summaries as [|s rest IH]; intros used.
  - simpl. split; [constructor|]. split; [done|]. split; [constructor|].
    intros idx H. by apply elem_of_nil in H.
  - cbn [match_sequence]. pose proof (v7_match_cases s fts used) as Hone.
    destruct (match_summary_to_fulltext_by sc s fts used) as [[]|[ft used']].
    { exists s. split; [by left|done]. }
    specialize (IH used').
    destruct (match_sequence sc fts rest used') as [[]|idxs].
    { destruct IH as (s' & Hin & Hnone). exists s'. split; [by right|done]. }
    destruct IH as (Hall & Hlen & Hnd & Hidx).
    destruct ft as [idx|].
    + destruct Hone as (Hs & Hfresh & Hl & ->).
      split; [by constructor|]. split; [simpl; by rewrite Hlen|].
      change (omap id (Some idx :: idxs)) with (idx :: omap id idxs).
      split.
      * constructor; [|done]. intros Hin. apply Hidx in Hin as [Hin _].
        apply Hin. apply elem_of_union_l. by apply elem_of_singleton.
      * intros j Hj. apply elem_of_cons in Hj as [->|Hj]; [done|].
        apply Hidx in Hj as [Hj1 Hj2]. split; [|done].
        intros Hu. apply Hj1. by apply elem_of_union_r.
    + destruct Hone as (Hs & ->).
      split; [by constructor|]. split; [simpl; by rewrite Hlen|]. done.
Qed.

End V7Html.

(** ** Cleaning and normalising *)

Section StripMore.
Import Py.

Lemma strip_no_space (s : str) :
  Forall (fun c => isspace c = false) s -> strip s = s.
Proof.
  intros H. unfold strip.
  assert (lstrip s = s) as -> by (apply lstrip_clean; by destruct H).
  induction H as [|c s Hc Hs IH]; simpl; [done|].
  rewrite IH. destruct s; [by rewrite Hc|done].
Qed.

Lemma remove_class_app (cls : char -> bool) (a b : str) :
  remove_class cls (a ++ b) = remove_class cls a ++ remove_class cls b.
Proof. unfold remove_class. apply List.filter_app. Qed.

End StripMore.

Section CleanHtml.
Import Py.

Lemma no_gt_existsb (s : str) :
  no_gt s <-> existsb (fun e => (e =? 62)%N) s = false.
Proof.
  unfold no_gt. induction s as [|c s IH]; simpl.
  - split; [done|constructor].
  - rewrite orb_false_iff, <- IH. split.
    + by inversion 1.
    + intros [? ?]. by constructor.
Qed.

Lemma no_gt_has_tag (s : str) : no_gt s -> has_tag s = false.
Proof.
  induction 1 as [|c s Hc Hs IH]; simpl; [done|].
  rewrite IH, orb_false_r. destruct s as [|d r]; [done|].
  inversion Hs as [|? ? Hd Hr]; subst. apply no_gt_existsb in Hr.
  by rewrite Hr, andb_false_r.
Qed.

Lemma strip_tags_pending_no_gt (p s : str) :
  no_gt s -> strip_tags_from (Some p) s = rev p ++ s.
Proof.
  intros H. revert p. induction H as [|c s Hc Hs IH]; intros p; simpl.
  - by rewrite app_nil_r.
  - rewrite Hc, IH. simpl. by rewrite <- app_assoc.
Qed.

Lemma has_tag_cons (c : char) (s : str) :
  has_tag (c :: s) = opens_tag (c :: s) || has_tag s.
Proof. done. Qed.

Lemma strip_tags_no_tag (s : str) :
  has_tag (strip_tags_from None s) = false
  /\ forall p, no_gt p -> has_tag (strip_tags_from (Some p) s) = false.
Proof.
  induction s as [|c s [IH1 IH2]].
  - split; [done|]. intros p Hp. simpl. apply no_gt_has_tag.
    unfold no_gt in *. by apply Forall_rev.
  - split.
    + cbn [strip_tags_from]. destruct (c =? 60)%N eqn:Ec.
      * destruct s as [|d r]; [done|].
        destruct (d =? 62)%N eqn:Ed.
        -- rewrite has_tag_cons, IH1, orb_false_r.
           cbn [strip_tags_from]. apply N.eqb_eq in Ed. subst d. simpl.
           by rewrite andb_false_r.
        -- apply IH2. constructor; [|constructor].
           apply N.eqb_eq in Ec. by subst c.
      * rewrite has_tag_cons, IH1, orb_false_r.
        destruct (strip_tags_from None s) as [|d r]; [done|].
        simpl. by rewrite Ec.
    + intros p Hp. cbn [strip_tags_from]. destruct (c =? 62)%N eqn:Ec; [done|].
      apply IH2. by constructor.
Qed.

Lemma no_tag_strip_tags (s : str) :
  has_tag s = false -> strip_tags_from None s = s.
Proof.
  induction s as [|c s IH]; [done|].
  rewrite has_tag_cons, orb_false_iff. intros [Ho Ht].
  cbn [strip_tags_from]. destruct (c =? 60)%N eqn:Ec; [|by rewrite IH].
  destruct s as [|d r]; [done|]. simpl in Ho. rewrite Ec in Ho. simpl in Ho.
  destruct (d =? 62)%N eqn:Ed; [by rewrite IH|]. simpl in Ho.
  rewrite strip_tags_pending_no_gt; [done|].
  constructor; [done|]. by apply no_gt_existsb.
Qed.

Lemma squeeze_Forall (P : char -> Prop) (run : nat) (s : str) :
  Forall P s -> Forall P (squeeze_newlines_from run s).
Proof.
  intros H. revert run. induction H as [|c s Hc Hs IH]; intros run; simpl; [done|].
  destruct (c =? 10)%N; [destruct (run <? 2)%nat|]; try constructor; auto.
Qed.

Lemma squeeze_gt (run : nat) (s : str) :
  squeeze_newlines_from run (62%N :: s) = 62%N :: squeeze_newlines_from 0 s.
Proof. done. Qed.

Lemma squeeze_no_tag (run : nat) (s : str) :
  has_tag s = false -> has_tag (squeeze_newlines_from run s) = false.
Proof.
  revert run. induction s as [|c s IH]; intros run; [done|].
  rewrite has_tag_cons, orb_false_iff. intros [Ho Ht].
  cbn [squeeze_newlines_from]. destruct (c =? 10)%N eqn:Ec.
  - destruct (run <? 2)%nat; [|by apply IH].
    rewrite has_tag_cons, IH by done. rewrite orb_false_r.
    apply N.eqb_eq in Ec. subst c.
    by destruct (squeeze_newlines_from (S run) s).
  - rewrite has_tag_cons, IH by done. rewrite orb_false_r.
    destruct (c =? 60)%N eqn:Ec';
      [|destruct (squeeze_newlines_from 0 s) as [|? ?]; [done|]; simpl;
        by rewrite Ec'].
    destruct s as [|d r]; [done|]. simpl in Ho. rewrite Ec' in Ho. simpl in Ho.
    destruct (d =? 62)%N eqn:Ed.
    + apply N.eqb_eq in Ed. subst d. rewrite squeeze_gt. simpl.
      by rewrite andb_false_r.
    + simpl in Ho.
      assert (Hs : no_gt (squeeze_newlines_from 0 (d :: r))).
      { apply squeeze_Forall. constructor; [done|]. by apply no_gt_existsb. }
      destruct (squeeze_newlines_from 0 (d :: r)) as [|e t]; [done|].
      inversion Hs as [|? ? He Ht']; subst. apply no_gt_existsb in Ht'.
      simpl. by rewrite Ht', andb_false_r.
Qed.

Lemma has_tag_app_l (a b : str) : has_tag (a ++ b) = false -> has_tag a = false.
Proof.
  induction a as [|c a IH]; [done|]. simpl app.
  rewrite !has_tag_cons, !orb_false_iff. intros [Ho Ht]. split; [|by apply IH].
  destruct a as [|d r]; [done|]. simpl in *.
  destruct (c =? 60)%N; [|done]. destruct (negb (d =? 62)%N); [|done]. simpl in *.
  rewrite existsb_app in Ho. by apply orb_false_iff in Ho as [Ho _].
Qed.

Lemma has_tag_suffix (a b : str) : has_tag (a ++ b) = false -> has_tag b = false.
Proof.
  induction a as [|c a IH]; [done|]. simpl app.
  rewrite has_tag_cons, orb_false_iff. intros [_ Ht]. by apply IH.
Qed.

Lemma lstrip_suffix (s : str) : exists w, s = w ++ lstrip s.
Proof.
  induction s as [|c s [w IH]]; simpl; [by exists []|].
  destruct (isspace c); [|by exists []]. exists (c :: w). simpl. by f_equal.
Qed.

Lemma rstrip_prefix (s : str) : exists w, s = rstrip s ++ w.
Proof.
  induction s as [|c s [w IH]]; simpl; [by exists []|].
  destruct (rstrip s) as [|d r] eqn:E.
  - destruct (isspace c); [exists (c :: s)|exists s]; done.
  - exists w. simpl. f_equal. done.
Qed.

Lemma strip_no_tag (s : str) : has_tag s = false -> has_tag (strip s) = false.
Proof.
  intros H. unfold strip.
  destruct (rstrip_prefix (lstrip s)) as [w Hw].
  destruct (lstrip_suffix s) as [v Hv].
  rewrite Hv in H. apply has_tag_suffix in H. rewrite Hw in H.
  by apply has_tag_app_l in H.
Qed.

Lemma squeeze_short_runs (run : nat) (s : str) :
  short_runs (Nat.min run 2) (squeeze_newlines_from run s) = true.
Proof.
  revert run. induction s as [|c s IH]; intros run; [done|].
  cbn [squeeze_newlines_from]. destruct (c =? 10)%N eqn:Ec.
  - destruct (Nat.ltb_spec run 2) as [Hlt|Hge].
    + simpl. rewrite Ec.
      replace (Nat.min run 2) with run by lia.
      assert ((run <? 2)%nat = true) as -> by (apply Nat.ltb_lt; lia).
      specialize (IH (S run)).
      replace (Nat.min (S run) 2) with (S run) in IH by lia. done.
    + specialize (IH (S run)).
      replace (Nat.min (S run) 2) with 2%nat in IH by lia.
      replace (Nat.min run 2) with 2%nat by lia. done.
  - simpl. rewrite Ec. apply (IH 0%nat).
Qed.

Lemma short_runs_weaken (run run' : nat) (s : str) :
  (run' <= run)%nat -> short_runs run s = true -> short_runs run' s = true.
Proof.
  revert run run'. induction s as [|c s IH]; intros run run' Hle; [done|].
  simpl. destruct (c =? 10)%N; [|done].
  rewrite !andb_true_iff, !Nat.ltb_lt. intros [Hr Hs].
  split; [lia|]. apply (IH (S run)); [lia|done].
Qed.

Lemma short_runs_suffix (run : nat) (a b : str) :
  short_runs run (a ++ b) = true -> short_runs 0 b = true.
Proof.
  revert run. induction a as [|c a IH]; intros run; simpl.
  - apply short_runs_weaken. lia.
  - destruct (c =? 10)%N; [|apply IH].
    rewrite andb_true_iff. intros [_ H]. by eapply IH.
Qed.

Lemma short_runs_prefix (run : nat) (a b : str) :
  short_runs run (a ++ b) = true -> short_runs run a = true.
Proof.
  revert run. induction a as [|c a IH]; intros run; simpl; [done|].
  destruct (c =? 10)%N; [|apply IH].
  rewrite !andb_true_iff. intros [? H]. split; [done|]. by eapply IH.
Qed.

Lemma short_runs_squeeze (run : nat) (s : str) :
  short_runs run s = true -> squeeze_newlines_from run s = s.
Proof.
  revert run. induction s as [|c s IH]; intros run; [done|].
  simpl. destruct (c =? 10)%N.
  - rewrite andb_true_iff. intros [-> H]. by rewrite IH.
  - intros H. by rewrite IH.
Qed.

Lemma short_runs_startswith (run k : nat) (s : str) :
  short_runs run s = true -> (run <= 2)%nat -> (3 <= run + k)%nat ->
  startswith (repeat 10%N k) s = false.
Proof.
  revert run k. induction s as [|c s IH]; intros run k Hs Hrun Hk.
  - destruct k; [lia|done].
  - destruct k as [|k]; [lia|]. cbn [startswith repeat short_runs] in *.
    destruct (N.eqb_spec c 10) as [->|Hne].
    + apply andb_true_iff in Hs as [Hlt Hs]. apply Nat.ltb_lt in Hlt.
      rewrite N.eqb_refl, andb_true_l. apply (IH (S run)); [done|lia|lia].
    + destruct (N.eqb_spec 10 c); [congruence|done].
Qed.

Lemma short_runs_contains (run : nat) (s : str) :
  short_runs run s = true -> (run <= 2)%nat ->
  contains [10; 10; 10]%N s = false.
Proof.
  revert run. induction s as [|c s IH]; intros run Hs Hrun; [done|].
  cbn [contains]. change [10; 10; 10]%N with (repeat 10%N 3).
  rewrite (short_runs_startswith run 3 (c :: s) Hs Hrun) by lia.
  cbn [short_runs orb] in Hs |- *. destruct (c =? 10)%N.
  - apply andb_true_iff in Hs as [Hlt Hs]. apply Nat.ltb_lt in Hlt.
    apply (IH (S run)); [done|lia].
  - by apply (IH 0%nat); [|lia].
Qed.

Lemma clean_html_facts (text : str) :
  has_tag (V10.clean_html text) = false
  /\ short_runs 0 (V10.clean_html text) = true
  /\ strip (V10.clean_html text) = V10.clean_html text.
Proof.
  unfold V10.clean_html, squeeze_newlines, strip_tags.
  split; [|split].
  - apply strip_no_tag, squeeze_no_tag, strip_tags_no_tag.
  - pose proof (squeeze_short_runs 0 (strip_tags_from None text)) as H.
    simpl in H. unfold strip.
    destruct (lstrip_suffix (squeeze_newlines_from 0 (strip_tags_from None text)))
      as [v Hv].
    destruct (rstrip_prefix (lstrip (squeeze_newlines_from 0
                                       (strip_tags_from None text))))
      as [w Hw].
    rewrite Hv in H. apply short_runs_suffix in H. rewrite Hw in H.
    by apply short_runs_prefix in H.
  - apply strip_idemp.
Qed.

End CleanHtml.

Section NormalizeSefer.
Import Py V10.

Lemma remove_literals_drops (alts : list str) (c0 : char) (skip : nat) (s : str) :
  In [c0] alts ->
  Forall (fun c => c <> c0) (remove_literals alts skip s).
Proof.
  intros Hin. revert skip. induction s as [|c s IH]; intros skip; [constructor|].
  cbn [remove_literals]. destruct skip as [|k]; [|apply IH].
  destruct (List.find (fun a => startswith a (c :: s)) alts) as [a|] eqn:E;
    [apply IH|].
  constructor; [|apply IH]. intros ->.
  pose proof (List.find_none _ _ E _ Hin) as H. simpl in H.
  by rewrite N.eqb_refl in H.
Qed.

End NormalizeSefer.

Section Tokens.
Import Py.

Lemma run_of_Forall (cls : char -> bool) (s : str) :
  Forall (fun c => cls c = true) (run_of cls s).
Proof.
  induction s as [|c s IH]; simpl; [constructor|].
  destruct (cls c) eqn:E; by constructor.
Qed.

Lemma startswith_app (l x : str) : startswith l (l ++ x) = true.
Proof. induction l as [|c l IH]; simpl; [done|]. by rewrite N.eqb_refl. Qed.

Lemma startswith_prefix (l s : str) :
  startswith l s = true -> s = l ++ drop (length l) s.
Proof.
  revert s. induction l as [|c l IH]; intros s; simpl; [by rewrite drop_0|].
  destruct s as [|d s]; [done|]. intros H.
  apply andb_true_iff in H as [Hc Hl]. apply N.eqb_eq in Hc as ->.
  simpl. f_equal. by apply IH.
Qed.

Lemma not_lt_iff (cls : char -> bool) (c : char) :
  (fun c => negb (c =? 60)%N) c = true <-> c <> 60%N.
Proof.
  simpl. rewrite negb_true_iff. split.
  - intros H ->. by rewrite N.eqb_refl in H.
  - intros H. by apply N.eqb_neq.
Qed.

Lemma run_not_lt (s : str) :
  Forall (fun c => c <> 60%N) (run_of (fun c => negb (c =? 60)%N) s).
Proof.
  eapply list.Forall_impl; [apply run_of_Forall|].
  intros c Hc. by apply (not_lt_iff (fun _ => true)).
Qed.

Lemma min_run_nonempty (cls : char -> bool) (s : str) :
  (1 <=? length (run_of cls s))%nat = true -> run_of cls s <> [].
Proof. destruct (run_of cls s); [done|discriminate]. Qed.

Lemma match_tokens_groups (tokens : list token) (s : str)
    (groups : list str) (after : str) :
  match_tokens tokens s = Some (groups, after) ->
  Forall2 group_ok (group_specs tokens) groups.
Proof.
  revert s groups. induction tokens as [|t tokens IH]; intros s groups.
  - cbn. intros [= <- _]. constructor.
  - destruct t as [l|cls min|cls min]; cbn [match_tokens group_specs].
    + destruct (startswith l s); [apply IH|done].
    + destruct (min <=? _)%nat; [apply IH|done].
    + destruct (min <=? _)%nat eqn:Hmin; [|done].
      destruct (match_tokens tokens _) as [[gs r]|] eqn:E; [|done].
      intros [= <- <-]. constructor; [|by eapply IH].
      split; [by apply Nat.leb_le in Hmin|apply run_of_Forall].
Qed.

Lemma search_match (tokens : list token) (s : str) (start st : nat)
    (groups : list str) (after : str) :
  search tokens start s = Some (st, groups, after) ->
  (start <= st)%nat
  /\ match_tokens tokens (drop (st - start) s) = Some (groups, after).
Proof.
  revert start. induction s as [|c s IH]; intros start; cbn [search].
  - destruct (match_tokens tokens []) as [[g r]|] eqn:E; [|done].
    intros [= <- <- <-]. by rewrite Nat.sub_diag.
  - destruct (match_tokens tokens (c :: s)) as [[g r]|] eqn:E.
    + intros [= <- <- <-]. by rewrite Nat.sub_diag.
    + intros H. apply IH in H as [Hle Hm]. split; [lia|].
      replace (st - start)%nat with (S (st - S start)) by lia. done.
Qed.

Lemma search_groups (tokens : list token) (s : str) (start st : nat)
    (groups : list str) (after : str) :
  search tokens start s = Some (st, groups, after) ->
  Forall2 group_ok (group_specs tokens) groups.
Proof. intros H. apply search_match in H as [_ H]. by eapply match_tokens_groups. Qed.

Lemma min_one_nonempty (g : str) :
  (1 <= length g)%nat -> g <> [].
Proof. by destruct g; [simpl; lia|]. Qed.

Lemma class_not_lt (g : str) :
  Forall (fun c => negb (c =? 60)%N = true) g -> Forall (fun c => c <> 60%N) g.
Proof.
  intros H. eapply list.Forall_impl; [exact H|].
  intros c Hc ->. by rewrite N.eqb_refl in Hc.
Qed.

End Tokens.

Section V10Extraction.
Import Py V10.
Variable order : list str -> list str.
Variable todecimal : char -> option N.

Lemma verse_match_spec (line : str) (group : str) :
  verse_match line = Some group ->
  group <> [] /\ Forall (fun c => c <> 60%N) group
  /\ startswith (lit "<b>") line = true.
Proof.
  unfold verse_match, verse_pattern. cbn [match_tokens].
  destruct (startswith (lit "<b>") line) eqn:Hs; [|done].
  set (r := run_of _ _).
  destruct (1 <=? length r)%nat eqn:Hr; [|done].
  match goal with |- context [if ?b then _ else _] => destruct b end;
    [|done].
  cbv beta iota. intros [= Hg]. subst group.
  split; [by apply min_run_nonempty|]. split; [apply run_not_lt|done].
Qed.

Lemma collect_head (lines : list str) (p : str) (ps : list str) :
  exists ps', (collect lines (p :: ps)).1 = p :: ps'.
Proof.
  revert ps. induction lines as [|l rest IH]; intros ps; cbn [collect].
  - by eexists.
  - destruct (contains _ _); [by eexists|].
    destruct (_ && _); [by eexists|].
    match goal with |- context [collect rest ?x] =>
      assert (exists ps0, x = p :: ps0) as [ps0 ->]
        by (destruct (_ && _); by eexists) end.
    destruct (IH ps0) as [ps' Hps'].
    destruct (collect rest (p :: ps0)) as [pl n]. simpl in *. by eexists.
Qed.

Lemma startswith_join (l p : str) (ps : list str) :
  startswith l p = true -> startswith l (join [10%N] (p :: ps)) = true.
Proof.
  intros H. apply startswith_prefix in H.
  destruct ps as [|q qs]; cbn [join]; rewrite H, <- ?app_assoc;
    apply startswith_app.
Qed.

Lemma full_texts_loop_Forall (lines : list str) (skip : nat)
    (current_sefer : option str) (full_texts : list full_text) :
  (forall sefer, current_sefer = Some sefer ->
                 exists name, sefer = normalize_sefer name) ->
  Forall (well_formed_passage order) full_texts ->
  Forall (well_formed_passage order)
         (full_texts_loop order lines skip current_sefer full_texts).
Proof.
  revert skip current_sefer full_texts.
  induction lines as [|l rest IH]; intros skip cur fts Hcur Hfts; [done|].
  cbn [full_texts_loop]. destruct skip as [|k]; [|by apply IH].
  destruct (contains (lit "<center><h1>") (strip l)).
  { apply IH; [|done]. destruct (h1_search (strip l)) as [g|]; [|done].
    destruct (_ && _); [|done]. intros sefer [= <-]. by eexists. }
  destruct cur as [[|c sefer]|]; try by apply IH.
  destruct (opens_passage (strip l)); [|by apply IH].
  destruct (verse_match (strip l)) as [g|] eqn:Hv; [|by apply IH].
  apply verse_match_spec in Hv as (Hne & Hlt & Hb).
  destruct (100 <? length (strip g))%nat eqn:Hlen; [by apply IH|].
  destruct (collect_head rest (strip l) []) as [ps' Hps'].
  destruct (collect rest [strip l]) as [pl n]. simpl in Hps'. subst pl.
  apply IH; [done|].
  destruct (50 <? length _)%nat eqn:Hclean; [|done].
  apply Forall_app. split; [done|]. constructor; [|constructor].
  unfold well_formed_passage. cbn.
  split; [done|]. split; [done|]. split; [by apply Hcur|].
  split; [apply Nat.ltb_ge in Hlen; lia|].
  split; [by apply rstrip_Forall, lstrip_Forall|].
  split; [apply strip_idemp|].
  split; [by apply startswith_join|].
  split; [done|]. split; [by apply Nat.ltb_lt in Hclean|done].
Qed.

Lemma full_texts_loop_no_header (lines : list str) (skip : nat)
    (current_sefer : option str) :
  Forall (fun l => contains (lit "<center><h1>") (strip l) = false) lines ->
  match current_sefer with Some (_ :: _) => False | _ => True end ->
  full_texts_loop order lines skip current_sefer [] = [].
Proof.
  intros H. revert skip current_sefer.
  induction H as [|l rest Hl Hrest IH]; intros skip cur Hcur; [done|].
  cbn [full_texts_loop]. destruct skip as [|k]; [|by apply IH].
  rewrite Hl. destruct cur as [[|c sefer]|]; [by apply IH|done|by apply IH].
Qed.

Lemma entry_groups (s : str) (start st : nat) (groups : list str)
    (after : str) :
  search (entry_pattern todecimal) start s = Some (st, groups, after) ->
  exists id verse summary_text page,
    groups = [id; verse; summary_text; page]
    /\ (verse <> [] /\ Forall (fun c => c <> 60%N) verse)
    /\ (summary_text <> [] /\ Forall (fun c => c <> 60%N) summary_text)
    /\ (page <> [] /\ Forall (fun c => c <> 60%N) page).
Proof.
  intros H. apply search_groups in H.
  unfold entry_pattern in H. cbn [group_specs] in H.
  repeat match goal with
  | H : Forall2 _ (_ :: _) _ |- _ =>
    apply Forall2_cons_inv_l in H as (? & ? & [? ?] & ? & ->)
  | H : Forall2 _ [] _ |- _ => apply Forall2_nil_inv_l in H as ->
  end.
  do 4 eexists. split; [done|].
  split; [by split; [apply min_one_nonempty|apply class_not_lt]|].
  split; by split; [apply min_one_nonempty|apply class_not_lt].
Qed.

Lemma sefer_groups (s : str) (start st : nat) (groups : list str)
    (after : str) :
  search sefer_pattern start s = Some (st, groups, after) ->
  exists name, groups = [name] /\ name <> []
               /\ Forall (fun c => c <> 60%N) name.
Proof.
  intros H. apply search_groups in H.
  unfold sefer_pattern in H. cbn [group_specs] in H.
  repeat match goal with
  | H : Forall2 _ (_ :: _) _ |- _ =>
    apply Forall2_cons_inv_l in H as (? & ? & [? ?] & ? & ->)
  | H : Forall2 _ [] _ |- _ => apply Forall2_nil_inv_l in H as ->
  end.
  eexists. split; [done|].
  split; [by apply min_one_nonempty|by apply class_not_lt].
Qed.

Lemma summaries_loop_Forall (section_html : str) (skip : nat)
    (current_sefer : option str) (summaries : list summary) :
  (forall name, current_sefer = Some name ->
                name <> [] /\ Forall (fun c => c <> 60%N) name) ->
  Forall (well_formed_summary order) summaries ->
  Forall (well_formed_summary order)
         (summaries_loop order todecimal section_html skip current_sefer
            summaries).
Proof.
  revert skip current_sefer summaries.
  induction section_html as [|c rest IH]; intros skip cur sums Hcur Hsums;
    [done|].
  cbn [summaries_loop]. destruct skip as [|k]; [|by apply IH].
  set (text := c :: rest).
  assert (Hentry :
    Forall (well_formed_summary order)
      match search (entry_pattern todecimal) 0 text with
      | Some (_, [id; verse; summary_text; page], after) =>
        summaries_loop order todecimal rest (length text - length after - 1)
          cur
          (sums ++ [mk_summary order cur (int_of_digits todecimal id) verse
                      summary_text page])
      | _ => sums
      end).
  { destruct (search (entry_pattern todecimal) 0 text)
      as [[[st groups] after]|] eqn:E; [|done].
    apply entry_groups in E
      as (id & verse & stext & page & -> & [? ?] & [? ?] & [? ?]).
    apply IH; [done|]. apply Forall_app. split; [done|].
    constructor; [|constructor]. unfold well_formed_summary. cbn.
    split; [|done]. destruct cur as [name|]; [|by left].
    destruct (Hcur name eq_refl) as [Hne Hlt].
    destruct name as [|n name]; [done|]. right. by exists (n :: name). }
  destruct (search sefer_pattern 0 text) as [[[st groups] after]|] eqn:E;
    [|done].
  apply sefer_groups in E as (name & -> & Hne & Hlt).
  match goal with |- context [if ?b then _ else _] => destruct b end;
    [|done].
  apply IH; [|done]. by intros ? [= <-].
Qed.

Lemma extracted_passages_Forall (content : str) :
  Forall (well_formed_passage order) (extract_all_full_texts order content).
Proof. by apply full_texts_loop_Forall. Qed.

Lemma no_header_no_passage_lines (content : str) :
  Forall (fun l => contains (lit "<center><h1>") (strip l) = false)
         (split 10%N content) ->
  extract_all_full_texts order content = [].
Proof. intros H. by apply full_texts_loop_no_header. Qed.

Lemma extracted_summaries_Forall (html : str) :
  Forall (well_formed_summary order)
         (extract_summaries_from_v2 order todecimal html).
Proof.
  unfold extract_summaries_from_v2.
  destruct (summary_section html); [|done]. by apply summaries_loop_Forall.
Qed.

End V10Extraction.

Section Decimal.
Import Py.

Lemma lit_string_of_uint (d : Decimal.uint) :
  lit (NilEmpty.string_of_uint d) = digits d.
Proof.
  induction d; [done|..]; cbn [NilEmpty.string_of_uint digits];
    rewrite <- IHd; unfold lit;
    cbn [String.list_ascii_of_string map]; done.
Qed.

Lemma digits_are_digits (d : Decimal.uint) : Forall is_digit (digits d).
Proof. induction d; simpl; constructor; try done; unfold is_digit; lia. Qed.

Lemma to_uint_nonempty (n : N) : digits (N.to_uint n) <> [].
Proof.
  destruct n as [|p]; [done|]. simpl.
  pose proof (DecimalPos.Unsigned.to_uint_nonnil p) as H.
  destruct (Pos.to_uint p); [done|..]; done.
Qed.

Lemma str_of_int_digits (n : N) :
  str_of_int n <> [] /\ Forall is_digit (str_of_int n).
Proof.
  unfold str_of_int. rewrite lit_string_of_uint.
  split; [apply to_uint_nonempty|apply digits_are_digits].
Qed.

Variable todecimal : char -> option N.
Hypothesis todecimal_ascii :
  forall c, (48 <= c <= 57)%N -> todecimal c = Some (c - 48)%N.

Let step (n : N) (c : char) : N := (n * 10 + default 0 (todecimal c))%N.

Lemma fold_digits_acc (d : Decimal.uint) (acc : positive) :
  fold_left step (digits d) (Npos acc) = Npos (Pos.of_uint_acc d acc).
Proof.
  revert acc. induction d; intros acc; [done|..];
    cbn [digits fold_left Pos.of_uint_acc]; rewrite <- IHd; f_equal;
    unfold step; rewrite todecimal_ascii by lia; cbn [default from_option];
    unfold id; lia.
Qed.

Lemma fold_digits (d : Decimal.uint) :
  fold_left step (digits d) 0%N = Pos.of_uint d.
Proof.
  induction d; [done|..]; cbn [digits fold_left Pos.of_uint].
  - rewrite <- IHd. f_equal. unfold step.
    rewrite todecimal_ascii by lia. done.
  - rewrite <- (fold_digits_acc d 1). f_equal. unfold step.
    by rewrite todecimal_ascii by lia.
  - rewrite <- (fold_digits_acc d 2). f_equal. unfold step.
    by rewrite todecimal_ascii by lia.
  - rewrite <- (fold_digits_acc d 3). f_equal. unfold step.
    by rewrite todecimal_ascii by lia.
  - rewrite <- (fold_digits_acc d 4). f_equal. unfold step.
    by rewrite todecimal_ascii by lia.
  - rewrite <- (fold_digits_acc d 5). f_equal. unfold step.
    by rewrite todecimal_ascii by lia.
  - rewrite <- (fold_digits_acc d 6). f_equal. unfold step.
    by rewrite todecimal_ascii by lia.
  - rewrite <- (fold_digits_acc d 7). f_equal. unfold step.
    by rewrite todecimal_ascii by lia.
  - rewrite <- (fold_digits_acc d 8). f_equal. unfold step.
    by rewrite todecimal_ascii by lia.
  - rewrite <- (fold_digits_acc d 9). f_equal. unfold step.
    by rewrite todecimal_ascii by lia.
Qed.

Lemma int_of_str (n : N) :
  V10.int_of_digits todecimal (str_of_int n) = n.
Proof.
  unfold V10.int_of_digits, str_of_int. rewrite lit_string_of_uint.
  change (fold_left step (digits (N.to_uint n)) 0%N = n).
  rewrite fold_digits. apply DecimalN.Unsigned.of_to.
Qed.

End Decimal.

Section ScanLemmas.
Import Py.

Lemma mismatch_app (l x y : str) :
  mismatch l x = true -> mismatch l (x ++ y) = true.
Proof.
  revert x. induction l as [|a l IH]; intros [|b x]; simpl; try done.
  destruct (a =? b)%N; simpl; [apply IH|done].
Qed.

Lemma mismatch_startswith (l x : str) :
  mismatch l x = true -> startswith l x = false.
Proof.
  revert x. induction l as [|a l IH]; intros [|b x]; simpl; try done.
  destruct (a =? b)%N; simpl; [apply IH|done].
Qed.

Lemma blocked_app (l c1 c2 : str) :
  blocked l c1 = true -> blocked l c2 = true -> blocked l (c1 ++ c2) = true.
Proof.
  intros H1 H2. induction c1 as [|a c1 IH]; [done|].
  cbn [blocked] in H1. apply andb_true_iff in H1 as [Hm H1].
  change ((a :: c1) ++ c2) with (a :: (c1 ++ c2)). cbn [blocked].
  rewrite IH by done.
  change (a :: c1 ++ c2) with ((a :: c1) ++ c2). by rewrite mismatch_app.
Qed.

Lemma blocked_field (c0 : char) (l f : str) :
  Forall (fun c => c <> c0) f -> blocked (c0 :: l) f = true.
Proof.
  induction 1 as [|c f Hc Hf IH]; [done|]. cbn [blocked mismatch].
  rewrite IH. apply N.eqb_neq in Hc. rewrite N.eqb_sym in Hc.
  by rewrite Hc.
Qed.

Lemma search_here (tokens : list token) (n : nat) (s : str)
    (groups : list str) (after : str) :
  match_tokens tokens s = Some (groups, after) ->
  search tokens n s = Some (n, groups, after).
Proof. intros H. destruct s; cbn [search]; by rewrite H. Qed.

Lemma search_blocked (l : str) (tokens : list token) (n : nat)
    (c rest : str) :
  blocked l c = true ->
  search (Lit l :: tokens) n (c ++ rest)
  = search (Lit l :: tokens) (n + length c) rest.
Proof.
  revert n. induction c as [|a c IH]; intros n H.
  - simpl. by rewrite Nat.add_0_r.
  - cbn [blocked] in H. apply andb_true_iff in H as [Hm H].
    change ((a :: c) ++ rest) with (a :: (c ++ rest)). cbn [search].
    change (a :: (c ++ rest)) with ((a :: c) ++ rest).
    cbn [match_tokens].
    rewrite (mismatch_startswith l ((a :: c) ++ rest))
      by (by apply mismatch_app).
    rewrite IH by done. f_equal. simpl. lia.
Qed.

Lemma search_end (l : str) (tokens : list token) (n : nat) (c : str) :
  l <> [] -> blocked l c = true -> search (Lit l :: tokens) n c = None.
Proof.
  intros Hl H. rewrite <- (app_nil_r c), search_blocked by done.
  cbn. by destruct l.
Qed.

Lemma before_blocked (l c rest : str) :
  blocked l c = true ->
  before_literal l (c ++ rest) = (app c) <$> before_literal l rest.
Proof.
  induction c as [|a c IH]; intros H.
  - simpl. by destruct (before_literal l rest).
  - cbn [blocked] in H. apply andb_true_iff in H as [Hm H].
    change ((a :: c) ++ rest) with (a :: (c ++ rest)). cbn [before_literal].
    change (a :: (c ++ rest)) with ((a :: c) ++ rest).
    rewrite (mismatch_startswith l ((a :: c) ++ rest))
      by (by apply mismatch_app).
    rewrite IH by done. by destruct (before_literal l rest).
Qed.

Lemma before_here (l rest : str) : before_literal l (l ++ rest) = Some [].
Proof.
  pose proof (startswith_app l rest) as H.
  destruct (l ++ rest); cbn [before_literal]; by rewrite H.
Qed.

Lemma startswith_length (l s : str) :
  startswith l s = true -> (length l <= length s)%nat.
Proof.
  revert s. induction l as [|a l IH]; intros [|b s]; simpl; try done; [lia|].
  intros H. apply andb_true_iff in H as [_ H]. apply IH in H. lia.
Qed.

Lemma startswith_app_r (l s x : str) :
  (length l <= length s)%nat -> startswith l (s ++ x) = startswith l s.
Proof.
  revert s. induction l as [|a l IH]; intros [|b s]; simpl; try done; [lia|].
  intros H. rewrite IH by lia. done.
Qed.

Lemma find_literal_length (l s r : str) :
  find_literal l s = Some r -> (length l <= length s)%nat.
Proof.
  induction s as [|c s IH]; cbn [find_literal].
  - destruct (startswith l []) eqn:E; [|done].
    intros _. by apply startswith_length.
  - destruct (startswith l (c :: s)) eqn:E.
    + intros _. by apply startswith_length.
    + intros H. apply IH in H. simpl. lia.
Qed.

Lemma find_literal_app (l s r x : str) :
  find_literal l s = Some r -> find_literal l (s ++ x) = Some (r ++ x).
Proof.
  induction s as [|c s IH].
  - cbn [find_literal]. destruct (startswith l []) eqn:E; [|done].
    destruct l; [|done]. intros [= <-]. simpl.
    destruct x; cbn [find_literal startswith]; by rewrite ?drop_0.
  - intros H. pose proof (find_literal_length _ _ _ H) as Hlen.
    cbn [find_literal] in H.
    change ((c :: s) ++ x) with (c :: (s ++ x)). cbn [find_literal].
    change (c :: (s ++ x)) with ((c :: s) ++ x).
    rewrite startswith_app_r by done.
    destruct (startswith l (c :: s)) eqn:E.
    + injection H as <-. f_equal. by rewrite drop_app_le.
    + by apply IH.
Qed.

Lemma run_of_app (cls : char -> bool) (w x : str) :
  Forall (fun c => cls c = true) w -> stops cls x -> run_of cls (w ++ x) = w.
Proof.
  intros Hw Hx. induction Hw as [|c w Hc Hw IH]; simpl.
  - destruct x as [|c x]; [done|]. simpl in *. by rewrite Hx.
  - by rewrite Hc, IH.
Qed.

Lemma match_lit (l : str) (tokens : list token) (x : str) :
  match_tokens (Lit l :: tokens) (l ++ x) = match_tokens tokens x.
Proof.
  cbn [match_tokens]. by rewrite startswith_app, drop_app_length.
Qed.

Lemma match_run (cls : char -> bool) (tokens : list token) (w x : str) :
  Forall (fun c => cls c = true) w -> stops cls x ->
  match_tokens (Run cls 0 :: tokens) (w ++ x) = match_tokens tokens x.
Proof.
  intros Hw Hx. cbn [match_tokens]. rewrite run_of_app by done.
  by rewrite drop_app_length.
Qed.

Lemma match_group (cls : char -> bool) (min : nat) (tokens : list token)
    (g x : str) :
  Forall (fun c => cls c = true) g -> (min <= length g)%nat -> stops cls x ->
  match_tokens (Group cls min :: tokens) (g ++ x)
  = match match_tokens tokens x with
    | Some (groups, rest) => Some (g :: groups, rest)
    | None => None
    end.
Proof.
  intros Hg Hmin Hx. cbn [match_tokens]. rewrite run_of_app by done.
  apply Nat.leb_le in Hmin. by rewrite Hmin, drop_app_length.
Qed.

Lemma match_tokens_suffix (tokens : list token) (s : str)
    (groups : list str) (after : str) :
  match_tokens tokens s = Some (groups, after) -> exists pre, s = pre ++ after.
Proof.
  revert s groups. induction tokens as [|t tokens IH]; intros s groups.
  - cbn. intros [= _ <-]. by exists [].
  - assert (Hd : forall k g, match_tokens tokens (drop k s) = Some (g, after) ->
                   exists pre, s = pre ++ after).
    { intros k g H. apply IH in H as [pre H]. exists (take k s ++ pre).
      by rewrite <- app_assoc, <- H, take_drop. }
    destruct t as [l|cls min|cls min]; cbn [match_tokens].
    + destruct (startswith l s); [apply Hd|done].
    + destruct (min <=? _)%nat; [apply Hd|done].
    + destruct (min <=? _)%nat; [|done].
      destruct (match_tokens tokens _) as [[gs r]|] eqn:E; [|done].
      intros [= <- <-]. by eapply Hd.
Qed.

Lemma search_suffix (tokens : list token) (s : str) (n st : nat)
    (groups : list str) (after : str) :
  search tokens n s = Some (st, groups, after) -> exists pre, s = pre ++ after.
Proof.
  intros H. apply search_match in H as [_ H].
  apply match_tokens_suffix in H as [pre H].
  exists (take (st - n) s ++ pre). by rewrite <- app_assoc, <- H, take_drop.
Qed.

End ScanLemmas.

Section V10RoundTrip.
Import Py V10.
Variable order : list str -> list str.
Variable todecimal : char -> option N.
Hypothesis todecimal_ascii :
  forall c, (48 <= c <= 57)%N -> todecimal c = Some (c - 48)%N.
Hypothesis todecimal_bracket : todecimal 93%N = None.

Lemma summaries_loop_skip (x y : str) (cur : option str)
    (sums : list summary) :
  summaries_loop order todecimal (x ++ y) (length x) cur sums = summaries_loop order todecimal y 0 cur sums.
Proof. induction x as [|a x IH]; [done|]. simpl. apply IH. Qed.

Lemma summaries_loop_advance (text pre after : str) (cur : option str)
    (sums : list summary) :
  text = pre ++ after -> (length after < length text)%nat ->
  match text with
  | [] => sums
  | _ :: rest =>
    summaries_loop order todecimal rest (length text - length after - 1) cur sums
  end = summaries_loop order todecimal after 0 cur sums.
Proof.
  intros -> Hlen. rewrite length_app in Hlen.
  destruct pre as [|a pre]; [simpl in Hlen; lia|].
  change ((a :: pre) ++ after) with (a :: (pre ++ after)). cbv iota.
  replace (length (a :: pre ++ after) - length after - 1)%nat
    with (length pre) by (simpl; rewrite length_app; lia).
  apply summaries_loop_skip.
Qed.

Lemma summaries_loop_entry (text : str) (cur : option str)
    (sums : list summary) (st : nat) (id verse stext page after : str) :
  search (entry_pattern todecimal) 0 text = Some (st, [id; verse; stext; page], after) ->
  (length after < length text)%nat ->
  (forall st' g a, search sefer_pattern 0 text = Some (st', g, a) ->
                   (st <= st')%nat) ->
  summaries_loop order todecimal text 0 cur sums
  = summaries_loop order todecimal after 0 cur
      (sums ++ [mk_summary order cur (int_of_digits todecimal id) verse stext
                  page]).
Proof.
  intros He Hlen Hs.
  destruct (search_suffix _ _ _ _ _ _ He) as [pre Hpre].
  rewrite <- (summaries_loop_advance text pre after) by done.
  destruct text as [|c rest]; [simpl in Hlen; lia|].
  cbn [V10.summaries_loop]. rewrite He.
  destruct (search sefer_pattern 0 (c :: rest)) as [[[st' g] a]|] eqn:E;
    [|done].
  destruct g as [|name g]; [done|].
  specialize (Hs _ _ _ eq_refl). apply Nat.ltb_ge in Hs. by rewrite Hs.
Qed.

Lemma summaries_loop_sefer (text : str) (cur : option str)
    (sums : list summary) (st : nat) (name after : str) :
  search sefer_pattern 0 text = Some (st, [name], after) ->
  (length after < length text)%nat ->
  (forall st' g a, search (entry_pattern todecimal) 0 text = Some (st', g, a) ->
                   (st < st')%nat) ->
  summaries_loop order todecimal text 0 cur sums = summaries_loop order todecimal after 0 (Some name) sums.
Proof.
  intros Hs Hlen He.
  destruct (search_suffix _ _ _ _ _ _ Hs) as [pre Hpre].
  rewrite <- (summaries_loop_advance text pre after) by done.
  destruct text as [|c rest]; [simpl in Hlen; lia|].
  cbn [V10.summaries_loop]. rewrite Hs.
  destruct (search (entry_pattern todecimal) 0 (c :: rest)) as [[[st' g] a]|] eqn:E;
    [|done].
  specialize (He _ _ _ eq_refl). apply Nat.ltb_lt in He. by rewrite He.
Qed.

Lemma summaries_loop_end (text : str) (cur : option str)
    (sums : list summary) :
  search sefer_pattern 0 text = None -> search (entry_pattern todecimal) 0 text = None ->
  summaries_loop order todecimal text 0 cur sums = sums.
Proof.
  intros Hs He. destruct text as [|c rest]; [done|].
  cbn [V10.summaries_loop]. by rewrite Hs, He.
Qed.

(** The pieces of the templates. *)
Let sp8 : str := repeat 32%N 8.
Let ws9 : str := 10%N :: repeat 32%N 8.
Let ws13 : str := 10%N :: repeat 32%N 12.
Let LS : str := lit "<div class=`sefer-header`>".
Let LE : str := lit "<div class=`summary-entry`>".
Let Lid : str := lit "<span class=`entry-id`>[".
Let Lverse : str := lit "<span class=`entry-verse`>".
Let Lsummary : str := lit "<span class=`entry-summary`>".
Let Lpage : str := lit "<span class=`entry-page`>".
Let Lspan : str := lit "</span>".
Let Ldiv : str := lit "</div>".
Let Ldivider : str := lit "<div class=`divider`>".

Let entry_text (id verse stext page x : str) : str :=
  LE ++ ws13 ++ Lid ++ id ++ [93%N] ++ Lspan ++ ws13 ++ Lverse ++ verse
  ++ Lspan ++ ws13 ++ Lsummary ++ stext ++ Lspan ++ ws13 ++ Lpage ++ page
  ++ Lspan ++ ws9 ++ Ldiv ++ x.

Lemma summary_entry_shape (s : summary) (x : str) :
  summary_entry s ++ x
  = sp8 ++ entry_text (str_of_int (s_id s)) (s_verse s) (s_summary s)
             (s_page s) (10%N :: x).
Proof.
  unfold summary_entry, entry_text.
  assert (lit "        <div class=`summary-entry`>
            <span class=`entry-id`>[" = sp8 ++ LE ++ ws13 ++ Lid) as ->
    by (vm_compute; reflexivity).
  assert (lit "]</span>
            <span class=`entry-verse`>"
          = [93%N] ++ Lspan ++ ws13 ++ Lverse) as ->
    by (vm_compute; reflexivity).
  assert (lit "</span>
            <span class=`entry-summary`>" = Lspan ++ ws13 ++ Lsummary) as ->
    by (vm_compute; reflexivity).
  assert (lit "</span>
            <span class=`entry-page`>" = Lspan ++ ws13 ++ Lpage) as ->
    by (vm_compute; reflexivity).
  assert (lit "</span>
        </div>
" = Lspan ++ ws9 ++ Ldiv ++ [10%N]) as -> by (vm_compute; reflexivity).
  by rewrite <- !app_assoc.
Qed.

Lemma sefer_header_shape (sefer x : str) :
  sefer_header sefer ++ x = sp8 ++ LS ++ sefer ++ Ldiv ++ 10%N :: x.
Proof.
  unfold sefer_header.
  assert (lit "        <div class=`sefer-header`>" = sp8 ++ LS) as ->
    by (vm_compute; reflexivity).
  assert (lit "</div>
" = Ldiv ++ [10%N]) as -> by (vm_compute; reflexivity).
  by rewrite <- !app_assoc.
Qed.

Lemma stops_lt (cls : char -> bool) (l x : str) :
  match l with c :: _ => cls c | [] => true end = false -> stops cls (l ++ x).
Proof. by destruct l. Qed.

Lemma ws_isspace (n : nat) :
  Forall (fun c => isspace c = true) (10%N :: repeat 32%N n).
Proof. constructor; [done|]. induction n; by constructor. Qed.

Lemma not_lt_class (g : str) :
  Forall (fun c => c <> 60%N) g ->
  Forall (fun c => negb (c =? 60)%N = true) g.
Proof.
  intros H. eapply list.Forall_impl; [exact H|]. intros c Hc.
  apply negb_true_iff. by apply N.eqb_neq.
Qed.

Lemma digit_class (g : str) :
  Forall is_digit g ->
  Forall (fun c => bool_decide (is_Some (todecimal c)) = true) g.
Proof.
  intros H. eapply list.Forall_impl; [exact H|]. intros c Hc.
  apply bool_decide_eq_true. rewrite todecimal_ascii by done. by eexists.
Qed.

Lemma nonempty_length (g : str) : g <> [] -> (1 <= length g)%nat.
Proof. destruct g; [done|simpl; lia]. Qed.

Lemma entry_match (id verse stext page x : str) :
  id <> [] -> Forall is_digit id ->
  verse <> [] -> Forall (fun c => c <> 60%N) verse ->
  stext <> [] -> Forall (fun c => c <> 60%N) stext ->
  page <> [] -> Forall (fun c => c <> 60%N) page ->
  match_tokens (entry_pattern todecimal) (entry_text id verse stext page x)
  = Some ([id; verse; stext; page], x).
Proof.
  intros Hid1 Hid2 Hv1 Hv2 Hs1 Hs2 Hp1 Hp2.
  unfold V10.entry_pattern, entry_text.
  assert (lit "]</span>" = [93%N] ++ Lspan) as ->
    by (vm_compute; reflexivity).
  fold LE Lid Lverse Lsummary Lpage Lspan Ldiv.
  rewrite match_lit.
  rewrite match_run by (apply ws_isspace || by apply stops_lt).
  rewrite match_lit.
  rewrite match_group; [|by apply digit_class|by apply nonempty_length|];
    [|simpl; apply bool_decide_eq_false; rewrite todecimal_bracket;
      by intros [? ?]].
  rewrite (app_assoc [93%N] Lspan), match_lit.
  rewrite match_run by (apply ws_isspace || by apply stops_lt).
  rewrite match_lit.
  rewrite match_group;
    [|by apply not_lt_class|by apply nonempty_length|by apply stops_lt].
  rewrite match_lit.
  rewrite match_run by (apply ws_isspace || by apply stops_lt).
  rewrite match_lit.
  rewrite match_group;
    [|by apply not_lt_class|by apply nonempty_length|by apply stops_lt].
  rewrite match_lit.
  rewrite match_run by (apply ws_isspace || by apply stops_lt).
  rewrite match_lit.
  rewrite match_group;
    [|by apply not_lt_class|by apply nonempty_length|by apply stops_lt].
  rewrite match_lit.
  rewrite match_run by (apply ws_isspace || by apply stops_lt).
  rewrite match_lit. done.
Qed.

Lemma sefer_match (name x : str) :
  name <> [] -> Forall (fun c => c <> 60%N) name ->
  match_tokens sefer_pattern (LS ++ name ++ Ldiv ++ x) = Some ([name], x).
Proof.
  intros Hn1 Hn2. unfold sefer_pattern. fold LS Ldiv.
  rewrite match_lit.
  rewrite match_group;
    [|by apply not_lt_class|by apply nonempty_length|by apply stops_lt].
  by rewrite match_lit.
Qed.

Lemma search_entry_blocked (c rest : str) (n : nat) :
  blocked LE c = true ->
  search (entry_pattern todecimal) n (c ++ rest) = search (entry_pattern todecimal) (n + length c) rest.
Proof. apply search_blocked. Qed.

Lemma search_sefer_blocked (c rest : str) (n : nat) :
  blocked LS c = true ->
  search sefer_pattern n (c ++ rest) = search sefer_pattern (n + length c) rest.
Proof. apply search_blocked. Qed.

Lemma search_entry_end (c : str) (n : nat) :
  blocked LE c = true -> search (entry_pattern todecimal) n c = None.
Proof.
  apply search_end. intros H. apply (f_equal length) in H.
  vm_compute in H. discriminate.
Qed.

Lemma search_sefer_end (c : str) (n : nat) :
  blocked LS c = true -> search sefer_pattern n c = None.
Proof.
  apply search_end. intros H. apply (f_equal length) in H.
  vm_compute in H. discriminate.
Qed.

Lemma summaries_loop_one (s : summary) (rest : str) (sums : list summary) :
  printable s ->
  summaries_loop order todecimal (10%N :: summary_entry s ++ rest) 0 (Some (s_sefer s)) sums
  = summaries_loop order todecimal (10%N :: rest) 0 (Some (s_sefer s)) (sums ++ [reread order s]).
Proof.
  intros (_ & [Hv1 Hv2] & [Hs1 Hs2] & [Hp1 Hp2]).
  destruct (str_of_int_digits (s_id s)) as [Hid1 Hid2].
  rewrite summary_entry_shape.
  rewrite (summaries_loop_entry _ _ _ 9 (str_of_int (s_id s)) (s_verse s)
             (s_summary s) (s_page s) (10%N :: rest)).
  - by rewrite int_of_str.
  - rewrite (app_comm_cons sp8 _ 10%N).
    rewrite search_entry_blocked by (vm_compute; reflexivity).
    apply search_here. by apply entry_match.
  - unfold entry_text. rewrite !length_cons, !length_app, !length_cons. lia.
  - intros st' g a H. rewrite (app_comm_cons sp8 _ 10%N) in H.
    rewrite search_sefer_blocked in H by (vm_compute; reflexivity).
    by apply search_match in H as [H _].
Qed.

Lemma summaries_loop_header (s : summary) (rest : str) (cur : option str)
    (sums : list summary) :
  printable s ->
  summaries_loop order todecimal (10%N :: sefer_header (s_sefer s) ++ rest) 0 cur sums
  = summaries_loop order todecimal (10%N :: rest) 0 (Some (s_sefer s)) sums.
Proof.
  intros ([Hn1 Hn2] & _).
  rewrite sefer_header_shape.
  apply (summaries_loop_sefer _ _ _ 9).
  - rewrite (app_comm_cons sp8 _ 10%N).
    rewrite search_sefer_blocked by (vm_compute; reflexivity).
    apply search_here. by apply sefer_match.
  - rewrite !length_cons, !length_app, !length_cons. lia.
  - intros st' g a H.
    rewrite (app_comm_cons sp8 _ 10%N), (app_assoc (10%N :: sp8) LS) in H.
    rewrite search_entry_blocked in H by (vm_compute; reflexivity).
    apply search_match in H as [H _].
    match type of H with (_ + ?n <= _)%nat =>
      assert (Hlen : n = 35%nat) by (vm_compute; reflexivity)
    end.
    rewrite Hlen in H. lia.
Qed.

Lemma summaries_loop_index (matched : list match_result) (tail : str)
    (cur : option str) (sums : list summary) :
  Forall (fun r => printable (mr_summary r)) matched ->
  blocked LS (10%N :: tail) = true -> blocked LE (10%N :: tail) = true ->
  summaries_loop order todecimal (10%N :: index_loop [] cur matched ++ tail) 0 cur sums
  = sums ++ map (fun r => reread order (mr_summary r)) matched.
Proof.
  intros Hm Hs He. revert cur sums.
  induction Hm as [|r rest Hr Hrest IH]; intros cur sums.
  - rewrite app_nil_r. cbn [index_loop app].
    apply summaries_loop_end;
      [apply search_sefer_end, Hs|apply search_entry_end, He].
  - cbn [index_loop map]. rewrite index_loop_app, app_nil_l, <- !app_assoc.
    unfold sefer_change. destruct (bool_decide_reflect (Some (s_sefer (mr_summary r)) = cur)) as [<-|Hne].
    + rewrite app_nil_l, summaries_loop_one, IH by done.
      by rewrite <- app_assoc.
    + rewrite summaries_loop_header, summaries_loop_one, IH by done.
      by rewrite <- app_assoc.
Qed.

Lemma digits_not_lt (g : str) :
  Forall is_digit g -> Forall (fun c => c <> 60%N) g.
Proof.
  intros H. eapply list.Forall_impl; [exact H|]. unfold is_digit. lia.
Qed.

Lemma blocked_lt (l f : str) :
  (exists l', l = 60%N :: l') -> Forall (fun c => c <> 60%N) f ->
  blocked l f = true.
Proof. intros [l' ->]. apply blocked_field. Qed.

Lemma index_blocked (matched : list match_result) (cur : option str) :
  Forall (fun r => printable (mr_summary r)) matched ->
  blocked Ldivider (index_loop [] cur matched) = true.
Proof.
  assert (Hd : exists l', Ldivider = 60%N :: l')
    by (eexists; vm_compute; reflexivity).
  intros Hm. revert cur. induction Hm as [|r rest Hr Hrest IH]; intros cur;
    [done|].
  cbn [index_loop]. rewrite index_loop_app, app_nil_l.
  destruct Hr as ([Hn1 Hn2] & [Hv1 Hv2] & [Hs1 Hs2] & [Hp1 Hp2]).
  destruct (str_of_int_digits (s_id (mr_summary r))) as [_ Hid].
  apply digits_not_lt in Hid.
  apply blocked_app; [apply blocked_app|apply IH].
  - unfold sefer_change. destruct (bool_decide _); [done|].
    rewrite <- (app_nil_r (sefer_header _)), sefer_header_shape.
    repeat (apply blocked_app;
            [first [by vm_compute | by apply blocked_lt]|]).
    by vm_compute.
  - rewrite <- (app_nil_r (summary_entry _)), summary_entry_shape.
    unfold entry_text.
    repeat (apply blocked_app;
            [first [by vm_compute | by apply blocked_lt]|]).
    by vm_compute.
Qed.

Lemma summary_section_page (matched : list match_result) (rest : str) :
  Forall (fun r => printable (mr_summary r)) matched ->
  summary_section
    (html_head ++ index_loop [] None matched ++ html_mid ++ rest)
  = Some (10%N :: index_loop [] None matched ++ lit "    </section>
    ").
Proof.
  intros Hm. unfold summary_section.
  assert (Hhead : find_literal
                    (lit "<div class=`source-header`>מפתח ענינים</div>")
                    html_head = Some [10%N]) by (vm_compute; reflexivity).
  rewrite (find_literal_app _ _ _ _ Hhead).
  assert (html_mid = lit "    </section>
    " ++ Ldivider ++ lit "</div>
    <section>
        <div class=`source-header`>מקור השפע</div>
") as -> by (vm_compute; reflexivity).
  remember (lit "    </section>
    ") as pre eqn:Hpre.
  remember (lit "</div>
    <section>
        <div class=`source-header`>מקור השפע</div>
") as post eqn:Hpost.
  remember (index_loop [] None matched) as idx eqn:Hidx.
  transitivity (before_literal Ldivider
                  ((10%N :: idx ++ pre) ++ Ldivider ++ post ++ rest)).
  { f_equal. cbn [app]. by rewrite <- !app_assoc. }
  rewrite before_blocked, before_here.
  - cbn [fmap option_fmap option_map]. by rewrite app_nil_r.
  - change (blocked Ldivider (([10%N] ++ idx) ++ pre) = true).
    apply blocked_app; [|subst pre; by vm_compute].
    apply blocked_app; [by vm_compute|].
    subst idx. by apply index_blocked.
Qed.

Lemma page_index_reread (store : list full_text)
    (matched : list match_result) :
  Forall (fun r => printable (mr_summary r)) matched ->
  extract_summaries_from_v2 order todecimal (generate_html store matched)
  = map (fun r => reread order (mr_summary r)) matched.
Proof.
  intros Hm. unfold extract_summaries_from_v2.
  rewrite generate_html_blocks, summary_section_page by done.
  by apply (summaries_loop_index matched _ None []).
Qed.

End V10RoundTrip.

Section V10Main.
Import Py V10.
Variable order : list str -> list str.
Variable todecimal : char -> option N.

Lemma match_all_all_used (sc : summary -> full_text -> Q)
    (summaries : list summary) (full_texts : list full_text) :
  Forall (fun ft => ft_used ft = true) full_texts ->
  match_all_by sc summaries full_texts
  = (map (fun s => MatchResult s None 0) summaries, full_texts).
Proof.
  intros Hused. induction summaries as [|s ss IH]; [done|].
  rewrite match_all_cons.
  assert (Hnone : find_best_match_by sc s full_texts = None).
  { apply find_best_match_None. intros j ft Hl Hu.
    rewrite list.Forall_forall in Hused.
    assert (ft_used ft = true)
      by (apply Hused; by eapply list_elem_of_lookup_2).
    congruence. }
  unfold match_one. rewrite Hnone. simpl. by rewrite IH.
Qed.

Lemma word_loop_unmatched (store : list full_text) (n i : nat)
    (matched : list match_result) (doc : list docx_item) (count : nat) :
  Forall (fun r => mr_full_text r = None) matched ->
  word_loop store n i matched doc count = (doc, count).
Proof.
  intros H. revert i. induction H as [|r rest Hr Hrest IH]; intros i; [done|].
  cbn [word_loop]. unfold deref. rewrite Hr. apply IH.
Qed.

Lemma main_cases (html content : str) :
  let summaries := extract_summaries_from_v2 order todecimal html in
  (main order todecimal html content = inl ZeroDivisionError
   <-> summaries = [])
  /\ (summary_section html = None ->
      main order todecimal html content = inl ZeroDivisionError)
  /\ (summaries <> [] ->
      Forall (fun l => contains (lit "<center><h1>") (strip l) = false)
             (split 10%N content) ->
      main order todecimal html content
      = inr (generate_html [] (map (fun s => MatchResult s None 0) summaries),
             ([ Paragraph (lit "ליקוטי ספרי חסידות - פרשת בשלח");
                Paragraph [] ], 0%nat))).
Proof.
  cbv zeta. unfold main.
  split; [|split].
  - destruct (match_all _ _) as [matched final].
    by destruct (extract_summaries_from_v2 order todecimal html).
  - intros Hnone. unfold extract_summaries_from_v2. rewrite Hnone.
    by destruct (match_all _ _).
  - intros Hne Hlines.
    rewrite (no_header_no_passage_lines order content Hlines).
    unfold match_all. rewrite match_all_all_used by constructor.
    destruct (extract_summaries_from_v2 order todecimal html) as [|s ss] eqn:E;
      [done|].
    do 2 f_equal. unfold generate_word. apply word_loop_unmatched.
    apply list.Forall_forall. intros r Hr.
    apply list_elem_of_fmap in Hr as (s' & -> & _). done.
Qed.

End V10Main.

(** * The claims *)

(** C1.  Greedy exclusive matching.  In a run of [match_all] (v10) and of
    [match_summaries_to_full_texts] (v8), whatever the scoring, the passages
    the results refer to are pairwise distinct: no passage is the match of
    two summaries.  In v10, moreover, every passage matched was unused in
    the store the run started from. *)
Theorem matching_is_exclusive :
  (forall (sc : V10.summary -> V10.full_text -> Q)
          (summaries : list V10.summary) (full_texts : list V10.full_text),
     let matched := (V10.match_all_by sc summaries full_texts).1 in
     NoDup (omap V10.mr_full_text matched)
     /\ Forall (fun idx => exists ft, full_texts !! idx = Some ft
                                      /\ V10.ft_used ft = false)
               (omap V10.mr_full_text matched))
  /\ (forall (sc : V8.summary -> V8.full_text -> Q)
             (summaries : list V8.summary) (full_texts : list V8.full_text),
        NoDup (omap V8.mr_full_text
                 (V8.match_summaries_to_full_texts_by sc summaries full_texts))).
Proof.
  split.
  - intros sc ss fts matched.
    destruct (match_all_inv sc ss fts) as (_ & _ & Hnd & Hunused & _).
    split; [exact Hnd|]. apply list.Forall_forall. exact Hunused.
  - intros sc ss fts. unfold V8.match_summaries_to_full_texts_by.
    apply v8_match_loop_exclusive; [constructor|].
    intros idx H. by apply elem_of_nil in H.
Qed.



(** C9.  Shape of the result of [match_all].  The list returned has the
    length of [summaries], and its i-th element holds the i-th summary,
    with either a passage that the store marks used and a positive score,
    or no passage and score 0. *)
Theorem match_all_shape
    (sc : V10.summary -> V10.full_text -> Q)
    (summaries : list V10.summary) (full_texts : list V10.full_text) :
  let matched := (V10.match_all_by sc summaries full_texts).1 in
  let final := (V10.match_all_by sc summaries full_texts).2 in
  length matched = length summaries
  /\ Forall2 (V10.result_shape final) summaries matched.
Proof.
  intros matched final. split; [apply match_all_length|].
  apply match_all_inv.
Qed.

Lemma all_below_by_computation (sc : V10.summary -> V10.full_text -> Q)
    (s : V10.summary) (store : list V10.full_text) :
  forallb (fun ft => V10.ft_used ft || Py.Qgtb 40 (sc s ft)) store = true ->
  forall j ft, store !! j = Some ft -> V10.ft_used ft = false ->
               (sc s ft < 40)%Q.
Proof.
  intros H j ft Hl Hu. rewrite forallb_forall in H.
  apply list_elem_of_lookup_2, list_elem_of_In in Hl.
  specialize (H _ Hl). rewrite Hu in H. by apply Qgtb_true in H.
Qed.

(** C4, as the code has it.  When no passage that is unused at the time
    summary [i] is reached scores 40 or more, [find_best_match] returns no
    passage, [match_all] records the summary with no passage and score 0,
    and the page [generate_html] returns holds, after its index, one block
    per summary, the i-th being the quote entry of that summary, after
    the header of its sefer if the sefer changes there: the entry shows
    the id, the verse and the page of the summary, and the placeholder in
    place of a text. *)
Theorem unmatched_summary_placeholder
    (sc : V10.summary -> V10.full_text -> Q)
    (summaries : list V10.summary) (full_texts : list V10.full_text)
    (i : nat) (s : V10.summary) :
  summaries !! i = Some s ->
  (forall j ft,
     (V10.match_all_by sc (take i summaries) full_texts).2 !! j = Some ft ->
     V10.ft_used ft = false -> (sc s ft < 40)%Q) ->
  let matched := (V10.match_all_by sc summaries full_texts).1 in
  let final := (V10.match_all_by sc summaries full_texts).2 in
  V10.find_best_match_by sc s
    (V10.match_all_by sc (take i summaries) full_texts).2 = None
  /\ matched !! i = Some (V10.MatchResult s None 0)
  /\ exists (blocks : list Py.str) (header : Py.str),
       V10.generate_html final matched
       = V10.html_head ++ V10.index_loop [] None matched ++ V10.html_mid
         ++ concat blocks ++ V10.html_tail
       /\ length blocks = length summaries
       /\ (header = []
           \/ header = Py.lit "        <div class=`sefer-header`>"
                       ++ V10.s_sefer s ++ Py.lit "</div>
")
       /\ blocks !! i
          = Some (header
                  ++ Py.lit "        <div class=`quote-entry`>
            <div class=`quote-header`>
                <span>[" ++ Py.str_of_int (V10.s_id s) ++ Py.lit "]</span>
                <span>" ++ V10.s_verse s ++ Py.lit "</span>
                <span>עמ' " ++ V10.s_page s ++ Py.lit "</span>
            </div>
            <div class=`quote-text`>"
                  ++ Py.lit "<span class=`no-match`>[לא נמצא טקסט מתאים]</span>"
                  ++ Py.lit "</div>
        </div>
").
Proof.
  intros Hl Hlow matched final.
  assert (Hnone : V10.find_best_match_by sc s
            (V10.match_all_by sc (take i summaries) full_texts).2 = None)
    by (by apply find_best_match_None).
  assert (Hi : matched !! i = Some (V10.MatchResult s None 0)).
  { unfold matched. rewrite (match_all_lookup sc _ _ _ _ Hl).
    unfold V10.match_one. by rewrite Hnone. }
  split; [done|]. split; [done|].
  destruct (quote_blocks_entry final None matched i _ Hi)
    as (header & Hheader & Hblock).
  exists (V10.quote_blocks final None matched), header.
  split; [apply generate_html_blocks|]. split.
  { rewrite quote_blocks_length. apply match_all_length. }
  split.
  - destruct Hheader as [->| ->]; [by left|right].
    unfold V10.sefer_header. reflexivity.
  - rewrite Hblock.
    unfold V10.quote_entry, V10.deref, V10.mr_full_text, V10.mr_summary,
      V10.quote_text, V10.no_match_text.
    reflexivity.
Qed.

Lemma unmatched_summary_placeholder_witness :
  (V10.match_all Sample.summaries Sample.full_texts).1 !! 1%nat
  = Some (V10.MatchResult (V10.mk_summary Sample.as_built
                             (Some (Py.lit "ספר א הק'")) 2
                             (Py.lit "אז ישיר") (Py.lit "שירת הים")
                             (Py.lit "כ"))
                          None 0).
Proof.
  refine (proj1 (proj2 (unmatched_summary_placeholder V10.score
                          Sample.summaries Sample.full_texts 1
                          (V10.mk_summary Sample.as_built
                             (Some (Py.lit "ספר א הק'")) 2
                             (Py.lit "אז ישיר") (Py.lit "שירת הים")
                             (Py.lit "כ")) _ _))).
  - vm_compute. reflexivity.
  - apply all_below_by_computation. vm_compute. reflexivity.
Defined.

(** C4 as stated fails at the threshold.  No passage scores above 40 for
    this summary: the first sample passage scores 0 and the second exactly
    40, two of the three keywords of the summary being found in it.  The
    summary is matched to the second passage all the same, since the test
    of [find_best_match] is [best_score >= 40], and the page shows the
    passage and no placeholder. *)
Lemma match_at_the_threshold :
  let s := V10.mk_summary Sample.as_built (Some (Py.lit "ספר א")) 3
             (Py.lit "שירה") (Py.lit "מים לחם ושירה") (Py.lit "ל") in
  let run := V10.match_all [s] Sample.full_texts in
  map (V10.score s) Sample.full_texts = [0%Q; 40%Q]
  /\ V10.find_best_match s Sample.full_texts = Some (1%nat, 40%Q)
  /\ run.1 = [V10.MatchResult s (Some 1%nat) 40]
  /\ Py.contains (Py.lit "[לא נמצא טקסט מתאים]")
                 (V10.generate_html run.2 run.1) = false
  /\ Py.contains (Py.lit "לחם מן השמים") (V10.generate_html run.2 run.1)
     = true.
Proof.
  cbv zeta.
  repeat match goal with |- _ /\ _ => split end; vm_compute; reflexivity.
Qed.

Lemma word_loop_same (store store' : list V10.full_text)
    (rs rs' : list V10.match_result) (n i : nat)
    (doc : list V10.docx_item) (count : nat) :
  Forall2 V10.same_passage store store' -> Forall2 V10.same_result rs rs' ->
  V10.word_loop store n i rs doc count = V10.word_loop store' n i rs' doc count.
Proof.
  intros Hf Hrs. revert i doc count.
  induction Hrs as [|r r' rs rs' Hr _ IH]; intros i doc count; [done|].
  cbn [V10.word_loop].
  assert (Hd : match V10.deref store r, V10.deref store' r' with
               | Some ft, Some ft' => V10.ft_text ft = V10.ft_text ft'
               | None, None => True
               | _, _ => False
               end).
  { destruct Hr as (_ & Hi & _). unfold V10.deref. rewrite <- Hi.
    destruct (V10.mr_full_text r) as [idx|]; [|done].
    destruct (store !! idx) as [ft|] eqn:E.
    - destruct (Forall2_lookup_l _ _ _ _ _ Hf E) as (ft' & -> & Hft).
      apply Hft.
    - assert (store' !! idx = None) as ->; [|done].
      apply lookup_ge_None. apply lookup_ge_None in E.
      by rewrite <- (list.Forall2_length _ _ _ Hf). }
  destruct (V10.deref store r) as [ft|], (V10.deref store' r') as [ft'|];
    try done.
  destruct Hr as ((Hid & _ & Hv & Hs & Hp & _) & _).
  unfold V10.word_text. rewrite Hd, Hid, Hv, Hs, Hp. apply IH.
Qed.

(** C7.  Output truncation.  With [body] the cleaned text of a passage, the
    HTML renderer emits the first 3000 characters of [body] followed by the
    marker exactly when [body] is longer than 3000 characters, and [body]
    itself otherwise; the Word renderer does the same with 2500 characters.
    Either marker ends in the ellipsis.  These texts are what the two
    renderers put out for a matched entry: the page [generate_html]
    returns holds, after its index, one block per entry, that of a matched
    entry being its quote entry with the text so cut, after the header of
    the sefer if it changes there; and the document of [generate_word]
    holds a paragraph with the text so cut. *)
Theorem body_truncation (ft : V10.full_text) :
  let body := V10.clean_html (V10.ft_text ft) in
  (V10.quote_text (Some ft) = take 3000 body ++ V10.html_marker
   <-> (3000 < length body)%nat)
  /\ ((length body <= 3000)%nat -> V10.quote_text (Some ft) = body)
  /\ (V10.word_text ft = take 2500 body ++ V10.word_marker
      <-> (2500 < length body)%nat)
  /\ ((length body <= 2500)%nat -> V10.word_text ft = body)
  /\ drop 2 V10.html_marker = Py.lit "[...]"
  /\ drop 1 V10.word_marker = Py.lit "[...]"
  /\ (forall (store : list V10.full_text) (matched : list V10.match_result)
             (i : nat) (r : V10.match_result),
        matched !! i = Some r -> V10.deref store r = Some ft ->
        (exists (blocks : list Py.str) (header : Py.str),
           V10.generate_html store matched
           = V10.html_head ++ V10.index_loop [] None matched ++ V10.html_mid
             ++ concat blocks ++ V10.html_tail
           /\ length blocks = length matched
           /\ (header = []
               \/ header = Py.lit "        <div class=`sefer-header`>"
                           ++ V10.s_sefer (V10.mr_summary r) ++ Py.lit "</div>
")
           /\ blocks !! i
              = Some (header
                      ++ Py.lit "        <div class=`quote-entry`>
            <div class=`quote-header`>
                <span>[" ++ Py.str_of_int (V10.s_id (V10.mr_summary r))
                      ++ Py.lit "]</span>
                <span>" ++ V10.s_verse (V10.mr_summary r) ++ Py.lit "</span>
                <span>עמ' " ++ V10.s_page (V10.mr_summary r)
                      ++ Py.lit "</span>
            </div>
            <div class=`quote-text`>"
                      ++ (if (3000 <? length body)%nat
                          then take 3000 body ++ Py.lit "

[...]"
                          else body)
                      ++ Py.lit "</div>
        </div>
"))
        /\ V10.Paragraph (if (2500 <? length body)%nat
                          then take 2500 body ++ Py.lit " [...]"
                          else body)
           ∈ (V10.generate_word store matched).1).
Proof.
  intros body.
  assert (Hcut : forall (cap : nat) (marker : Py.str),
            marker <> [] ->
            ((if (cap <? length body)%nat then take cap body ++ marker
              else body) = take cap body ++ marker
             <-> (cap < length body)%nat)
            /\ ((length body <= cap)%nat ->
                (if (cap <? length body)%nat then take cap body ++ marker
                 else body) = body)).
  { intros cap marker Hm. destruct (Nat.ltb_spec cap (length body)) as [H|H].
    - split; [done|lia].
    - split; [|done]. split; [|lia]. intros Heq.
      rewrite take_ge in Heq by lia.
      rewrite <- (app_nil_r body) in Heq at 1.
      apply app_inv_head in Heq. by subst. }
  destruct (Hcut 3000%nat V10.html_marker) as [H1 H2]; [done|].
  destruct (Hcut 2500%nat V10.word_marker) as [H3 H4]; [done|].
  split; [exact H1|]. split; [exact H2|]. split; [exact H3|].
  split; [exact H4|]. split; [vm_compute; reflexivity|].
  split; [vm_compute; reflexivity|].
  intros store matched i r Hl Hd. split.
  - destruct (quote_blocks_entry store None matched i r Hl)
      as (header & Hheader & Hblock).
    exists (V10.quote_blocks store None matched), header.
    split; [apply generate_html_blocks|].
    split; [apply quote_blocks_length|]. split.
    + destruct Hheader as [->| ->]; [by left|right].
      unfold V10.sefer_header. reflexivity.
    + rewrite Hblock, Hd.
      unfold V10.quote_entry, V10.quote_text, V10.html_marker. reflexivity.
  - pose proof (word_loop_text store (length matched) 0 matched
                  [ V10.Paragraph (Py.lit "ליקוטי ספרי חסידות - פרשת בשלח");
                    V10.Paragraph [] ] 0 i r ft Hl Hd) as H.
    unfold V10.word_text, V10.word_marker in H. exact H.
Qed.

Lemma body_truncation_witness :
  V10.quote_text (Some Sample.long_passage)
  = repeat 1488%N 3000 ++ V10.html_marker
  /\ V10.word_text Sample.medium_passage
     = repeat 1488%N 2500 ++ V10.word_marker
  /\ V10.quote_text (Some Sample.medium_passage) = repeat 1488%N 2501.
Proof.
  split; [|split].
  - refine (eq_trans
              (proj2 (proj1 (body_truncation Sample.long_passage)) _) _).
    + vm_compute. lia.
    + vm_compute. reflexivity.
  - refine (eq_trans
              (proj2 (proj1 (proj2 (proj2
                 (body_truncation Sample.medium_passage)))) _) _).
    + vm_compute. lia.
    + vm_compute. reflexivity.
  - refine (eq_trans
              (proj1 (proj2 (body_truncation Sample.medium_passage)) _) _).
    + vm_compute. lia.
    + vm_compute. reflexivity.
Defined.

(** C8.  Determinism of extraction and matching.  Two runs on the same
    input, each enumerating the keyword sets in an order of its own, pair
    the same summaries with the same passages at the same scores, leave the
    same passages used, and render the same page and the same document. *)
Theorem rerun_identical (order1 order2 : list Py.str -> list Py.str)
    (entries : list (option Py.str * N * Py.str * Py.str * Py.str))
    (passages : list (Py.str * Py.str * Py.str)) :
  (forall l, order1 l ≡ₚ l) -> (forall l, order2 l ≡ₚ l) ->
  let run1 := V10.extract_and_match order1 entries passages in
  let run2 := V10.extract_and_match order2 entries passages in
  map V10.pairing run1.1 = map V10.pairing run2.1
  /\ map V10.ft_used run1.2 = map V10.ft_used run2.2
  /\ V10.generate_html run1.2 run1.1 = V10.generate_html run2.2 run2.1
  /\ V10.generate_word run1.2 run1.1 = V10.generate_word run2.2 run2.1.
Proof.
  intros H1 H2 run1 run2.
  assert (Hss : Forall2 V10.same_summary
            (map (fun '(current_sefer, id, verse, summary_text, page) =>
                    V10.mk_summary order1 current_sefer id verse summary_text
                                   page) entries)
            (map (fun '(current_sefer, id, verse, summary_text, page) =>
                    V10.mk_summary order2 current_sefer id verse summary_text
                                   page) entries)).
  { apply Forall2_fmap, Forall_Forall2_diag, list.Forall_forall.
    intros [[[[cs id] verse] st] page] _.
    repeat split. by apply get_hebrew_words_order. }
  assert (Hfs : Forall2 V10.same_passage
            (map (fun '(name, verse, text) =>
                    V10.mk_full_text order1 name verse text) passages)
            (map (fun '(name, verse, text) =>
                    V10.mk_full_text order2 name verse text) passages)).
  { apply Forall2_fmap, Forall_Forall2_diag, list.Forall_forall.
    intros [[name verse] text] _.
    repeat split. by apply get_hebrew_words_order. }
  destruct (match_all_same _ _ _ _ Hss Hfs) as [Hrs Hfin].
  fold (V10.extract_and_match order1 entries passages) in Hrs, Hfin.
  fold (V10.extract_and_match order2 entries passages) in Hrs, Hfin.
  fold run1 run2 in Hrs, Hfin.
  split; [by apply same_result_pairing|]. split.
  { clear Hrs. induction Hfin as [|ft ft' l l' Hft _ IH]; [done|].
    simpl. rewrite IH. f_equal. apply Hft. }
  split; [by apply generate_html_same|].
  unfold V10.generate_word. rewrite (list.Forall2_length _ _ _ Hrs).
  by apply word_loop_same.
Qed.

Lemma rerun_identical_witness :
  map V10.pairing
      (V10.extract_and_match Sample.as_built Sample.entries Sample.passages).1
  = map V10.pairing
        (V10.extract_and_match Sample.reversed Sample.entries
                               Sample.passages).1.
Proof.
  refine (proj1 (rerun_identical Sample.as_built Sample.reversed
                   Sample.entries Sample.passages _ _)).
  - intros l. reflexivity.
  - intros l. apply Permutation_sym, Permutation_rev.
Defined.

Lemma scan_skip_sc_ext {A : Type} (skip skip' : nat -> A -> bool)
    (sc sc' : A -> Q) (l : list A) (idx : nat) (best_idx : option nat)
    (best_score : Q) :
  (forall i a, skip i a = skip' i a) -> (forall a, sc a = sc' a) ->
  scan skip sc l idx best_idx best_score
  = scan skip' sc' l idx best_idx best_score.
Proof.
  intros Hs Hc. apply scan_ext. apply Forall_Forall2_diag, list.Forall_forall.
  intros a _. split; [intros i; apply Hs|apply Hc].
Qed.

Lemma v7_sefer_points_range (sefer ft_sefer : Py.str) :
  (0 <= V7.sefer_points sefer ft_sefer <= 30)%Z.
Proof.
  unfold V7.sefer_points.
  repeat match goal with |- context [if ?b then _ else _] => destruct b end;
    lia.
Qed.

(** C2, as the code has it.  Of the three matchers the claim cites, that
    of parse_summaries_to_content alone restricts the candidates by
    author, and by similarity rather than equality: a summary that had no
    section is given one only from the sections whose author is similar to
    its own above 0.7, the float that this literal denotes, and so above
    7/10 when the similarity is a float.  In v10 the result of
    [find_best_match] does not depend on the sefer of the summary or of
    the passages, and in v7 the sefer changes the score by at most 30
    points. *)
Theorem book_restriction :
  (forall (ratio : Py.str -> Py.str -> Q)
          (content_sections : list Mapper.ContentSection)
          (summary : Mapper.Summary) (c : Mapper.ContentSection),
     Mapper.matched_content summary = None ->
     Mapper.matched_content
       (Mapper.map_summary ratio content_sections summary) = Some c ->
     let sim := Mapper.similarity_score ratio (Mapper.section_author c)
                                        (Mapper.author summary) in
     c ∈ content_sections
     /\ (Py.float_lit 0.7 < sim)%Q
     /\ ((Py.round64 sim == sim)%Q -> (0.7 < sim)%Q))
  /\ (forall (id : N) (sefer sefer' verse summary_text page : Py.str)
             (keywords : list Py.str) (rename : V10.full_text -> Py.str)
             (full_texts : list V10.full_text),
        V10.find_best_match
          (V10.Summary id sefer' verse summary_text page keywords)
          (map (fun ft =>
                  V10.FullText (rename ft) (V10.ft_verse ft) (V10.ft_text ft)
                    (V10.ft_text_clean ft) (V10.ft_keywords ft)
                    (V10.ft_used ft)) full_texts)
        = V10.find_best_match
            (V10.Summary id sefer verse summary_text page keywords)
            full_texts)
  /\ (forall (sefer sefer' : Py.str) (s : V7.summary) (ft : V7.full_text),
        (V7.score sefer s ft <= V7.score sefer' s ft + 30)%Z).
Proof.
  split; [|split].
  - intros ratio sections summary c Hnone Hc sim.
    apply map_summary_matched in Hc as [Hc|(Hin & Hsim & _)]; [congruence|].
    fold sim in Hsim. split; [done|]. split; [done|]. intros Hfloat.
    apply above_float_lit; [done|done|].
    assert (0 <= Py.float_lit 0.7)%Q
      by (apply Qle_by_computation; vm_compute; reflexivity).
    lra.
  - intros id sefer sefer' verse st page kws rename fts.
    unfold V10.find_best_match, V10.find_best_match_by, best_above.
    f_equal. apply scan_ext. apply Forall2_fmap_l, Forall_Forall2_diag.
    apply list.Forall_forall. intros ft _. split; reflexivity.
  - intros sefer sefer' s ft. unfold V7.score.
    pose proof (v7_sefer_points_range (V7.normalize sefer)
                  (V7.normalize (V7.ft_sefer ft))).
    pose proof (v7_sefer_points_range (V7.normalize sefer')
                  (V7.normalize (V7.ft_sefer ft))).
    lia.
Qed.

Lemma book_restriction_witness :
  Sample.section ∈ [Sample.section]
  /\ (Py.float_lit 0.7
      < Mapper.similarity_score Sample.equal_ratio
          (Mapper.section_author Sample.section)
          (Mapper.author Sample.index_summary))%Q.
Proof.
  destruct (proj1 book_restriction Sample.equal_ratio [Sample.section]
              Sample.index_summary Sample.section) as (Hin & Hsim & _).
  - reflexivity.
  - vm_compute. reflexivity.
  - split; [exact Hin|exact Hsim].
Defined.

(** C2 as stated fails.  In v10 the first sample entry, of the sefer whose
    normalized name is "ספר א", is paired with the first sample passage, of
    the sefer "ספר ב"; v7 pairs the same two. *)
Lemma cross_book_pairing :
  (exists r ft,
     (V10.extract_and_match Sample.as_built Sample.entries Sample.passages).1
       !! 0%nat = Some r
     /\ V10.mr_full_text r = Some 0%nat
     /\ Qeq (V10.mr_score r) 136
     /\ (V10.extract_and_match Sample.as_built Sample.entries
                               Sample.passages).2 !! 0%nat = Some ft
     /\ V10.s_sefer (V10.mr_summary r) = Py.lit "ספר א"
     /\ V10.ft_sefer ft = Py.lit "ספר ב"
     /\ V10.s_sefer (V10.mr_summary r) <> V10.ft_sefer ft)
  /\ V7.match_summary_to_fulltext Sample.v7_summary [Sample.v7_full_text] ∅
     = inr (Some 0%nat, {[0%nat]} ∪ ∅)
  /\ V7.s_sefer Sample.v7_summary = Some (Py.lit "ספר א")
  /\ V7.ft_sefer Sample.v7_full_text = Py.lit "ספר ב"
  /\ V7.normalize (Py.lit "ספר א") <> V7.normalize (Py.lit "ספר ב").
Proof.
  split; [|split; [|split; [|split]]].
  - eexists _, _. split; [vm_compute; reflexivity|].
    split; [vm_compute; reflexivity|]. split; [vm_compute; reflexivity|].
    split; [vm_compute; reflexivity|]. split; [vm_compute; reflexivity|].
    split; [vm_compute; reflexivity|]. vm_compute. discriminate.
  - vm_compute. reflexivity.
  - reflexivity.
  - reflexivity.
  - vm_compute. discriminate.
Qed.

(** C5, as the code has it.  For every similarity that lies between 0 and
    1, as the ratio of difflib does, the confidence computed for a summary
    and a section of its author lies between 0 and 1.1500000000000001,
    the float that the four weights 0.4, 0.15, 0.3 and 0.3 add up to in
    the order of the code; that float is above 1.15. *)
Theorem confidence_range (ratio : Py.str -> Py.str -> Q)
    (summary : Mapper.Summary)
    (content_sections : list Mapper.ContentSection)
    (section : Mapper.ContentSection) (author_sim : Q) :
  (forall a b, (0 <= ratio a b <= 1)%Q) ->
  (section, author_sim)
    ∈ Mapper.author_sections_of ratio summary content_sections ->
  (0 <= Mapper.section_score ratio summary section author_sim
   <= Py.Q_of_float 1.1500000000000001)%Q
  /\ (1.15 < Py.Q_of_float 1.1500000000000001)%Q.
Proof.
  intros Hrange Hin.
  assert (Hfull : Mapper.full_score = Py.Q_of_float 1.1500000000000001)
    by (vm_compute; reflexivity).
  rewrite <- Hfull. split.
  - apply section_score_range; [done|].
    apply author_sections_spec in Hin as (_ & -> & _). apply Hrange.
  - rewrite Hfull. vm_compute. reflexivity.
Qed.

Lemma equal_ratio_range (a b : Py.str) :
  (0 <= Sample.equal_ratio a b <= 1)%Q.
Proof. unfold Sample.equal_ratio. destruct (bool_decide (a = b)); lra. Qed.

Lemma confidence_range_witness :
  (0 <= Mapper.section_score Sample.equal_ratio Sample.index_summary
          Sample.section 1 <= Py.Q_of_float 1.1500000000000001)%Q.
Proof.
  refine (proj1 (confidence_range Sample.equal_ratio Sample.index_summary
                   [Sample.section] Sample.section 1 equal_ratio_range _)).
  vm_compute. apply list_elem_of_here.
Defined.

(** C5 as stated fails.  For the sample summary and its section (same
    author, same page, the opening words a bold phrase of the section),
    every similarity that gives 1 on equal strings, as the ratio of difflib
    does, makes the section a candidate whose confidence is
    1.1500000000000001. *)
Lemma confidence_exceeds_one :
  exists (summary : Mapper.Summary) (section : Mapper.ContentSection),
    forall ratio : Py.str -> Py.str -> Q,
      (forall a, ratio a a = 1%Q) ->
      Mapper.author_sections_of ratio summary [section] = [(section, 1%Q)]
      /\ Mapper.section_score ratio summary section 1
         = Py.Q_of_float 1.1500000000000001
      /\ (1 < Mapper.section_score ratio summary section 1)%Q
      /\ Mapper.match_confidence (Mapper.map_summary ratio [section] summary)
         = Py.Q_of_float 1.1500000000000001.
Proof.
  exists Sample.index_summary, Sample.section. intros ratio Hrefl.
  assert (Hauthor : Mapper.normalize_text (Py.lit "רבינו בחיי")
                    = Py.lit "רבינו בחיי") by (vm_compute; reflexivity).
  assert (Hsections : Mapper.author_sections_of ratio Sample.index_summary
                        [Sample.section] = [(Sample.section, 1%Q)]).
  { unfold Mapper.author_sections_of, Mapper.similarity_score.
    cbn [omap list_omap Sample.section Sample.index_summary
         Mapper.section_author Mapper.author].
    rewrite Hauthor, Hrefl. reflexivity. }
  assert (Hscore : Mapper.section_score ratio Sample.index_summary
                     Sample.section 1
                   = Py.Q_of_float 1.1500000000000001).
  { unfold Mapper.section_score.
    replace (Mapper.phrase_loop ratio
               (Mapper.normalize_text
                  (Mapper.opening_words Sample.index_summary))
               (Mapper.opening_phrases Sample.section) 0) with 1%Q
      by (vm_compute; reflexivity).
    vm_compute. reflexivity. }
  split; [exact Hsections|]. split; [exact Hscore|].
  split; [rewrite Hscore; vm_compute; reflexivity|].
  unfold Mapper.map_summary. rewrite Hsections.
  cbn [Mapper.best_section]. rewrite Hscore. vm_compute. reflexivity.
Qed.

(** The same confidence in the primitive floats, as Python prints it, and
    the rounding of this file against them. *)
Example confidence_binary64 :
  (0 + 1.0 * 0.4 + 0.15 + 0.3 + 1.0 * 0.3)%float = 1.1500000000000001%float
  /\ Mapper.full_score = Py.Q_of_float (0 + 1.0 * 0.4 + 0.15 + 0.3 + 1.0 * 0.3)
  /\ map Py.float_lit [0.9; 0.8; 0.7; 0.4; 0.15; 0.3; 0.2; 0.1]%Q
     = map Py.Q_of_float [0.9; 0.8; 0.7; 0.4; 0.15; 0.3; 0.2; 0.1]%float
  /\ Py.fadd (Py.fadd (Py.float_lit 0.4) (Py.float_lit 0.15))
             (Py.float_lit 0.3)
     = Py.Q_of_float (0.4 + 0.15 + 0.3)
  /\ Py.fadd (Py.float_lit 0.15)
             (Py.fadd (Py.float_lit 0.4) (Py.float_lit 0.3))
     = Py.Q_of_float (0.15 + (0.4 + 0.3))
  /\ Py.fmul (Py.float_lit 0.9) (Py.float_lit 0.4)
     = Py.Q_of_float (0.9 * 0.4).
Proof.
  cbv zeta.
  repeat match goal with |- _ /\ _ => split end; vm_compute; reflexivity.
Qed.

Lemma attempts_log_posts (page_num : Z) (first n : nat) :
  length (List.filter Ocr.is_post (Ocr.attempts_log page_num first n)) = n.
Proof.
  revert first. induction n as [|n IH]; intros first; [done|].
  destruct n as [|n]; [done|].
  change (Ocr.attempts_log page_num first (S (S n)))
    with (Ocr.Post page_num first :: Ocr.Sleep 5
            :: Ocr.attempts_log page_num (S first) (S n)).
  cbn [List.filter Ocr.is_post length]. by rewrite IH.
Qed.

(** C6.  Bounded OCR retry.  Whatever the requests meet, [ocr_with_gemini]
    and [ocr_with_gemini_flash] return a record for the page, holding an
    error or a text, after [n] requests with [1 <= n <= 3] and a sleep of 5
    seconds between two requests.  When every attempt fails they make the
    three requests and return a record with an ['error'] key and no text.
    The loop over the pages therefore appends one record per page. *)
Theorem ocr_retry_bounded (http : nat -> Ocr.attempt_outcome) (page_num : Z) :
  (forall out,
     out = Ocr.ocr_with_gemini http page_num
     \/ out = Ocr.ocr_with_gemini_flash http page_num ->
     out.1 !! "page" = Some (Ocr.VInt page_num)
     /\ (is_Some (out.1 !! "error") \/ is_Some (out.1 !! "text"))
     /\ (exists n, (1 <= n <= 3)%nat
                   /\ out.2 = Ocr.attempts_log page_num 0 n
                   /\ length (List.filter Ocr.is_post out.2) = n)
     /\ ((forall k, (k < 3)%nat -> Ocr.failed (http k) = true) ->
         is_Some (out.1 !! "error") /\ out.1 !! "text" = None
         /\ out.2 = [ Ocr.Post page_num 0; Ocr.Sleep 5; Ocr.Post page_num 1;
                      Ocr.Sleep 5; Ocr.Post page_num 2 ]))
  /\ (forall (https : Z -> nat -> Ocr.attempt_outcome) (pages : list Z),
        (Ocr.ocr_pages https pages [] []).1
        = map (fun p => (Ocr.ocr_with_gemini (https p) p).1) pages).
Proof.
  split; [|intros https pages; apply (ocr_pages_results https pages [] [])].
  intros out Hout.
  assert (Hpost : Ocr.loop_post page_num 0 3 [] out).
  { destruct Hout as [-> | ->];
      [apply gemini_loop_post|apply flash_loop_post]; lia. }
  assert (Hfail : (forall k, (k < 3)%nat -> Ocr.failed (http k) = true) ->
                  Ocr.loop_failed page_num 0 3 [] out).
  { intros Hall. destruct Hout as [-> | ->];
      [apply gemini_loop_failed|apply flash_loop_failed];
      try lia; intros k Hk; apply Hall; lia. }
  destruct Hpost as (Hpage & Hkeys & n & Hn & Hpos & Hlog).
  split; [exact Hpage|]. split; [exact Hkeys|]. split.
  - exists n. split; [lia|]. split; [exact Hlog|].
    rewrite Hlog. apply attempts_log_posts.
  - intros Hall. destruct (Hfail Hall) as (He & Ht & Hl).
    split; [exact He|]. split; [exact Ht|]. exact Hl.
Qed.

Lemma ocr_retry_bounded_witness :
  is_Some ((Ocr.ocr_with_gemini Sample.server_down 4).1 !! "error")
  /\ (Ocr.ocr_with_gemini Sample.server_down 4).1 !! "text" = None
  /\ (Ocr.ocr_with_gemini Sample.server_down 4).2
     = [ Ocr.Post 4 0; Ocr.Sleep 5; Ocr.Post 4 1; Ocr.Sleep 5; Ocr.Post 4 2 ].
Proof.
  refine (proj2 (proj2 (proj2
            (proj1 (ocr_retry_bounded Sample.server_down 4) _ (or_introl eq_refl))))
            _).
  intros k Hk. reflexivity.
Defined.

(** C10.  Normalisation.  [normalize_text] is idempotent, and what it
    returns holds no character from U+0591 to U+05C7, none of the
    punctuation characters it replaces, and no two adjacent whitespace
    characters. *)
Theorem normalize_text_idempotent (s : Py.str) :
  Mapper.normalize_text (Mapper.normalize_text s) = Mapper.normalize_text s
  /\ Forall (fun c => Mapper.is_nikud c = false) (Mapper.normalize_text s)
  /\ Forall (fun c => Mapper.is_punct c = false) (Mapper.normalize_text s)
  /\ Py.no_adjacent_ws (Mapper.normalize_text s).
Proof.
  destruct (normalize_text_tidy s) as (H1 & H2 & H3).
  split; [apply normalize_text_idemp|]. split; [exact H1|].
  split; [exact H2|]. by eapply single_spaced_no_adjacent.
Qed.

Example normalize_text_sample :
  Mapper.normalize_text (Py.lit "  וַיְהִי, בְּשַׁלַּח —  פַּרְעֹה!  ")
  = Py.lit "ויהי בשלח פרעה".
Proof. vm_compute. reflexivity. Qed.

(** * Further properties of the code

    ** v10 and v8: how many summaries are matched *)

(** X1.  [match_all] (v10) matches no more summaries than there are
    summaries, and no more than there are passages that were unused when
    it started: the count [main] prints is bounded by both. *)
Theorem matched_count_bounded (sc : V10.summary -> V10.full_text -> Q)
    (summaries : list V10.summary) (full_texts : list V10.full_text) :
  let matched := (V10.match_all_by sc summaries full_texts).1 in
  (V10.matched_count matched <= length summaries)%nat
  /\ (V10.matched_count matched
      <= length (List.filter (fun ft => negb (V10.ft_used ft)) full_texts))%nat.
Proof.
  simpl. rewrite v10_matched_count_omap.
  destruct (match_all_inv sc summaries full_texts) as (_ & _ & Hnd & Hun & _).
  split.
  - etransitivity; [apply omap_length_le|]. by rewrite match_all_length.
  - apply distinct_positions_bound; [done|].
    intros i Hi. destruct (Hun i Hi) as (ft & Hl & Hu).
    exists ft. split; [done|]. by rewrite Hu.
Qed.

(** X2.  [match_summaries_to_full_texts] (v8) returns one result per
    summary, and the count of matches [main] prints is at most the number
    of summaries and at most the number of passages. *)
Theorem v8_matched_count_bounded (sc : V8.summary -> V8.full_text -> Q)
    (summaries : list V8.summary) (full_texts : list V8.full_text) :
  let matched := V8.match_summaries_to_full_texts_by sc summaries full_texts in
  length matched = length summaries
  /\ (V8.matched_count matched <= length summaries)%nat
  /\ (V8.matched_count matched <= length full_texts)%nat.
Proof.
  simpl. rewrite v8_matched_count_omap.
  unfold V8.match_summaries_to_full_texts_by.
  assert (Hlen : length (V8.match_loop sc summaries full_texts [] ∅).1
                 = length summaries) by by rewrite v8_match_loop_length.
  split; [done|]. split.
  - rewrite <- Hlen. apply omap_length_le.
  - rewrite <- (filter_true_length full_texts).
    apply distinct_positions_bound.
    + apply v8_match_loop_exclusive; [constructor|].
      intros idx H. by apply elem_of_nil in H.
    + intros i Hi.
      destruct (v8_match_loop_in_range sc summaries full_texts [] ∅) with (idx := i)
        as [ft Hft]; [|done|by exists ft].
      intros idx H. by apply elem_of_nil in H.
Qed.

(** ** v10: what [match_all] does to the passages *)

(** X3.  [match_all] changes nothing in [full_texts] but the ['used'] flag
    of the passages it matched: the list keeps its length, and the dict at
    each index is the one that was there, with ['used'] set if a result
    refers to it. *)
Theorem match_all_marks_only (sc : V10.summary -> V10.full_text -> Q)
    (summaries : list V10.summary) (full_texts : list V10.full_text) :
  let matched := (V10.match_all_by sc summaries full_texts).1 in
  let final := (V10.match_all_by sc summaries full_texts).2 in
  length final = length full_texts
  /\ forall j,
       final !! j
       = (fun ft => if bool_decide (j ∈ omap V10.mr_full_text matched)
                    then V10.set_used ft else ft) <$> full_texts !! j.
Proof.
  simpl. split; [apply match_all_inv|]. intros j. apply match_all_store.
Qed.

(** X4.  Matching in two batches.  [match_all] on a list of summaries
    gives what it gives on the first part of the list, followed by what it
    gives on the rest when started on the passages as the first part left
    them. *)
Theorem match_all_in_batches (sc : V10.summary -> V10.full_text -> Q)
    (batch1 batch2 : list V10.summary) (full_texts : list V10.full_text) :
  let first := V10.match_all_by sc batch1 full_texts in
  let second := V10.match_all_by sc batch2 first.2 in
  V10.match_all_by sc (batch1 ++ batch2) full_texts
  = (first.1 ++ second.1, second.2).
Proof. apply match_all_app. Qed.

(** X5.  With no unused passage, in particular with no passage at all,
    [match_all] leaves every summary unmatched, with score 0, and does not
    touch the passages. *)
Theorem no_unused_passage_no_match (sc : V10.summary -> V10.full_text -> Q)
    (summaries : list V10.summary) (full_texts : list V10.full_text) :
  Forall (fun ft => V10.ft_used ft = true) full_texts ->
  V10.match_all_by sc summaries full_texts
  = (map (fun s => V10.MatchResult s None 0) summaries, full_texts).
Proof.
  intros Hused. induction summaries as [|s ss IH]; [done|].
  rewrite match_all_cons.
  assert (Hnone : V10.find_best_match_by sc s full_texts = None).
  { apply find_best_match_None. intros j ft Hl Hu.
    rewrite list.Forall_forall in Hused.
    assert (V10.ft_used ft = true) by (apply Hused; by eapply list_elem_of_lookup_2).
    congruence. }
  unfold V10.match_one. rewrite Hnone. simpl. by rewrite IH.
Qed.

Lemma no_unused_passage_no_match_witness :
  Forall (fun ft => V10.ft_used ft = true) [V10.set_used Sample.long_passage]
  /\ V10.match_all_by V10.score Sample.summaries
       [V10.set_used Sample.long_passage]
     = (map (fun s => V10.MatchResult s None 0) Sample.summaries,
        [V10.set_used Sample.long_passage]).
Proof.
  split.
  - repeat constructor.
  - apply (no_unused_passage_no_match V10.score Sample.summaries
             [V10.set_used Sample.long_passage]).
    repeat constructor.
Defined.

(** ** v10: the Word document *)

(** X6.  On the result of [match_all], [generate_word] returns the number
    of matched summaries, the count [main] printed before.  A page break
    follows every matched entry except one in the last position of
    [matched], so a document whose last summary is unmatched ends with a
    page break.  The paragraphs of the document are the title, an empty
    one, five per matched summary, and one per page break, which
    [add_page_break] appends as a paragraph. *)
Theorem generate_word_counts (sc : V10.summary -> V10.full_text -> Q)
    (summaries : list V10.summary) (full_texts : list V10.full_text) :
  let matched := (V10.match_all_by sc summaries full_texts).1 in
  let final := (V10.match_all_by sc summaries full_texts).2 in
  let doc := (V10.generate_word final matched).1 in
  let count := (V10.generate_word final matched).2 in
  count = V10.matched_count matched
  /\ length (List.filter V10.is_page_break doc)
     = V10.matched_count (removelast matched)
  /\ length doc
     = (2 + 5 * count + V10.matched_count (removelast matched))%nat.
Proof.
  simpl. set (matched := (V10.match_all_by sc summaries full_texts).1).
  set (final := (V10.match_all_by sc summaries full_texts).2).
  unfold V10.generate_word.
  rewrite <- (List.filter_length V10.is_page_break
                (V10.word_loop final (length matched) 0 matched _ 0).1).
  rewrite word_loop_count, word_loop_app, !List.filter_app, !length_app.
  rewrite word_loop_paragraphs, word_loop_breaks by done.
  pose proof (has_passage_matched sc summaries full_texts) as H. simpl in H.
  fold matched final in H.
  rewrite !H; [simpl; lia| |done].
  rewrite removelast_firstn_len. apply sublist_take.
Qed.

(** ** Cleaning and normalising *)

(** X7.  [clean_html] (v10, and v8, which has the same function) leaves
    nothing that its own patterns would still change: the result holds no
    tag, no three newlines in a row and no leading or trailing whitespace,
    and cleaning it again gives it back. *)
Theorem clean_html_is_idempotent (text : Py.str) :
  Py.has_tag (V10.clean_html text) = false
  /\ Py.contains [10; 10; 10]%N (V10.clean_html text) = false
  /\ Py.strip (V10.clean_html text) = V10.clean_html text
  /\ V10.clean_html (V10.clean_html text) = V10.clean_html text.
Proof.
  destruct (clean_html_facts text) as (Htag & Hruns & Hstrip).
  split; [done|]. split; [|split; [done|]].
  - apply (short_runs_contains 0); [done|lia].
  - unfold V10.clean_html at 1. unfold Py.strip_tags, Py.squeeze_newlines.
    rewrite (no_tag_strip_tags _ Htag), (short_runs_squeeze _ _ Hruns). done.
Qed.

(** X8.  The name [normalize_sefer] returns has no leading or trailing
    whitespace, its only whitespace is single spaces, and it never holds
    the ornament U+269C. *)
Theorem normalize_sefer_tidy (name : Py.str) :
  Py.single_spaced false (V10.normalize_sefer name) = true
  /\ Py.strip (V10.normalize_sefer name) = V10.normalize_sefer name
  /\ Forall (fun c => c <> 9884%N) (V10.normalize_sefer name).
Proof.
  unfold V10.normalize_sefer. split; [|split].
  - unfold Py.strip, Py.sub_ws.
    apply rstrip_single_spaced, (lstrip_single_spaced false),
      sub_ws_single_spaced.
  - apply strip_idemp.
  - unfold Py.strip at 1. apply rstrip_Forall, lstrip_Forall.
    unfold Py.sub_ws. apply sub_ws_Forall; [done|].
    apply remove_literals_drops. simpl. auto 10.
Qed.

(** X9.  [generate_html] of v7, whatever the scoring.  It raises
    [TypeError] exactly when some summary has no sefer ([None], an entry
    before every sefer header): [match_summary_to_fulltext] normalises the
    sefer first.  Otherwise it returns the page and the number of matched
    summaries, which is at most the number of summaries and at most the
    number of passages, the calls sharing [used]. *)
Theorem v7_generate_html_outcome
    (sc : Py.str -> V7.summary -> V7.full_text -> Q)
    (summaries : list V7.summary) (full_texts : list V7.full_text) :
  match V7.generate_html_by sc summaries full_texts with
  | inl V7.TypeError => exists s, s ∈ summaries /\ V7.s_sefer s = None
  | inr (html, matched) =>
    Forall (fun s => V7.s_sefer s <> None) summaries
    /\ (matched <= length summaries)%nat
    /\ (matched <= length full_texts)%nat
  end.
Proof.
  unfold V7.generate_html_by.
  match goal with
  | |- context [V7.quote_loop sc full_texts summaries ?h ∅ None 0] =>
    pose proof (quote_loop_sequence sc full_texts summaries h ∅ None 0) as Hq;
    destruct (V7.quote_loop sc full_texts summaries h ∅ None 0)
      as [[]|[html matched]]
  end;
  pose proof (match_sequence_spec sc full_texts summaries ∅) as Hs.
  - rewrite Hq in Hs. exact Hs.
  - destruct Hq as (idxs & Hseq & ->). rewrite Hseq in Hs.
    destruct Hs as (Hall & Hlen & Hnd & Hidx).
    split; [done|]. cbn [Nat.add]. split.
    + rewrite <- Hlen. apply omap_length_le.
    + rewrite <- (filter_true_length full_texts).
      apply distinct_positions_bound; [done|].
      intros i Hi. destruct (Hidx i Hi) as [_ [ft Hft]]. by exists ft.
Qed.

(** X10.  [normalize] of v7 and of v8 only deletes characters: the
    characters of its class, whitespace among them, so that the [strip]
    after the substitution changes nothing.  Hence it distributes over
    concatenation and is idempotent. *)
Theorem normalize_is_a_filter :
  (forall text : Py.str,
     V7.normalize text = Py.remove_class V7.normalize_class text)
  /\ (forall a b : Py.str,
        V7.normalize (a ++ b) = V7.normalize a ++ V7.normalize b)
  /\ (forall text : Py.str, V7.normalize (V7.normalize text) = V7.normalize text)
  /\ (forall text : Py.str,
        V8.normalize text = Py.remove_class V8.normalize_class text)
  /\ (forall a b : Py.str,
        V8.normalize (a ++ b) = V8.normalize a ++ V8.normalize b)
  /\ (forall text : Py.str, V8.normalize (V8.normalize text) = V8.normalize text).
Proof.
  assert (H7 : forall text, V7.normalize text
                            = Py.remove_class V7.normalize_class text).
  { intros text. unfold V7.normalize. apply strip_no_space.
    eapply list.Forall_impl; [apply remove_class_Forall|].
    intros c Hc. simpl in Hc. unfold V7.normalize_class in Hc.
    by apply orb_false_iff in Hc as [Hc _]. }
  assert (H8 : forall text, V8.normalize text
                            = Py.remove_class V8.normalize_class text).
  { intros text. unfold V8.normalize. apply strip_no_space.
    eapply list.Forall_impl; [apply remove_class_Forall|].
    intros c Hc. simpl in Hc. unfold V8.normalize_class, V7.normalize_class in Hc.
    apply orb_false_iff in Hc as [Hc _]. by apply orb_false_iff in Hc as [Hc _]. }
  split; [done|]. split; [intros; by rewrite !H7, remove_class_app|].
  split; [intros; rewrite !H7; apply remove_class_fixed, remove_class_Forall|].
  split; [done|]. split; [intros; by rewrite !H8, remove_class_app|].
  intros; rewrite !H8; apply remove_class_fixed, remove_class_Forall.
Qed.

(** ** parse_summaries_to_content *)

(** X11.  [hebrew_page_to_int] adds up the values of the numeral letters
    of the page and nothing else: the value of a concatenation is the sum
    of the values, the order of the letters does not matter, characters
    outside the table (quotes, spaces, final letters) count for nothing,
    and the result is never negative. *)
Theorem hebrew_page_to_int_additive :
  (forall a b : Py.str,
     Mapper.hebrew_page_to_int (a ++ b)
     = (Mapper.hebrew_page_to_int a + Mapper.hebrew_page_to_int b)%Z)
  /\ (forall a b : Py.str,
        a ≡ₚ b -> Mapper.hebrew_page_to_int a = Mapper.hebrew_page_to_int b)
  /\ (forall (keep : Py.char -> bool) (page : Py.str),
        (forall c, is_Some (Mapper.hebrew_nums !! c) -> keep c = true) ->
        Mapper.hebrew_page_to_int (List.filter keep page)
        = Mapper.hebrew_page_to_int page)
  /\ (forall page : Py.str, (0 <= Mapper.hebrew_page_to_int page)%Z).
Proof.
  split; [|split; [|split]].
  - intros a b. rewrite !hebrew_page_to_int_sum, foldr_app.
    induction a as [|c a IH]; cbn [foldr]; [lia|]. rewrite IH. lia.
  - intros a b Hp. rewrite !hebrew_page_to_int_sum.
    induction Hp as [|c a b Hp IH|c d a|a b b' Hp1 IH1 Hp2 IH2];
      cbn [foldr]; [done|by rewrite IH|lia|congruence].
  - intros keep page Hkeep. rewrite !hebrew_page_to_int_sum.
    induction page as [|c page IH]; [done|]. cbn [List.filter foldr].
    destruct (keep c) eqn:E; cbn [foldr]; rewrite IH; [done|].
    unfold Mapper.letter_value.
    destruct (Mapper.hebrew_nums !! c) as [v|] eqn:Ev;
      cbn [default from_option]; unfold id; [|lia].
    rewrite Hkeep in E by by exists v. done.
  - intros page. rewrite hebrew_page_to_int_sum.
    induction page as [|c page IH]; cbn [foldr]; [lia|].
    pose proof (letter_value_nonneg c). lia.
Qed.

(** X12.  Which section a summary gets.  Among the sections of a similar
    author, in the order of [content_sections], the loop of
    [_map_summaries_to_content] takes the first one whose score no other
    exceeds; if that score is above 0.25 the summary gets this section and
    that confidence, its other fields unchanged; if no section of a
    similar author scores above 0.25, the summary is left as it was. *)
Theorem mapper_selects_first_best (ratio : Py.str -> Py.str -> Q)
    (content_sections : list Mapper.ContentSection)
    (summary : Mapper.Summary) :
  let author_sections :=
    Mapper.author_sections_of ratio summary content_sections in
  let sc := fun p : Mapper.ContentSection * Q =>
              Mapper.section_score ratio summary p.1 p.2 in
  (forall idx c sim v,
     author_sections !! idx = Some (c, sim) ->
     first_best (fun _ _ => false) sc author_sections idx v ->
     (0.25 < v)%Q ->
     Mapper.map_summary ratio content_sections summary
     = {| Mapper.author := Mapper.author summary;
          Mapper.opening_words := Mapper.opening_words summary;
          Mapper.summary_text := Mapper.summary_text summary;
          Mapper.page_ref := Mapper.page_ref summary;
          Mapper.line_number := Mapper.line_number summary;
          Mapper.matched_content := Some c;
          Mapper.match_confidence := v |})
  /\ ((forall c sim, (c, sim) ∈ author_sections ->
         (Mapper.section_score ratio summary c sim <= 0.25)%Q) ->
      Mapper.map_summary ratio content_sections summary = summary).
Proof.
  intros l sc. split.
  - intros idx c sim v Hl Hfb Hv.
    destruct (map_summary_cases ratio content_sections summary)
      as [(i & c' & sim' & v' & Hl' & Hfb' & Hv' & ->)|[Hall _]].
    + destruct (first_best_unique _ _ _ _ _ _ _ Hfb Hfb') as [<- <-].
      fold l in Hl'. rewrite Hl in Hl'. by injection Hl' as <- <-.
    + destruct Hfb as (ft & [Hft _] & Hsc & _).
      fold l in Hall. rewrite Hl in Hft. injection Hft as <-.
      specialize (Hall c sim (list_elem_of_lookup_2 _ _ _ Hl)).
      subst sc. simpl in Hsc. subst v. lra.
  - intros Hall.
    destruct (map_summary_cases ratio content_sections summary)
      as [(i & c' & sim' & v' & Hl' & Hfb' & Hv' & _)|[_ H]]; [|done].
    destruct Hfb' as (ft & [Hft _] & Hsc & _).
    rewrite Hl' in Hft. injection Hft as <-.
    specialize (Hall c' sim' (list_elem_of_lookup_2 _ _ _ Hl')).
    unfold Mapper.pair_score in Hsc. simpl in Hsc. subst v'. lra.
Qed.

(** X13.  The statistics of [export_json] after the mapping of summaries
    that had no section yet: a summary of high confidence is a matched
    one, so [high_confidence <= matched <= total_summaries], and [matched]
    is the number [mapped] that [_map_summaries_to_content] counted. *)
Theorem mapper_statistics (ratio : Py.str -> Py.str -> Q)
    (summaries : list Mapper.Summary)
    (content_sections : list Mapper.ContentSection) :
  Forall Mapper.fresh summaries ->
  let mapped_summaries :=
    Mapper.map_summaries_to_content ratio summaries content_sections in
  let '(total_summaries, matched, high_confidence) :=
    Mapper.statistics mapped_summaries in
  total_summaries = length summaries
  /\ (high_confidence <= matched <= total_summaries)%nat
  /\ (Mapper.map_loop ratio content_sections summaries 0).2 = matched.
Proof.
  intros Hfresh. simpl. unfold Mapper.map_summaries_to_content.
  rewrite length_map. split; [done|]. split; [split|].
  - induction Hfresh as [|s ss Hs Hss IH]; [done|]. simpl.
    destruct (Py.Qgtb _ (Py.float_lit 0.7)) eqn:E.
    + pose proof (map_summary_fresh ratio content_sections s Hs E) as H.
      unfold Mapper.is_matched in H. rewrite H. simpl. lia.
    + destruct (Mapper.matched_content _); simpl; lia.
  - etransitivity; [apply List.filter_length_le|]. by rewrite length_map.
  - destruct (map_loop_spec ratio content_sections summaries 0) as (_ & _ & H).
    rewrite (H Hfresh). done.
Qed.

Lemma mapper_statistics_witness :
  Forall Mapper.fresh [Sample.index_summary]
  /\ let mapped_summaries :=
       Mapper.map_summaries_to_content Sample.equal_ratio
         [Sample.index_summary] [Sample.section] in
     let '(total_summaries, matched, high_confidence) :=
       Mapper.statistics mapped_summaries in
     total_summaries = length [Sample.index_summary]
     /\ (high_confidence <= matched <= total_summaries)%nat
     /\ (Mapper.map_loop Sample.equal_ratio [Sample.section]
           [Sample.index_summary] 0).2 = matched.
Proof.
  split.
  - repeat constructor.
  - apply (mapper_statistics Sample.equal_ratio [Sample.index_summary]
             [Sample.section]).
    repeat constructor.
Defined.

(** X14.  [_map_summaries_to_content] raises [ZeroDivisionError] exactly
    when there is no summary: the loop is over no element and the report
    it prints divides by the number of summaries.  With a summary it
    returns, the summaries being mapped one by one. *)
Theorem mapping_report_division (ratio : Py.str -> Py.str -> Q)
    (summaries : list Mapper.Summary)
    (content_sections : list Mapper.ContentSection) :
  match Mapper.map_summaries_and_report ratio summaries content_sections with
  | inl Mapper.ZeroDivisionError => summaries = []
  | inr summaries' =>
    summaries <> []
    /\ summaries'
       = Mapper.map_summaries_to_content ratio summaries content_sections
  end.
Proof.
  unfold Mapper.map_summaries_and_report.
  destruct (map_loop_spec ratio content_sections summaries 0) as (H & _ & _).
  destruct (Mapper.map_loop ratio content_sections summaries 0) as [ss' mapped].
  simpl in H. subst ss'. by destruct summaries.
Qed.

(** ** The OCR scripts *)

(** X15.  [ocr_with_gemini] returns the text of the first attempt that
    succeeds: if the attempts before attempt [k] fail and attempt [k], one
    of the three, answers 200 with a content, the record holds that
    content, after [k + 1] requests with a sleep of 5 seconds between
    them. *)
Theorem first_success_is_returned (http : nat -> Ocr.attempt_outcome)
    (page_num : Z) (k : nat) (text content : Py.str) :
  (k < 3)%nat ->
  (forall j, (j < k)%nat -> Ocr.failed (http j) = true) ->
  http k = Ocr.Response 200 text (inl content) ->
  Ocr.ocr_with_gemini http page_num
  = (Ocr.text_record page_num content, Ocr.attempts_log page_num 0 (S k)).
Proof.
  intros Hk Hfail Hok. unfold Ocr.ocr_with_gemini, Ocr.ocr_with_gemini_retries.
  rewrite (gemini_loop_first_success http page_num 3 0 3 k [] text content);
    [done|done|done| |done].
  intros j Hj. apply Hfail. lia.
Qed.

Lemma first_success_is_returned_witness :
  (1 < 3)%nat
  /\ (forall j, (j < 1)%nat -> Ocr.failed (Sample.flaky_server j) = true)
  /\ Ocr.ocr_with_gemini Sample.flaky_server 7
     = (Ocr.text_record 7 (repeat 1488%N 120), Ocr.attempts_log 7 0 2).
Proof.
  assert (Hfail : forall j, (j < 1)%nat
                            -> Ocr.failed (Sample.flaky_server j) = true).
  { intros j Hj. assert (j = 0)%nat as -> by lia. reflexivity. }
  split; [lia|]. split; [exact Hfail|].
  apply (first_success_is_returned Sample.flaky_server 7 1
           (Py.lit "{...}") (repeat 1488%N 120)); [lia|exact Hfail|reflexivity].
Defined.

(** X16.  [ocr_with_gemini_flash] returns the first answer that is good
    enough: a content of at least 100 characters once stripped, or any
    content at the third attempt.  A text shorter than that is only ever
    returned after all three requests. *)
Theorem short_text_only_at_last_attempt (http : nat -> Ocr.attempt_outcome)
    (page_num : Z) :
  (forall (k : nat) (text content : Py.str),
     (k < 3)%nat ->
     (forall j, (j < k)%nat -> Ocr.unsatisfactory (http j) = true) ->
     http k = Ocr.Response 200 text (inl content) ->
     (k = 2 \/ 100 <= length (Py.strip content))%nat ->
     Ocr.ocr_with_gemini_flash http page_num
     = (Ocr.text_record page_num content, Ocr.attempts_log page_num 0 (S k)))
  /\ (forall content : Py.str,
        (Ocr.ocr_with_gemini_flash http page_num).1 !! "text"
        = Some (Ocr.VStr content) ->
        (length (Py.strip content) < 100)%nat ->
        (Ocr.ocr_with_gemini_flash http page_num).2
        = Ocr.attempts_log page_num 0 3).
Proof.
  split.
  - intros k text content Hk Hfail Hok Hgood. unfold Ocr.ocr_with_gemini_flash.
    rewrite (flash_loop_first_good http page_num 3 0 3 k [] text content);
      [done|done|done| |done|lia].
    intros j Hj. apply Hfail. lia.
  - intros content Htext Hshort. unfold Ocr.ocr_with_gemini_flash in *.
    by rewrite (flash_loop_short http page_num 3 0 3 [] content).
Qed.

(** X17.  [main] of ocr_summaries_index.py on a PDF of [n] pages.  The
    results are the records of the pages 1 to [n], in order; the partial
    file is written [n] times, and what is written after page [k + 1] is
    the first [k + 1] results with [completed_pages = k + 1], so an
    interrupted run loses only the pages not yet done; the final output
    holds all the results; and the text version is written without an
    exception. *)
Theorem checkpoints_are_prefixes (http : Z -> nat -> Ocr.attempt_outcome)
    (n : nat) :
  let '(results, saved, output, text_version) := Ocr.main http n in
  length results = n
  /\ (forall k, (k < n)%nat ->
        results !! k
        = Some (Ocr.ocr_with_gemini (http (Z.of_nat k + 1)%Z)
                  (Z.of_nat k + 1)%Z).1)
  /\ length saved = n
  /\ (forall k, (k < n)%nat ->
        saved !! k
        = Some {| Ocr.po_total_pages := n;
                  Ocr.po_completed_pages := S k;
                  Ocr.po_pages := take (S k) results |})
  /\ output = {| Ocr.total_pages := n; Ocr.pages := results |}
  /\ text_version.2 = None.
Proof.
  unfold Ocr.main. rewrite main_loop_spec. cbn [app length Nat.add].
  unfold Ocr.image_pages. rewrite !length_map, !length_seq.
  split; [done|]. split.
  { intros k Hk. rewrite map_map, list_lookup_fmap, lookup_seq_lt by done. done. }
  split; [done|]. split.
  { intros k Hk. rewrite list_lookup_fmap, lookup_seq_lt by done. done. }
  split; [done|]. apply write_results_records.
  apply list.Forall_forall. intros r Hr.
  apply list_elem_of_fmap in Hr as (p & -> & _). exists p.
  apply gemini_loop_record.
Qed.

(** X18.  [main] of ocr_retry_failed.py, on existing results whose pages
    all have an int ['page'] and a PDF that has the seven failed pages.
    The output file is written seven times; the last output lists the
    pages in increasing order of their number, each number once: the
    numbers of the existing results and the failed pages.  The record of a
    failed page is what the retry returned, whatever was there before and
    whether the retry succeeded or not; the record of any other page is
    the existing one, the last one if the number occurs twice.  The text
    version is written from these pages. *)
Theorem retry_replaces_failed_pages (has_page : Z -> bool)
    (http : Z -> nat -> Ocr.attempt_outcome)
    (data_pages : list (gmap string Ocr.value)) :
  Forall (fun p => exists n, p !! "page" = Some (Ocr.VInt n)) data_pages ->
  Forall (fun n => has_page n = true) Ocr.FAILED_PAGES ->
  exists (saved : list Ocr.output) (final : Ocr.output) (page_nums : list Z),
    (Ocr.retry_main has_page http data_pages).1.1 = saved ++ [final]
    /\ length saved = 6%nat
    /\ (Ocr.retry_main has_page http data_pages).1.2
       = Some (Ocr.write_results [] (Ocr.pages final)).1
    /\ (Ocr.retry_main has_page http data_pages).2
       = (Ocr.write_results [] (Ocr.pages final)).2
    /\ Ocr.total_pages final = length (Ocr.pages final)
    /\ StronglySorted Z.lt page_nums
    /\ (forall n, n ∈ page_nums
                  <-> n ∈ Ocr.FAILED_PAGES
                      \/ exists p, p ∈ data_pages
                                   /\ p !! "page" = Some (Ocr.VInt n))
    /\ Forall2
         (fun n p =>
            if bool_decide (n ∈ Ocr.FAILED_PAGES)
            then p = (Ocr.ocr_with_gemini_flash (http n) n).1
            else last (List.filter (Ocr.page_is n) data_pages) = Some p)
         page_nums (Ocr.pages final).
Proof.
  intros Hints Hpdf. unfold Ocr.retry_main.
  destruct (load_results_ints data_pages ∅ false Hints) as (d0 & -> & Hd0).
  pose proof (retry_loop_spec has_page http [] Ocr.FAILED_PAGES d0 [] Hpdf)
    as Hloop.
  change (Ocr.retried http [] d0) with d0 in Hloop. rewrite Hloop. clear Hloop.
  set (d := Ocr.retried http ([] ++ Ocr.FAILED_PAGES) d0).
  destruct (Ocr.write_results [] (Ocr.sorted_pages d)) as [text e] eqn:Ew.
  destruct (sorted_pages_spec d) as (ks & Hs & Hin & Hall).
  exists (map (fun k =>
                 let d' := Ocr.retried http
                             ([] ++ take (S k) Ocr.FAILED_PAGES) d0 in
                 {| Ocr.total_pages := length (Ocr.sorted_pages d');
                    Ocr.pages := Ocr.sorted_pages d' |})
              (seq 0 6)),
         {| Ocr.total_pages := length (Ocr.sorted_pages d);
            Ocr.pages := Ocr.sorted_pages d |}, ks.
  cbn [fst snd Ocr.pages Ocr.total_pages].
  split; [reflexivity|].
  split; [done|]. rewrite Ew. split; [done|]. split; [done|]. split; [done|].
  split; [done|]. split.
  - intros n. rewrite Hin. unfold d. rewrite retried_lookup. cbn [app].
    destruct (decide (n ∈ Ocr.FAILED_PAGES)) as [Hf|Hf].
    + rewrite bool_decide_eq_true_2 by done. split; [by left|by eexists].
    + rewrite bool_decide_eq_false_2 by done. rewrite Hd0.
      destruct (last _) as [p|] eqn:El.
      * split; [|by eexists]. intros _. right. exists p.
        apply last_Some in El as [l' El].
        assert (Hp : p ∈ List.filter (Ocr.page_is n) data_pages)
          by (rewrite El; apply elem_of_app; right; by left).
        apply list_elem_of_In, List.filter_In in Hp as [Hp Hb].
        apply list_elem_of_In in Hp. split; [done|].
        unfold Ocr.page_is in Hb.
        destruct (p !! "page") as [[m|s]|]; [|done|done].
        apply Z.eqb_eq in Hb. by subst.
      * rewrite lookup_empty. split; [by intros [? ?]|].
        intros [?|(p & Hp & Hpage)]; [done|]. exfalso.
        apply last_None in El.
        assert (Hp' : p ∈ List.filter (Ocr.page_is n) data_pages).
        { apply list_elem_of_In, List.filter_In. split; [by apply list_elem_of_In|].
          unfold Ocr.page_is. rewrite Hpage. apply Z.eqb_refl. }
        rewrite El in Hp'. by apply elem_of_nil in Hp'.
  - eapply list.Forall2_impl; [exact Hall|]. intros n p Hp. simpl in Hp.
    unfold d in Hp. rewrite retried_lookup in Hp. cbn [app] in Hp.
    destruct (bool_decide (n ∈ Ocr.FAILED_PAGES)); [congruence|].
    rewrite Hd0 in Hp. destruct (last _); [done|]. by rewrite lookup_empty in Hp.
Qed.

Lemma retry_replaces_failed_pages_witness :
  Forall (fun p => exists n, p !! "page" = Some (Ocr.VInt n))
         Sample.earlier_pages
  /\ Forall (fun n => (fun _ : Z => true) n = true) Ocr.FAILED_PAGES
  /\ exists (saved : list Ocr.output) (final : Ocr.output) (page_nums : list Z),
       (Ocr.retry_main (fun _ => true) (fun _ => Sample.flaky_server)
          Sample.earlier_pages).1.1 = saved ++ [final]
       /\ length saved = 6%nat
       /\ (Ocr.retry_main (fun _ => true) (fun _ => Sample.flaky_server)
             Sample.earlier_pages).1.2
          = Some (Ocr.write_results [] (Ocr.pages final)).1
       /\ (Ocr.retry_main (fun _ => true) (fun _ => Sample.flaky_server)
             Sample.earlier_pages).2
          = (Ocr.write_results [] (Ocr.pages final)).2
       /\ Ocr.total_pages final = length (Ocr.pages final)
       /\ StronglySorted Z.lt page_nums
       /\ (forall n, n ∈ page_nums
                     <-> n ∈ Ocr.FAILED_PAGES
                         \/ exists p, p ∈ Sample.earlier_pages
                                      /\ p !! "page" = Some (Ocr.VInt n))
       /\ Forall2
            (fun n p =>
               if bool_decide (n ∈ Ocr.FAILED_PAGES)
               then p = (Ocr.ocr_with_gemini_flash (Sample.flaky_server) n).1
               else last (List.filter (Ocr.page_is n) Sample.earlier_pages)
                    = Some p)
            page_nums (Ocr.pages final).
Proof.
  assert (Hints : Forall (fun p => exists n, p !! "page" = Some (Ocr.VInt n))
                         Sample.earlier_pages).
  { repeat constructor.
    - exists 1%Z. apply error_record_keys.
    - exists 4%Z. apply text_record_keys. }
  assert (Hpdf : Forall (fun n => (fun _ : Z => true) n = true)
                        Ocr.FAILED_PAGES)
    by (repeat constructor).
  split; [exact Hints|]. split; [exact Hpdf|].
  exact (retry_replaces_failed_pages (fun _ => true)
           (fun _ => Sample.flaky_server) Sample.earlier_pages Hints Hpdf).
Defined.

(** X19.  Every passage [extract_all_full_texts] returns is unused, stands
    under a sefer name that is not empty and came out of
    [normalize_sefer], has a stripped verse of at most 100 characters
    without a [<], a text that starts with the [<b>] of its verse, the
    text without its tags as ['text_clean'], longer than 50 characters,
    and the Hebrew words of the first 800 characters of it as keywords.
    A content without a line that holds [<center><h1>] gives no passage
    at all. *)
Theorem passages_well_formed (order : list Py.str -> list Py.str)
    (content : Py.str) :
  Forall (V10.well_formed_passage order)
         (V10.extract_all_full_texts order content)
  /\ (Forall (fun l => Py.contains (Py.lit "<center><h1>") (Py.strip l)
                       = false)
             (Py.split 10%N content) ->
      V10.extract_all_full_texts order content = []).
Proof.
  split; [apply extracted_passages_Forall|apply no_header_no_passage_lines].
Qed.

(** X20.  Every summary [extract_summaries_from_v2] returns has a verse, a
    summary and a page that are not empty and hold no [<]; its sefer is
    ["Unknown"], or the normalized text of a header that is not empty and
    holds no [<]; its keywords are the Hebrew words of its summary. *)
Theorem summaries_well_formed (order : list Py.str -> list Py.str)
    (todecimal : Py.char -> option N) (html : Py.str) :
  Forall (V10.well_formed_summary order)
         (V10.extract_summaries_from_v2 order todecimal html).
Proof. apply extracted_summaries_Forall. Qed.

(** X21.  The index of a page is read back.  On the text that
    [generate_html] builds for results whose summaries have a sefer, a
    verse, a summary and a page that are not empty and hold no [<],
    [extract_summaries_from_v2] returns one summary per result, in the
    order of the results: the same id, verse, summary and page, the sefer
    normalized once more and the keywords of the summary.  The decimal
    digits are supposed to include those of ASCII and not the bracket. *)
Theorem index_round_trip (order : list Py.str -> list Py.str)
    (todecimal : Py.char -> option N) (store : list V10.full_text)
    (matched : list V10.match_result) :
  (forall c, (48 <= c <= 57)%N -> todecimal c = Some (c - 48)%N) ->
  todecimal 93%N = None ->
  Forall (fun r => V10.printable (V10.mr_summary r)) matched ->
  V10.extract_summaries_from_v2 order todecimal
    (V10.generate_html store matched)
  = map (fun r => V10.reread order (V10.mr_summary r)) matched.
Proof. intros H1 H2 H3. by apply page_index_reread. Qed.

Lemma index_round_trip_witness :
  let matched := (V10.match_all Sample.summaries Sample.full_texts).1 in
  let store := (V10.match_all Sample.summaries Sample.full_texts).2 in
  (forall c, (48 <= c <= 57)%N -> Sample.ascii_decimal c = Some (c - 48)%N)
  /\ Sample.ascii_decimal 93%N = None
  /\ Forall (fun r => V10.printable (V10.mr_summary r)) matched
  /\ V10.extract_summaries_from_v2 Sample.as_built Sample.ascii_decimal
       (V10.generate_html store matched)
     = map (fun r => V10.reread Sample.as_built (V10.mr_summary r)) matched.
Proof.
  assert (H1 : forall c, (48 <= c <= 57)%N
                         -> Sample.ascii_decimal c = Some (c - 48)%N).
  { intros c [Hlo Hhi]. unfold Sample.ascii_decimal.
    apply N.leb_le in Hlo, Hhi. by rewrite Hlo, Hhi. }
  assert (H3 : Forall (fun r => V10.printable (V10.mr_summary r))
                 (V10.match_all Sample.summaries Sample.full_texts).1).
  { unfold V10.printable. apply (bool_decide_unpack _). by vm_compute. }
  cbv zeta. split; [exact H1|]. split; [reflexivity|]. split; [exact H3|].
  apply (index_round_trip _ _ _ _ H1 eq_refl H3).
Defined.

(** X22.  [main] (v10) raises [ZeroDivisionError], before it writes a
    file, exactly when no summary is extracted, which is the case when
    the page has no index header followed by a divider.  With summaries
    and a content in which no line holds [<center><h1>], it writes the
    page with every summary unmatched and a document that holds the
    title and the empty paragraph only, and reports 0 pages. *)
Theorem main_edge_cases (order : list Py.str -> list Py.str)
    (todecimal : Py.char -> option N) (html content : Py.str) :
  let summaries := V10.extract_summaries_from_v2 order todecimal html in
  (V10.main order todecimal html content = inl V10.ZeroDivisionError
   <-> summaries = [])
  /\ (V10.summary_section html = None ->
      V10.main order todecimal html content = inl V10.ZeroDivisionError)
  /\ (summaries <> [] ->
      Forall (fun l => Py.contains (Py.lit "<center><h1>") (Py.strip l)
                       = false)
             (Py.split 10%N content) ->
      V10.main order todecimal html content
      = inr (V10.generate_html []
               (map (fun s => V10.MatchResult s None 0) summaries),
             ([ V10.Paragraph (Py.lit "ליקוטי ספרי חסידות - פרשת בשלח");
                V10.Paragraph [] ], 0%nat))).
Proof. apply main_cases. Qed.

(** ** The model on small inputs *)

Example strip_tags_sample :
  Py.strip_tags (Py.lit "<b>ab</b> c <> d <e") = Py.lit "ab c <> d <e"
  /\ Py.strip_tags (Py.lit "a<b<c>d>e") = Py.lit "ad>e".
Proof. split; vm_compute; reflexivity. Qed.

Example squeeze_newlines_sample :
  Py.squeeze_newlines [97; 10; 10; 98; 10; 10; 10; 10; 99; 10; 100]%N
  = [97; 10; 10; 98; 10; 10; 99; 10; 100]%N.
Proof. vm_compute. reflexivity. Qed.

Example findall_sample :
  Py.findall_runs Py.is_hebrew 3 (Py.lit "אבג דה וזחט, abc יכלמנ")
  = [Py.lit "אבג"; Py.lit "וזחט"; Py.lit "יכלמנ"].
Proof. vm_compute. reflexivity. Qed.

Example normalize_sefer_sample :
  V10.normalize_sefer (Py.lit "  נועם אלימלך הק'  ז`ל ⚜ ")
  = Py.lit "נועם אלימלך".
Proof. vm_compute. reflexivity. Qed.

(** [int(29 / 50 * 50)] is 28 in binary64. *)
Example int_of_float_sample :
  Py.int_of_float (Py.float_of_nat 29 / Py.float_of_nat 50 * 50)%float = 28%Z.
Proof. vm_compute. reflexivity. Qed.

Example sample_scores :
  map (fun s => map (V10.score s) Sample.full_texts) Sample.summaries
  = [[136%Q; 0%Q]; [0%Q; 0%Q]].
Proof. vm_compute. reflexivity. Qed.

Example sample_match :
  map V10.pairing (V10.match_all Sample.summaries Sample.full_texts).1
  = [(1%N, Some 0%nat, 136%Q); (2%N, None, 0%Q)]
  /\ map V10.ft_used (V10.match_all Sample.summaries Sample.full_texts).2
     = [true; false].
Proof. split; vm_compute; reflexivity. Qed.

(** The two sample orders do enumerate a keyword set differently. *)
Example sample_orders_differ :
  V10.get_hebrew_words Sample.as_built (Py.lit "שירת הים")
  <> V10.get_hebrew_words Sample.reversed (Py.lit "שירת הים").
Proof. vm_compute. discriminate. Qed.

Example h1_search_sample :
  map V10.h1_search
      [ Py.lit "<center><h1><b>נועם אלימלך</b></h1></center>";
        Py.lit "<center> <h1>אור המאיר </h1>";
        Py.lit "<center><h1> </h1>";
        Py.lit "<center><h1> <b></b></h1>";
        Py.lit "<center><h1></h1>" ]
  = [ Some (Py.lit "נועם אלימלך"); Some (Py.lit "אור המאיר ");
      Some [32%N]; None; None ].
Proof. vm_compute. reflexivity. Qed.

Example extract_all_full_texts_sample :
  map (fun ft => (V10.ft_sefer ft, V10.ft_verse ft, V10.ft_text ft))
      (V10.extract_all_full_texts Sample.as_built Sample.content)
  = [ (Py.lit "נועם אלימלך", Py.lit "ויהי בשלח",
       Py.lit "<b>ויהי בשלח</b> הנה ענין קריעת ים סוף הוא מעלה גדולה מאד לישראל
המשך הפסקה");
      (Py.lit "נועם אלימלך", Py.lit "מן",
       Py.lit "<b>מן</b> לחם מן השמים ניתן לישראל במדבר ארבעים שנה עד בואם אל ארץ נושבת") ].
Proof. vm_compute. reflexivity. Qed.

(** [main] on the page it would write for the sample summaries and on the
    sample text: the summaries are read back and matched again. *)
Example main_sample :
  let page :=
    V10.generate_html []
      (map (fun s => V10.MatchResult s None 0) Sample.summaries) in
  V10.extract_summaries_from_v2 Sample.as_built Sample.ascii_decimal page
  = Sample.summaries
  /\ match V10.main Sample.as_built Sample.ascii_decimal page Sample.content
     with
     | inr (_, (_, count)) => count = 1%nat
     | inl _ => False
     end.
Proof. split; vm_compute; reflexivity. Qed.

(** Two sections whose signals add up to 17/20 both.  The floats differ:
    0.9 * 0.4 + 0.15 + 0.1 + 0.8 * 0.3 is 0.85 and 1.0 * 0.4 + 0.15 +
    1.0 * 0.3 is 0.8500000000000001, so the second section, though later
    in the list, is the one the summary gets. *)
Example mapper_float_tie :
  let sections := [Sample.similar_section; Sample.unpaged_section] in
  map (fun p => Mapper.section_score Sample.near_ratio Sample.index_summary
                  p.1 p.2)
      (Mapper.author_sections_of Sample.near_ratio Sample.index_summary
         sections)
  = [Py.Q_of_float 0.85; Py.Q_of_float 0.8500000000000001]
  /\ [Py.Q_of_float (0 + 0.9 * 0.4 + 0.15 + 0.1 + 0.8 * 0.3);
      Py.Q_of_float (0 + 1.0 * 0.4 + 0.15 + 1.0 * 0.3)]
     = [Py.Q_of_float 0.85; Py.Q_of_float 0.8500000000000001]
  /\ Mapper.matched_content
       (Mapper.map_summary Sample.near_ratio sections Sample.index_summary)
     = Some Sample.unpaged_section
  /\ Mapper.match_confidence
       (Mapper.map_summary Sample.near_ratio sections Sample.index_summary)
     = Py.Q_of_float 0.8500000000000001.
Proof.
  cbv zeta.
  repeat match goal with |- _ /\ _ => split end; vm_compute; reflexivity.
Qed.
